(** * Volume boundaries and collation (mlreco/iotools/collates.py)

    A shallow embedding of [VolumeBoundaries], [CollateSparse] and
    [CollateDense], and the properties of the multi-volume coordinate
    transform and of the collate functions that are checked against it.

    Conventions of the embedding.
    - A Python float that is finite is a rational number; cut positions are
      values of [Q].  [<], [>=] and [int()] on finite floats are exact, so they
      are the rational comparison and the truncation towards zero.
    - An integer numpy array holds values of [Z] in the range of its dtype
      (a signed one), and arithmetic between its entries wraps around
      ([wrap]).  Where an integer entry meets a float, numpy converts the
      entry to binary64 first, which rounds it above 2^53 ([to_binary64]).
    - A Python int that is an operand of array arithmetic is converted to
      the dtype of the array, and numpy raises when it does not fit
      ([operand]).  The class of that exception is the one of numpy 2,
      [OverflowError]; numpy 1 raises [UFuncTypeError] on int64 and wraps on
      int32.  The properties below that need the operands to fit say so
      ([volume_fits], [operands_fit]), and there the versions agree.
    - A float64 numpy array holds values of the primitive binary64 type
      [float]; only [translate] and [untranslate] are instantiated at it.
    - A raised exception is the name of its class ([Raise "IndexError"]).
    - The lists the caller hands over in [boundaries] are objects of a store
      ([config_store]); [__init__] keeps a reference to them and writes to
      them. *)

From Stdlib Require Import ZArith QArith Lia Bool.
From Stdlib Require Import Sorting.Sorted Sorting.Permutation.
From Stdlib Require Import Floats.
From stdpp Require Import base option list gmap strings.

Local Open Scope Z_scope.

(** ** Exceptions *)

Definition exn := string.

Inductive result (A : Type) : Type :=
| Ok (a : A)
| Raise (e : exn).
Arguments Ok {A} a.
Arguments Raise {A} e.

#[global] Instance result_ret : MRet result := fun A a => Ok a.
#[global] Instance result_bind : MBind result := fun A B f m =>
  match m with
  | Ok a => f a
  | Raise e => Raise e
  end.

#[global] Instance result_fmap : FMap result := fun A B f m =>
  match m with
  | Ok a => Ok (f a)
  | Raise e => Raise e
  end.

Definition py_assert (b : bool) : result unit :=
  if b then Ok tt else Raise "AssertionError"%string.

(** [l[i]] for a Python list or a numpy axis, with a non-negative index. *)
Definition getitem {A : Type} (l : list A) (i : nat) : result A :=
  match l !! i with
  | Some a => Ok a
  | None => Raise "IndexError"%string
  end.

Fixpoint mapM {A B : Type} (f : A -> result B) (l : list A) : result (list B) :=
  match l with
  | [] => Ok []
  | a :: l' => b ← f a; bs ← mapM f l'; Ok (b :: bs)
  end.

(** ** Numbers *)

(** [int(x)] for a finite Python float: truncation towards zero. *)
Definition int_of_float (x : Q) : Z := Z.quot (Qnum x) (Zpos (Qden x)).

(** Integer dtypes of a voxel array. *)
Inductive int_dtype : Set := int32 | int64.

Definition bits (dt : int_dtype) : Z :=
  match dt with int32 => 32 | int64 => 64 end.

(** Two's complement wrap-around to [w] bits. *)
Definition wrap (w : Z) (z : Z) : Z := (z + 2 ^ (w - 1)) mod 2 ^ w - 2 ^ (w - 1).

Definition in_range (w : Z) (z : Z) : Prop := - 2 ^ (w - 1) <= z < 2 ^ (w - 1).

Definition int_add (dt : int_dtype) (x s : Z) : Z := wrap (bits dt) (x + s).
Definition int_sub (dt : int_dtype) (x s : Z) : Z := wrap (bits dt) (x - s).
Definition int_mul (dt : int_dtype) (x s : Z) : Z := wrap (bits dt) (x * s).

(** Whether a Python int fits an integer dtype. *)
Definition int_fits (dt : int_dtype) (s : Z) : bool :=
  (- 2 ^ (bits dt - 1) <=? s) && (s <? 2 ^ (bits dt - 1)).

(** The conversion of an integer to a binary floating-point format, to the
    nearest value and ties to even, as IEEE 754 has it and the Standard
    Library specifies it ([binary_normalize]); [float_value] is the integer
    that the result stands for.  [to_binary64] is the conversion of an int64
    entry to float64 and [to_binary32] that of a Python int to float32; both
    are finite below 2^64 in absolute value. *)
Definition float_value (f : spec_float) : Z :=
  match f with
  | S754_finite sign m e => let v := Z.shiftl (Z.pos m) e in if sign then - v else v
  | _ => 0
  end.

Definition to_binary64 (x : Z) : Z := float_value (SpecFloat.binary_normalize 53 1024 x 0 false).
Definition to_binary32 (x : Z) : Z := float_value (SpecFloat.binary_normalize 24 128 x 0 false).

(** A Python int added to a float64 array is converted to binary64 first;
    the conversion raises when the int is too large for a finite value. *)
Definition float_of_int (s : Z) : float :=
  SF2Prim (SpecFloat.binary_normalize prec emax s 0 false).

Definition float_fits (s : Z) : bool := PrimFloat.is_finite (float_of_int s).

Definition float_add (x : float) (s : Z) : float := PrimFloat.add x (float_of_int s).
Definition float_sub (x : float) (s : Z) : float := PrimFloat.sub x (float_of_int s).

(** ** Arrays

    An array whose last axis has length [ncols]; the leading axes are
    flattened into the list of rows.  A numpy array is rectangular: every
    row has [ncols] entries ([array_wf]). *)

Record array (T : Type) : Type := Array { ncols : nat; rows : list (list T) }.
Arguments Array {T} ncols rows.
Arguments ncols {T} a.
Arguments rows {T} a.

Definition array_wf {T : Type} (a : array T) : Prop :=
  Forall (fun r => length r = ncols a) (rows a).

(** ** The caller's boundary lists

    [definitions] is a Python list whose items are the string ['None'],
    [None], a list of floats (held by reference) or anything else. *)

Definition loc := nat.

Inductive item : Type :=
| IStrNone
| INone
| IRef (l : loc)
| IOther.

Record config_store : Type := ConfigStore {
  outer : list item;
  cuts_heap : gmap loc (list Q)
}.

(** [list.sort()] on floats: ascending and stable. *)
Fixpoint insert_sorted (x : Q) (l : list Q) : list Q :=
  match l with
  | [] => [x]
  | y :: l' => if Qle_bool x y then x :: l else y :: insert_sorted x l'
  end.

Definition list_sort (l : list Q) : list Q := foldr insert_sorted [] l.

(** The sanity-check loop of [__init__], lines 58-64, from index [i] on for
    [n] more iterations.  It writes through the reference it was given. *)
Fixpoint sanity_check (n i : nat) (s : config_store) : config_store * result unit :=
  match n with
  | O => (s, Ok tt)
  | S n' =>
    match outer s !! i with
    | None => (s, Raise "IndexError"%string)
    | Some IStrNone =>
        sanity_check n' (S i) (ConfigStore (<[i := INone]> (outer s)) (cuts_heap s))
    | Some INone => sanity_check n' (S i) s
    | Some (IRef l) =>
        match cuts_heap s !! l with
        | Some (c :: cs) =>
            sanity_check n' (S i)
              (ConfigStore (outer s) (<[l := list_sort (c :: cs)]> (cuts_heap s)))
        | _ => (s, Raise "AssertionError"%string)
        end
    | Some IOther => (s, Raise "AssertionError"%string)
    end
  end.

(** What [self.boundaries[n]] reads once the loop is over. *)
Definition read_boundary (s : config_store) (it : item) : result (option (list Q)) :=
  match it with
  | INone => Ok None
  | IRef l =>
      match cuts_heap s !! l with
      | Some b => Ok (Some b)
      | None => Raise "TypeError"%string
      end
  | _ => Raise "TypeError"%string
  end.

(** ** Volume enumeration *)

(** Row-major enumeration of the multi-indices of an array of shape [ns]. *)
Fixpoint ndindex (ns : list nat) : list (list nat) :=
  match ns with
  | [] => [[]]
  | n :: ns' => i ← seq 0 n; (fun m => i :: m) <$> ndindex ns'
  end.

(** [np.meshgrid] defaults to [indexing='xy']: the first two axes of its
    outputs are exchanged. *)
Definition swap01 {A : Type} (l : list A) : list A :=
  match l with
  | a :: b :: l' => b :: a :: l'
  | _ => l
  end.

(** [np.array(np.meshgrid( *all_index)).T.reshape(-1, dim)], line 71, with
    [all_index[n] = arange(ns[n])].  The meshgrid outputs have shape
    [swap01 ns] and output [j] holds at [k] the entry [j] of [swap01 k];
    [.T] reverses the axes; [reshape(-1, dim)] lists the rows in row-major
    order of the remaining axes. *)
Definition meshgrid_combo (ns : list nat) : list (list nat) :=
  (fun m => swap01 (reverse m)) <$> ndindex (reverse (swap01 ns)).

(** Lines 75-85. *)
Definition dim_shifts (b : list Q) : list Q :=
  ((fun i : nat => if (0 <? i)%nat then nth (i - 1) b 0%Q else 0%Q) <$> seq 0 (length b))
  ++ [List.last b 0%Q].

Definition make_shifts (bs : list (option (list Q))) : list (list Q) :=
  (fun b => match b with None => [0%Q] | Some b => dim_shifts b end) <$> bs.

Definition n_boundaries (bs : list (option (list Q))) : list nat :=
  (fun b => match b with None => O | Some b => length b end) <$> bs.

(** The object [__init__] builds.  [boundaries] is a reference to the caller's
    list; the field holds what that list contains when [__init__] returns. *)
Record VolumeBoundaries : Type := MkVolumeBoundaries {
  dim : nat;
  boundaries : list (option (list Q));
  combo : list (list nat);
  shifts : list (list Q)
}.

(** Lines 66-85.  With no dimension at all, [reshape(-1, 0)] of the empty
    array raises. *)
Definition build (bs : list (option (list Q))) : result VolumeBoundaries :=
  match bs with
  | [] => Raise "ValueError"%string
  | _ =>
      Ok (MkVolumeBoundaries (length bs) bs
            (meshgrid_combo ((fun n => S n) <$> n_boundaries bs))
            (make_shifts bs))
  end.

Definition VolumeBoundaries_init (s : config_store) : config_store * result VolumeBoundaries :=
  let '(s', r) := sanity_check (length (outer s)) 0 s in
  (s', _ ← r; bs ← mapM (read_boundary s') (outer s'); build bs).

Definition num_volumes (vb : VolumeBoundaries) : nat := length (combo vb).

(** [np.arange(len(self.combo)) + entry * self.num_volumes()]: the product
    is one of Python ints, and it is added to an int64 array, which it has to
    fit; the sums wrap around. *)
Definition virtual_batch_ids (vb : VolumeBoundaries) (entry : Z) : result (list Z) :=
  let k := entry * Z.of_nat (num_volumes vb) in
  if int_fits int64 k
  then Ok ((fun i : nat => wrap 64 (Z.of_nat i + k)) <$> seq 0 (length (combo vb)))
  else Raise "OverflowError"%string.

(** ** translate and untranslate

    Both work on an array of any dtype; what they need of the dtype is its
    in-place [+=] and [-=] with a Python int, and which Python ints can be
    converted to it. *)

Record dtype (T : Type) : Type := Dtype {
  iadd : T -> Z -> T;
  isub : T -> Z -> T;
  fits : Z -> bool
}.
Arguments Dtype {T} iadd isub fits.
Arguments iadd {T} d x s.
Arguments isub {T} d x s.
Arguments fits {T} d s.

Definition int_ops (dt : int_dtype) : dtype Z := Dtype (int_add dt) (int_sub dt) (int_fits dt).
Definition float64 : dtype float := Dtype float_add float_sub float_fits.

(** The Python int [s] as an operand of [+=] or [-=] on an array of dtype
    [d]. *)
Definition operand {T : Type} (d : dtype T) (s : Z) : result Z :=
  if fits d s then Ok s else Raise "OverflowError"%string.

(** [int(self.shifts[n][c[n]])] for a row [c] of [self.combo]. *)
Definition bin_shift (vb : VolumeBoundaries) (c : list nat) (n : nat) : result Z :=
  sh ← getitem (shifts vb) n;
  bin ← getitem c n;
  s ← getitem sh bin;
  Ok (int_of_float s).

(** [int(self.shifts[n][self.combo[volume][n]])] *)
Definition volume_shift (vb : VolumeBoundaries) (volume n : nat) : result Z :=
  c ← getitem (combo vb) volume;
  bin_shift vb c n.

(** [a[..., n] = f(a[..., n])] *)
Definition column_update {T : Type} (f : T -> T) (n : nat) (rs : list (list T)) : list (list T) :=
  alter f n <$> rs.

Section Translate.
Context {T : Type} (d : dtype T).

(** The loops of lines 130-131 and 155-156 over the dimensions [ns]. *)
Fixpoint shift_loop (op : T -> Z -> T) (vb : VolumeBoundaries) (volume : nat)
    (ns : list nat) (rs : list (list T)) : result (list (list T)) :=
  match ns with
  | [] => Ok rs
  | n :: ns' =>
      s ← volume_shift vb volume n;
      s ← operand d s;
      shift_loop op vb volume ns' (column_update (fun x => op x s) n rs)
  end.

Definition translate (vb : VolumeBoundaries) (voxels : array T) (volume : Z)
    : result (array T) :=
  _ ← py_assert ((0 <=? volume) && (volume <? Z.of_nat (num_volumes vb)));
  _ ← py_assert (ncols voxels =? dim vb)%nat;
  rs ← shift_loop (iadd d) vb (Z.to_nat volume) (seq 0 (dim vb)) (rows voxels);
  Ok (Array (ncols voxels) rs).

Definition untranslate (vb : VolumeBoundaries) (voxels : array T) (volume : Z)
    : result (array T) :=
  _ ← py_assert ((0 <=? volume) && (volume <? Z.of_nat (num_volumes vb)));
  _ ← py_assert (ncols voxels =? dim vb)%nat;
  rs ← shift_loop (isub d) vb (Z.to_nat volume) (seq 0 (dim vb)) (rows voxels);
  Ok (Array (ncols voxels) rs).
End Translate.

(** ** split *)

(** [x < c] and [x >= c] for an integer array entry and a float cut: numpy
    converts the entry to binary64, which rounds it above 2^53, and compares
    the two floats. *)
Definition lt_cut (x : Z) (c : Q) : bool := negb (Qle_bool c (inject_Z (to_binary64 x))).
Definition ge_cut (x : Z) (c : Q) : bool := Qle_bool c (inject_Z (to_binary64 x)).

Definition column (n : nat) (rs : list (list Z)) : list Z := (fun r => nth n r 0) <$> rs.

(** Lines 184-191: the boolean masks of one dimension. *)
Definition dim_boundaries (col : list Z) (b : option (list Q)) : list (list bool) :=
  match b with
  | None => [(fun _ => true) <$> col]
  | Some b =>
      ((fun c => (fun x => lt_cut x c) <$> col) <$> b)
      ++ [(fun x => ge_cut x (List.last b 0%Q)) <$> col]
  end.

(** Lines 182-191; [self.boundaries] has [self.dim] items. *)
Definition all_boundaries (vb : VolumeBoundaries) (coords : list (list Z)) : list (list (list bool)) :=
  imap (fun n b => dim_boundaries (column n coords) b) (boundaries vb).

(** Lines 196-198: the mask of the volume whose bins are [c]. *)
Fixpoint and_masks (ab : list (list (list bool))) (c : list nat) (ns : list nat)
    (m : list bool) : result (list bool) :=
  match ns with
  | [] => Ok m
  | n :: ns' =>
      bs ← getitem ab n;
      bin ← getitem c n;
      m' ← getitem bs bin;
      and_masks ab c ns' (zip_with andb m m')
  end.

Definition volume_mask (ab : list (list (list bool))) (c : list nat) (d : nat)
    : result (list bool) :=
  bs ← getitem ab 0;
  bin ← getitem c 0;
  m ← getitem bs bin;
  and_masks ab c (seq 1 (d - 1)) m.

(** [a[m] = f(a[m])] for a boolean mask [m]. *)
Definition masked {A : Type} (m : list bool) (f : A -> A) (l : list A) : list A :=
  zip_with (fun (b : bool) x => if b then f x else x) m l.

(** Line 201: the right-hand side is computed in the dtype of the voxel
    array and stored into an int32 array. *)
Definition virtual_batch_id (dt : int_dtype) (idx : nat) (batch_id : Z) (nv : nat) : Z :=
  wrap 32 (int_add dt (Z.of_nat idx) (int_mul dt batch_id (Z.of_nat nv))).

Definition assign_batch_ids (dt : int_dtype) (m : list bool) (idx nv : nat)
    (batch_ids vbids : list Z) : list Z :=
  zip_with (fun (mb : bool * Z) v => if mb.1 then virtual_batch_id dt idx mb.2 nv else v)
    (zip m batch_ids) vbids.

(** Lines 202-203.  The shift is converted to the dtype of the array
    whatever the mask selects. *)
Fixpoint subtract_shifts (dt : int_dtype) (vb : VolumeBoundaries) (c : list nat)
    (m : list bool) (ns : list nat) (new_coords : list (list Z)) : result (list (list Z)) :=
  match ns with
  | [] => Ok new_coords
  | n :: ns' =>
      s ← bin_shift vb c n;
      s ← operand (int_ops dt) s;
      subtract_shifts dt vb c m ns'
        (masked m (alter (fun x => int_sub dt x s) n) new_coords)
  end.

(** Lines 195-203: the loop over the volumes [cs], numbered from [idx].  On
    line 201 the number of volumes is an operand of [*] with the batch ids,
    whatever the mask selects, and [idx], which is smaller, one of [+]. *)
Fixpoint volumes_loop (dt : int_dtype) (vb : VolumeBoundaries)
    (ab : list (list (list bool))) (batch_ids : list Z)
    (idx : nat) (cs : list (list nat)) (st : list Z * list (list Z))
    : result (list Z * list (list Z)) :=
  match cs with
  | [] => Ok st
  | c :: cs' =>
      m ← volume_mask ab c (dim vb);
      _ ← operand (int_ops dt) (Z.of_nat (num_volumes vb));
      let vbids := assign_batch_ids dt m idx (num_volumes vb) batch_ids st.1 in
      new_coords ← subtract_shifts dt vb c m (seq 0 (dim vb)) st.2;
      volumes_loop dt vb ab batch_ids (S idx) cs' (vbids, new_coords)
  end.

(** [np.lexsort]: an indirect stable sort on each key in turn, the first key
    first, so that the last key is the primary one. *)
Fixpoint insert_by (key : nat -> Z) (i : nat) (l : list nat) : list nat :=
  match l with
  | [] => [i]
  | j :: l' => if key i <=? key j then i :: l else j :: insert_by key i l'
  end.

Definition stable_argsort (key : list Z) (perm : list nat) : list nat :=
  foldr (insert_by (fun i => nth i key 0)) [] perm.

Definition lexsort (keys : list (list Z)) (n : nat) : list nat :=
  foldl (fun perm key => stable_argsort key perm) (seq 0 n) keys.

(** [a[perm]] *)
Definition fancy_index {A : Type} (l : list A) (perm : list nat) : list A :=
  omap (fun i => l !! i) perm.

(** [new_voxels.T[list(range(1, self.dim+1)) + [0], :]], line 206: the
    coordinate columns in order, then column 0. *)
Definition sort_keys (d : nat) (new_voxels : list (list Z)) : list (list Z) :=
  (fun j => column j new_voxels) <$> (seq 1 d ++ [0%nat]).

Definition split (dt : int_dtype) (vb : VolumeBoundaries) (voxels : array Z)
    : result (array Z * list nat) :=
  _ ← (if (ncols voxels =? 0)%nat then Raise "IndexError"%string else Ok tt);
  let batch_ids := column 0 (rows voxels) in
  let coords := drop 1 <$> rows voxels in
  _ ← py_assert (dim vb =? ncols voxels - 1)%nat;
  let ab := all_boundaries vb coords in
  let virtual_batch_ids := (fun _ => 0) <$> coords in
  st ← volumes_loop dt vb ab batch_ids 0 (combo vb) (virtual_batch_ids, coords);
  let new_voxels := zip_with cons st.1 st.2 in
  Ok (Array (S (dim vb)) new_voxels,
      lexsort (sort_keys (dim vb) new_voxels) (length new_voxels)).

(** ** Arrays of any rank and the values of a sample

    [CollateSparse] looks at the rank of the arrays it is given, so here an
    array carries its shape; its entries are listed in row-major order.
    The arrays of a sample are taken to be arrays of signed integers of at
    most 64 bits.  [np.concatenate] of such arrays and the int32 column of
    lines 298 and 335 is an integer array with the same entries.  Joined with
    the float32 column of lines 255, 314 and 324 they give a float array,
    float32 when no array has more than 16 bits and float64 otherwise;
    either holds the entries converted to binary64 ([to_float]), and the
    column holds the position of the sample converted to binary32.  A float
    array whose entries are integers is again the array of these integers.
    A value of a sample is an array, a tuple, a list or some other object;
    where numpy would convert a tuple or a list to an array, the embedding
    raises [TypeError]. *)

Definition prod_list (l : list nat) : nat := foldr Nat.mul 1%nat l.

Record ndarray : Type := NDArray { shape : list nat; data : list Z }.

Definition ndim (a : ndarray) : nat := length (shape a).

#[local] Set Warnings "-register-all".
Inductive value : Type :=
| VArray (a : ndarray)
| VTuple (vs : list value)
| VList (vs : list value)
| VOther.

(** A sample is a dict; its keys are kept in insertion order. *)
Definition sample : Type := list (string * value).

Fixpoint dict_get (s : sample) (key : string) : result value :=
  match s with
  | [] => Raise "KeyError"%string
  | (k, v) :: s' => if String.eqb k key then Ok v else dict_get s' key
  end.

(** Entries [i * size, (i + 1) * size) of [l]. *)
Definition block (size i : nat) (l : list Z) : list Z := take size (drop (i * size) l).

(** [v[i]] *)
Definition value_getitem (v : value) (i : nat) : result value :=
  match v with
  | VTuple vs | VList vs => getitem vs i
  | VArray a =>
      match shape a with
      | [] => Raise "IndexError"%string
      | n :: rest =>
          if (i <? n)%nat then Ok (VArray (NDArray rest (block (prod_list rest) i (data a))))
          else Raise "IndexError"%string
      end
  | VOther => Raise "TypeError"%string
  end.

(** [v.shape] *)
Definition shape_of (v : value) : result (list nat) :=
  match v with
  | VArray a => Ok (shape a)
  | _ => Raise "AttributeError"%string
  end.

(** [len(v)] *)
Definition py_len (v : value) : result nat :=
  match v with
  | VArray a =>
      match shape a with
      | [] => Raise "TypeError"%string
      | n :: _ => Ok n
      end
  | VTuple vs | VList vs => Ok (length vs)
  | VOther => Raise "TypeError"%string
  end.

Definition as_array (v : value) : result ndarray :=
  match v with
  | VArray a => Ok a
  | _ => Raise "TypeError"%string
  end.

(** A column of [n] entries [v]. *)
Definition full_column (n : nat) (v : Z) : ndarray := NDArray [n; 1%nat] (replicate n v).

(** [np.full(shape=[n, 1], fill_value=b, dtype=np.int32)]: the Python int [b]
    has to fit the dtype. *)
Definition np_full_int32 (n b : nat) : result ndarray :=
  v ← operand (int_ops int32) (Z.of_nat b);
  Ok (full_column n v).

(** [np.full(shape=[n, 1], fill_value=b, dtype=np.float32)], for [b] up to
    2^53: the Python int is rounded to binary32. *)
Definition np_full_float32 (n b : nat) : ndarray := full_column n (to_binary32 (Z.of_nat b)).

(** What an integer array becomes when [np.concatenate] joins it with a
    float32 array. *)
Definition to_float (a : ndarray) : ndarray := NDArray (shape a) (to_binary64 <$> data a).

(** [np.expand_dims(a, 1)] *)
Definition expand_dims (a : ndarray) : result ndarray :=
  match shape a with
  | [] => Raise "AxisError"%string
  | n :: rest => Ok (NDArray (n :: 1%nat :: rest) (data a))
  end.

(** [np.concatenate(arrs, axis=0)] *)
Definition concatenate0 (arrs : list ndarray) : result ndarray :=
  match arrs with
  | [] => Raise "ValueError"%string
  | a :: _ =>
      match shape a with
      | [] => Raise "ValueError"%string
      | _ :: rest =>
          if forallb (fun b => bool_decide (tail (shape b) = rest)
                               && bool_decide (ndim b = ndim a)) arrs
          then Ok (NDArray (sum_list ((fun b => hd 0%nat (shape b)) <$> arrs) :: rest)
                     (b ← arrs; data b))
          else Raise "ValueError"%string
      end
  end.

(** [np.concatenate(arrs, axis=1)] *)
Definition concatenate1 (arrs : list ndarray) : result ndarray :=
  match arrs with
  | [] => Raise "ValueError"%string
  | a :: _ =>
      match shape a with
      | [] => Raise "ValueError"%string
      | [_] => Raise "AxisError"%string
      | n :: _ :: rest =>
          if forallb (fun b => bool_decide (hd 0%nat (shape b) = n)
                               && bool_decide (tail (tail (shape b)) = rest)
                               && bool_decide (ndim b = ndim a)) arrs
          then Ok (NDArray
                     (n :: sum_list ((fun b => hd 0%nat (tail (shape b))) <$> arrs) :: rest)
                     (i ← seq 0 n; b ← arrs; block (prod_list (tail (shape b))) i (data b)))
          else Raise "ValueError"%string
      end
  end.

(** [a[perm]] for an index array [perm]. *)
Definition np_take (a : ndarray) (perm : list nat) : result ndarray :=
  match shape a with
  | [] => Raise "IndexError"%string
  | n :: rest =>
      if forallb (fun i => i <? n)%nat perm
      then Ok (NDArray (length perm :: rest) (i ← perm; block (prod_list rest) i (data a)))
      else Raise "IndexError"%string
  end.

Definition enumerate {A : Type} (l : list A) : list (nat * A) := imap (fun i x => (i, x)) l.

(** ** CollateSparse *)

(** The rows of a 2-D array; [split] asserts that its argument is one. *)
Definition rows_of (a : ndarray) : result (array Z) :=
  match shape a with
  | [n; m] => Ok (Array m ((fun i => block m i (data a)) <$> seq 0 n))
  | _ => Raise "AssertionError"%string
  end.

Definition of_rows (a : array Z) : ndarray :=
  NDArray [length (rows a); ncols a] (mjoin (rows a)).

(** [vb.split(voxels)] on a numpy array. *)
Definition split_array (dt : int_dtype) (vb : VolumeBoundaries) (voxels : ndarray)
    : result (ndarray * list nat) :=
  a ← rows_of voxels;
  r ← split dt vb a;
  Ok (of_rows r.1, r.2).

(** Lines 298-301 and 335-339: the coordinate arrays [get(sample)[0]], each
    with a column holding the number of its sample in front, stacked. *)
Definition batched_voxels (get : sample -> result value) (batch : list sample)
    : result ndarray :=
  parts ← mapM (fun bs : nat * sample =>
                  p ← get bs.2;
                  c ← value_getitem p 0;
                  n ← py_len c;
                  col ← np_full_int32 n bs.1;
                  a ← as_array c;
                  concatenate1 [col; a])
               (enumerate batch);
  concatenate0 parts.

(** Lines 302 and 340: the feature arrays [get(sample)[1]], stacked. *)
Definition batched_data (get : sample -> result value) (batch : list sample)
    : result ndarray :=
  fs ← mapM (fun s => p ← get s; value_getitem p 1) batch;
  arrs ← mapM as_array fs;
  concatenate0 arrs.

(** Lines 298-309, for pairs (coordinate tensor, feature tensor); with
    [vbo = None] also the body of lines 334-341. *)
Definition collate_pairs (dt : int_dtype) (vbo : option VolumeBoundaries)
    (get : sample -> result value) (batch : list sample) : result ndarray :=
  voxels ← batched_voxels get batch;
  data ← batched_data get batch;
  vd ← match vbo with
       | Some vb =>
           r ← split_array dt vb voxels;
           voxels' ← np_take r.1 r.2;
           data' ← np_take data r.2;
           Ok (voxels', data')
       | None => Ok (voxels, data)
       end;
  concatenate1 [vd.1; vd.2].

(** Lines 314-319 and 324-329: one sample of a key that holds a plain array. *)
Definition with_batch_id (expand : bool) (key : string) (bs : nat * sample) : result ndarray :=
  v ← dict_get bs.2 key;
  n ← py_len v;
  a ← as_array v;
  a' ← (if expand then expand_dims a else Ok a);
  concatenate1 [np_full_float32 n bs.1; to_float a'].

(** Lines 266-268: [split] of the first [dim + 1] columns of the stacked
    array of the key ['particles_label'], and its rows taken in the order of
    the permutation.  That array is a float array, so [split] computes the
    virtual batch ids and the shifted coordinates in floating point, in
    binary32 or binary64 according to the dtypes of the sample; what comes
    of it is left open. *)
Definition particles_split : Type := VolumeBoundaries -> nat -> ndarray -> result ndarray.

Section Sparse.
Context (split_particles : particles_split).

(** Lines 244-270, the key ['particles_label']. *)
Definition collate_particles_label (vbo : option VolumeBoundaries)
    (key : string) (batch : list sample) : result ndarray :=
  coords ← mapM (fun s => v ← dict_get s key; value_getitem v 0) batch;
  features ← mapM (fun s => v ← dict_get s key; value_getitem v 1) batch;
  c0 ← getitem coords 0;
  sh0 ← shape_of c0;
  _ ← getitem sh0 0;
  minibatch ← mapM (fun bcf : nat * (value * value) =>
                      sh ← shape_of bcf.2.1;
                      n ← getitem sh 0;
                      c ← as_array bcf.2.1;
                      f ← as_array bcf.2.2;
                      concatenate1 [np_full_float32 n bcf.1; to_float c; to_float f])
                   (enumerate (zip coords features));
  d ← getitem sh0 1;
  coords ← concatenate0 minibatch;
  match vbo with
  | Some vb => split_particles vb d coords
  | None => Ok coords
  end.

(** The body of the loop over the keys, lines 242-345. *)
Definition collate_key (dt : int_dtype) (vbo : option VolumeBoundaries)
    (batch : list sample) (key : string) : result value :=
  if String.eqb key "particles_label" then
    VArray <$> collate_particles_label vbo key batch
  else
    b0 ← getitem batch 0;
    v0 ← dict_get b0 key;
    let other := VList <$> mapM (fun s => dict_get s key) batch in
    match v0 with
    | VTuple [] => Raise "IndexError"%string
    | VTuple (VArray a :: _) =>
        if (ndim a =? 2)%nat
        then VArray <$> collate_pairs dt vbo (fun s => dict_get s key) batch
        else other
    | VArray a =>
        if (ndim a =? 1)%nat then
          parts ← mapM (with_batch_id true key) (enumerate batch);
          VArray <$> concatenate0 parts
        else if (ndim a =? 2)%nat then
          parts ← mapM (with_batch_id false key) (enumerate batch);
          VArray <$> concatenate0 parts
        else other
    | VList (VTuple t :: vs) =>
        VList <$> mapM (fun depth =>
                          VArray <$> collate_pairs dt None
                            (fun s => v ← dict_get s key; value_getitem v depth) batch)
                       (seq 0 (length (VTuple t :: vs)))
    | _ => other
    end.

(** [CollateSparse(batch, **kwargs)].  [kwargs] is the caller's boundaries
    configuration when the key ['boundaries'] is present; the first component
    of the result is what that configuration holds after the call.  [dt] is
    the dtype of the voxel arrays handed to [split] on line 305.  The import
    on line 234 is taken to succeed. *)
Definition CollateSparse (dt : int_dtype) (batch : list sample) (kwargs : option config_store)
    : option config_store * result (list (string * value)) :=
  let '(kwargs', rvb) :=
    match kwargs with
    | Some s => let '(s', r) := VolumeBoundaries_init s in (Some s', vb ← r; Ok (Some vb))
    | None => (None, Ok None)
    end in
  (kwargs',
   vbo ← rvb;
   b0 ← getitem batch 0;
   mapM (fun key => v ← collate_key dt vbo batch key; Ok (key, v)) (b0.*1)).
End Sparse.

(** In the examples no key ['particles_label'] comes with boundaries, and
    lines 266-268 are not reached; there this stands for them. *)
Definition not_reached : particles_split :=
  fun _ _ _ => Raise "NotImplementedError"%string.

(** ** CollateDense *)

(** [np.array(vs)] for a list of arrays of one shape: the arrays stacked
    along a new first axis. *)
Definition stack (vs : list value) : option ndarray :=
  match vs with
  | VArray a :: _ =>
      if forallb (fun v => match v with
                           | VArray b => bool_decide (shape b = shape a)
                           | _ => false
                           end) vs
      then Some (NDArray (length vs :: shape a)
                   (v ← vs; match v with VArray b => data b | _ => [] end))
      else None
  | _ => None
  end.

Section Dense.
(** What [np.array] makes of a list that does not consist of arrays of one
    shape (an object array, an array of scalars, [ValueError] on ragged
    input) depends on the items and on the version of numpy; it is left
    open. *)
Context (np_array_other : list value -> result value).

Definition np_array (vs : list value) : result value :=
  match stack vs with
  | Some a => Ok (VArray a)
  | None => np_array_other vs
  end.

(** [CollateDense(batch)], lines 350-363. *)
Definition CollateDense (batch : list sample) : result (list (string * value)) :=
  b0 ← getitem batch 0;
  mapM (fun key =>
          vs ← mapM (fun s => dict_get s key) batch;
          v ← np_array vs;
          Ok (key, v)) (b0.*1).
End Dense.

(** * Vocabulary of the properties *)

(** ** What [__init__] does and builds *)

(** What the sanity check makes of an item of [definitions]. *)
Definition normalise_item (it : item) : item :=
  match it with IStrNone => INone | _ => it end.

(** The cuts an item of [definitions] denotes in the heap [h]. *)
Definition cuts_of (h : gmap loc (list Q)) (it : item) : option (list Q) :=
  match it with IRef l => Some (default [] (h !! l)) | _ => None end.

(** The number of cuts configured for a dimension. *)
Definition n_cuts (h : gmap loc (list Q)) (it : item) : nat :=
  match cuts_of h it with Some b => length b | None => O end.

(** A well-formed [VolumeBoundaries] object: built by lines 66-85 from at
    least one dimension, each with no cut or at least one. *)
Definition vb_wf (vb : VolumeBoundaries) : Prop :=
  build (boundaries vb) = Ok vb /\ Forall (fun b => b <> Some []) (boundaries vb).

(** An entry index whose virtual batch ids fit the int64 array they are
    returned in. *)
Definition entry_ok (vb : VolumeBoundaries) (entry : Z) : Prop :=
  0 <= entry /\ (entry + 1) * Z.of_nat (num_volumes vb) <= 2 ^ 63.

(** A list of cuts that [list.sort()] leaves as it is. *)
Definition ascending (l : list Q) : Prop := Sorted (fun x y => Qle_bool x y = true) l.

(** A boundaries configuration that [__init__] has nothing to do on: no item
    is the string ['None'] and every list of cuts is in ascending order. *)
Definition normalised (s : config_store) : Prop :=
  Forall (fun it => match it with
                    | IStrNone => False
                    | IRef l => forall cuts, cuts_heap s !! l = Some cuts -> ascending cuts
                    | _ => True
                    end) (outer s).

(** ** Shifts *)

(** The loops of [translate] and [untranslate], and the inner loop of
    [split], on one row: coordinate [n] becomes [op] of it and [g n]. *)
Definition shift_row {T : Type} (op : T -> Z -> T) (g : nat -> Z) (ns : list nat)
    (r : list T) : list T :=
  foldl (fun r n => alter (fun x => op x (g n)) n r) r ns.

(** The values of [volume_shift] and [bin_shift] where they return. *)
Definition shift_of (vb : VolumeBoundaries) (volume n : nat) : Z :=
  match volume_shift vb volume n with Ok z => z | Raise _ => 0 end.

Definition bin_shift_of (vb : VolumeBoundaries) (c : list nat) (n : nat) : Z :=
  match bin_shift vb c n with Ok z => z | Raise _ => 0 end.

(** [self.shifts[n][c[n]]] for a row [c] of [self.combo]. *)
Definition stored_shift (vb : VolumeBoundaries) (c : list nat) (n : nat) : Q :=
  default 0%Q (sh ← shifts vb !! n; bin ← c !! n; sh !! bin).

(** Every shift of the table, truncated, fits the dtype [d]: the condition
    under which lines 131, 156 and 203 convert their operand. *)
Definition shifts_fit {T : Type} (d : dtype T) (vb : VolumeBoundaries) : Prop :=
  Forall (Forall (fun s => fits d (int_of_float s) = true)) (shifts vb).

(** The same for the shifts of one volume. *)
Definition volume_fits {T : Type} (d : dtype T) (vb : VolumeBoundaries) (volume : nat) : Prop :=
  forall n, (n < dim vb)%nat -> fits d (shift_of vb volume n) = true.

(** The Python ints that [split] combines with an array of dtype [dt] fit
    it: the number of volumes (line 201) and every shift (line 203). *)
Definition operands_fit (dt : int_dtype) (vb : VolumeBoundaries) : Prop :=
  fits (int_ops dt) (Z.of_nat (num_volumes vb)) = true /\ shifts_fit (int_ops dt) vb.

(** ** split, one row at a time *)

(** Whether [x] passes the mask number [bin] of a dimension with cuts [b]:
    mask [i] is [x < b[i]] and the last one is [x >= b[-1]]. *)
Definition in_bin (b : option (list Q)) (bin : nat) (x : Z) : bool :=
  match b with
  | None => true
  | Some cuts =>
      match cuts !! bin with
      | Some c => lt_cut x c
      | None => ge_cut x (List.last cuts 0%Q)
      end
  end.

(** The number of masks of a dimension. *)
Definition n_bins (b : option (list Q)) : nat :=
  S (match b with Some b => length b | None => O end).

(** [all_boundaries[n][c[n]]] at the row with coordinates [x]. *)
Definition bin_test (vb : VolumeBoundaries) (c : list nat) (n : nat) (x : list Z) : bool :=
  match boundaries vb !! n, c !! n with
  | Some b, Some bin => in_bin b bin (nth n x 0)
  | _, _ => false
  end.

(** The mask of volume [c] at the row with coordinates [x]. *)
Definition row_in_volume (vb : VolumeBoundaries) (c : list nat) (x : list Z) : bool :=
  foldl (fun acc n => acc && bin_test vb c n x) (bin_test vb c 0 x) (seq 1 (dim vb - 1)).

(** One iteration of the loop over the volumes, seen from one row. *)
Definition row_step (dt : int_dtype) (vb : VolumeBoundaries) (row : list Z)
    (idx : nat) (c : list nat) (st : Z * list Z) : Z * list Z :=
  if row_in_volume vb c (drop 1 row) then
    (virtual_batch_id dt idx (nth 0 row 0) (num_volumes vb),
     shift_row (int_sub dt) (bin_shift_of vb c) (seq 0 (dim vb)) st.2)
  else st.

(** The loop over the volumes [cs], numbered from [idx], seen from one row. *)
Fixpoint row_loop (dt : int_dtype) (vb : VolumeBoundaries) (row : list Z)
    (idx : nat) (cs : list (list nat)) (st : Z * list Z) : Z * list Z :=
  match cs with
  | [] => st
  | c :: cs' => row_loop dt vb row (S idx) cs' (row_step dt vb row idx c st)
  end.

(** What [split] makes of one row. *)
Definition split_row (dt : int_dtype) (vb : VolumeBoundaries) (row : list Z) : list Z :=
  let st := row_loop dt vb row 0 (combo vb) (0, drop 1 row) in
  st.1 :: st.2.

(** The masks of all the volumes, as lines 195-198 build them. *)
Definition volume_masks (vb : VolumeBoundaries) (voxels : array Z) : result (list (list bool)) :=
  mapM (fun c => volume_mask (all_boundaries vb (drop 1 <$> rows voxels)) c (dim vb))
    (combo vb).

(** The sum over the volumes of their masks at row [j]. *)
Definition mask_sum (masks : list (list bool)) (j : nat) : nat :=
  sum_list ((fun m : list bool => if nth j m false then 1%nat else 0%nat) <$> masks).

(** A row that only the mask of volume [volume] matches. *)
Definition only_in_volume (vb : VolumeBoundaries) (volume : nat) (row : list Z) : Prop :=
  forall v c, combo vb !! v = Some c ->
    row_in_volume vb c (drop 1 row) = bool_decide (v = volume).

(** A configuration with at most one cut in every dimension. *)
Definition at_most_one_cut (vb : VolumeBoundaries) : Prop :=
  Forall (fun b => match b with Some cuts => length cuts = 1%nat | None => True end)
    (boundaries vb).

(** The bin of [x] in a dimension with at most one cut. *)
Definition bin_of (b : option (list Q)) (x : Z) : nat :=
  match b with
  | Some (c :: _) => if lt_cut x c then 0%nat else 1%nat
  | _ => 0%nat
  end.

(** The bins of the row with coordinates [x], one per dimension. *)
Definition volume_of (vb : VolumeBoundaries) (x : list Z) : list nat :=
  imap (fun n b => bin_of b (nth n x 0)) (boundaries vb).

(** ** Orders on rows *)

(** Order by [key], ties by [R]. *)
Definition key_lex (key : nat -> Z) (R : nat -> nat -> Prop) (i j : nat) : Prop :=
  key i < key j \/ (key i = key j /\ R i j).

(** The order [np.lexsort] establishes: every key refines the order of the
    keys before it, so the last key is compared first. *)
Definition lexsort_rel (keys : list (list Z)) : nat -> nat -> Prop :=
  foldl (fun R key => key_lex (fun i => nth i key 0) R) le keys.

(** Lexicographic order on tuples, the first component being the most
    significant one. *)
Fixpoint lex_le (a b : list Z) : Prop :=
  match a, b with
  | x :: a', y :: b' => x < y \/ (x = y /\ lex_le a' b')
  | _, _ => True
  end.

(** The tuple by which the code orders a row: the virtual batch id, then the
    coordinates from the last one to the first one. *)
Definition sort_key (row : list Z) : list Z := nth 0 row 0 :: reverse (drop 1 row).

(** The tuple of the order where the last coordinate is the most significant
    component and the virtual batch id the least significant one. *)
Definition batch_last_key (row : list Z) : list Z := reverse (drop 1 row) ++ [nth 0 row 0].

(** ** CollateSparse *)

(** What [CollateSparse] holds in [vb] after lines 236-237. *)
Definition volume_boundaries_of (kwargs : option config_store) : result (option VolumeBoundaries) :=
  match kwargs with
  | Some s => vb ← (VolumeBoundaries_init s).2; Ok (Some vb)
  | None => Ok None
  end.

(** A key whose array has rank 1 in one event and rank 2 in the other. *)
Definition rank_mismatch (a b : ndarray) : Prop :=
  (ndim a = 1%nat /\ ndim b = 2%nat) \/ (ndim a = 2%nat /\ ndim b = 1%nat).

(** ** The items of [definitions] that [__init__] accepts *)

(** An item of [definitions] that the sanity check accepts in the heap [h]. *)
Definition valid_item (h : gmap loc (list Q)) (it : item) : Prop :=
  match it with
  | IStrNone | INone => True
  | IRef l => exists c cs, h !! l = Some (c :: cs)
  | IOther => False
  end.

Definition valid_itemb (h : gmap loc (list Q)) (it : item) : bool :=
  match it with
  | IStrNone | INone => true
  | IRef l => match h !! l with Some (_ :: _) => true | _ => false end
  | IOther => false
  end.

(** ** Volumes that cover a row *)

(** A bin of a dimension whose mask matches [x]: the last one if [x] is at
    or above the last cut, the one before it if not. *)
Definition covering_bin (b : option (list Q)) (x : Z) : nat :=
  match b with
  | None => 0%nat
  | Some cuts => if ge_cut x (List.last cuts 0%Q) then length cuts else pred (length cuts)
  end.

(** One such bin per dimension, for the row with coordinates [x]. *)
Definition covering_volume (vb : VolumeBoundaries) (x : list Z) : list nat :=
  imap (fun n b => covering_bin b (nth n x 0)) (boundaries vb).

(** ** Arrays seen as lists of rows *)

(** An array with as many entries as its shape says. *)
Definition ndarray_wf (a : ndarray) : Prop := length (data a) = prod_list (shape a).

(** The rows of a 2-D array, and of a 1-D array once [np.expand_dims] has
    made it a column. *)
Definition rows_2d (a : ndarray) : list (list Z) :=
  match rows_of a with Ok r => rows r | Raise _ => [] end.

Definition rows_1d (a : ndarray) : list (list Z) := (fun x => [x]) <$> data a.

(** The rows of the arrays [parts] stacked, each with the position of its
    array in [parts] in front. *)
Definition tagged_rows (parts : list (list (list Z))) : list (list Z) :=
  mjoin (imap (fun i rs => cons (Z.of_nat i) <$> rs) parts).

(** The entries of a row of integers, converted to binary64. *)
Definition float_entries (row : list Z) : list Z := to_binary64 <$> row.

(** A row of integers behind the float32 column: the position [i] of its
    sample, rounded to binary32, and its entries converted to binary64. *)
Definition float_row (i : nat) (row : list Z) : list Z :=
  to_binary32 (Z.of_nat i) :: float_entries row.

(** The rows of the integer arrays [parts] stacked, as rows of floats with
    the position of their array in [parts] in front. *)
Definition float_tagged_rows (parts : list (list (list Z))) : list (list Z) :=
  mjoin (imap (fun i rs => float_row i <$> rs) parts).

(** A sample that holds under [key] a pair of an array of [d] coordinate
    columns and an array of [k] feature columns, with as many rows. *)
Definition holds_pair (key : string) (d k : nat) (s : sample) (cf : ndarray * ndarray) : Prop :=
  (exists rest, dict_get s key = Ok (VTuple (VArray cf.1 :: VArray cf.2 :: rest)))
  /\ ndarray_wf cf.1 /\ ndarray_wf cf.2
  /\ exists n, shape cf.1 = [n; d] /\ shape cf.2 = [n; k].

(** The coordinate rows of a batch of pairs, each with the position of its
    sample in front, and the feature rows. *)
Definition voxel_rows (cfs : list (ndarray * ndarray)) : list (list Z) :=
  tagged_rows (rows_2d <$> cfs.*1).

Definition feature_rows (cfs : list (ndarray * ndarray)) : list (list Z) :=
  mjoin (rows_2d <$> cfs.*2).

(** The rows of a pair: the coordinates of a voxel, then its features. *)
Definition pair_rows (cf : ndarray * ndarray) : list (list Z) :=
  zip_with app (rows_2d cf.1) (rows_2d cf.2).

(** ** The configurations and arrays of the examples *)

(** [[10.0], None] and what [__init__] builds from it. *)
Definition store_10 : config_store :=
  ConfigStore [IRef 0%nat; INone] (<[0%nat := [10 # 1]]> ∅).

Definition vb_10 : VolumeBoundaries :=
  MkVolumeBoundaries 2 [Some [10 # 1]; None]
    [[0%nat; 0%nat]; [1%nat; 0%nat]] [[0%Q; 10 # 1]; [0%Q]].

(** [[10.0, 20.0]] *)
Definition store_10_20 : config_store :=
  ConfigStore [IRef 0%nat] (<[0%nat := [10 # 1; 20 # 1]]> ∅).

Definition vb_10_20 : VolumeBoundaries :=
  MkVolumeBoundaries 1 [Some [10 # 1; 20 # 1]]
    [[0%nat]; [1%nat]; [2%nat]] [[0%Q; 10 # 1; 20 # 1]].

(** [[20.0, 10.0]] *)
Definition store_20_10 : config_store :=
  ConfigStore [IRef 0%nat] (<[0%nat := [20 # 1; 10 # 1]]> ∅).

(** The configuration of the docstring, [[1376.3], None, None]. *)
Definition store_1376 : config_store :=
  ConfigStore [IRef 0%nat; INone; INone] (<[0%nat := [13763 # 10]]> ∅).

Definition vb_1376 : VolumeBoundaries :=
  MkVolumeBoundaries 3 [Some [13763 # 10]; None; None]
    [[0%nat; 0%nat; 0%nat]; [1%nat; 0%nat; 0%nat]] [[0%Q; 13763 # 10]; [0%Q]; [0%Q]].

(** [[9007199254740996.0]], one cut at 2^53 + 4. *)
Definition store_2p53 : config_store :=
  ConfigStore [IRef 0%nat] (<[0%nat := [9007199254740996 # 1]]> ∅).

Definition vb_2p53 : VolumeBoundaries :=
  MkVolumeBoundaries 1 [Some [9007199254740996 # 1]] [[0%nat]; [1%nat]]
    [[0%Q; 9007199254740996 # 1]].

(** [None] *)
Definition store_none_1d : config_store := ConfigStore [INone] ∅.

Definition vb_none_1d : VolumeBoundaries :=
  MkVolumeBoundaries 1 [None] [[0%nat]] [[0%Q]].

(** The float64 array [[0.1, 0.0]]. *)
Definition point_tenth : array float :=
  Array 2 [[0x1.999999999999ap-4%float; 0%float]].

(** A 1-D array and a 2-D array. *)
Definition array_1d : ndarray := NDArray [2%nat] [7; 8].
Definition array_2d : ndarray := NDArray [1%nat; 2%nat] [1; 2].

(** * Properties *)

(** ** The error monad *)

Lemma bind_Ok {A B : Type} (m : result A) (f : A -> result B) (b : B) :
  (m ≫= f) = Ok b -> exists a, m = Ok a /\ f a = Ok b.
Proof. destruct m as [a|e]; simpl; [eauto | discriminate]. Qed.

Lemma py_assert_Ok (b : bool) (u : unit) : py_assert b = Ok u -> b = true.
Proof. destruct b; [reflexivity | discriminate]. Qed.

Lemma getitem_Ok {A : Type} (l : list A) (i : nat) (a : A) :
  getitem l i = Ok a <-> l !! i = Some a.
Proof. unfold getitem. destruct (l !! i); split; congruence. Qed.

Lemma mapM_Ok_Forall2 {A B : Type} (f : A -> result B) (l : list A) (bs : list B) :
  mapM f l = Ok bs <-> Forall2 (fun a b => f a = Ok b) l bs.
Proof.
  revert bs. induction l as [|a l IH]; intros bs; simpl.
  - split; [intros [= <-]; constructor | intros H; inversion H; reflexivity].
  - split.
    + intros H. apply bind_Ok in H as (b & Hb & H).
      apply bind_Ok in H as (bs' & Hbs & [= <-]).
      constructor; [assumption | apply IH; assumption].
    + intros H. inversion H as [|? b ? bs' Hb Hbs]; subst.
      rewrite Hb. simpl. apply IH in Hbs. rewrite Hbs. reflexivity.
Qed.

(** ** Wrap-around *)

Lemma wrap_in_range (w z : Z) : 0 < w -> in_range w z -> wrap w z = z.
Proof.
  intros Hw [Hlo Hhi]. unfold wrap.
  assert (H2 : 2 ^ w = 2 * 2 ^ (w - 1)).
  { replace w with (Z.succ (w - 1)) at 1 by lia. apply Z.pow_succ_r. lia. }
  rewrite Z.mod_small; lia.
Qed.

Lemma wrap_range (w z : Z) : 0 < w -> in_range w (wrap w z).
Proof.
  intros Hw. unfold wrap, in_range.
  assert (H2 : 2 ^ w = 2 * 2 ^ (w - 1)).
  { replace w with (Z.succ (w - 1)) at 1 by lia. apply Z.pow_succ_r. lia. }
  assert (Hp : 0 < 2 ^ (w - 1)) by (apply Z.pow_pos_nonneg; lia).
  pose proof (Z.mod_pos_bound (z + 2 ^ (w - 1)) (2 ^ w) ltac:(lia)). lia.
Qed.

Lemma wrap_congr (w a b : Z) : 0 < w -> (a - b) mod 2 ^ w = 0 -> wrap w a = wrap w b.
Proof.
  intros Hw H. unfold wrap. f_equal.
  assert (Hp : 0 < 2 ^ w) by (apply Z.pow_pos_nonneg; lia).
  apply Z.mod_divide in H; [|lia]. destruct H as [k Hk].
  replace (a + 2 ^ (w - 1)) with (b + 2 ^ (w - 1) + k * 2 ^ w) by lia.
  apply Z.mod_add. lia.
Qed.

Lemma wrap_sub_wrap (w a : Z) : 0 < w -> (wrap w a - a) mod 2 ^ w = 0.
Proof.
  intros Hw. unfold wrap.
  assert (Hp : 0 < 2 ^ w) by (apply Z.pow_pos_nonneg; lia).
  rewrite (Z.mod_eq (a + 2 ^ (w - 1)) (2 ^ w)) by lia.
  replace (a + 2 ^ (w - 1) - 2 ^ w * ((a + 2 ^ (w - 1)) / 2 ^ w) - 2 ^ (w - 1) - a)
    with ((- ((a + 2 ^ (w - 1)) / 2 ^ w)) * 2 ^ w) by lia.
  apply Z.mod_mul. lia.
Qed.

Lemma bits_pos (dt : int_dtype) : 0 < bits dt.
Proof. destruct dt; simpl; lia. Qed.

(** [+=] and [-=] with the same Python int cancel on an integer array. *)
Lemma int_add_sub (dt : int_dtype) (x s : Z) :
  in_range (bits dt) x -> int_add dt (int_sub dt x s) s = x.
Proof.
  intros Hx. unfold int_add, int_sub. pose proof (bits_pos dt) as Hw.
  rewrite <- (wrap_in_range (bits dt) x Hw Hx) at 2.
  apply wrap_congr; [assumption|].
  replace (wrap (bits dt) (x - s) + s - x) with (wrap (bits dt) (x - s) - (x - s)) by lia.
  apply wrap_sub_wrap. assumption.
Qed.

Lemma int_sub_add (dt : int_dtype) (x s : Z) :
  in_range (bits dt) x -> int_sub dt (int_add dt x s) s = x.
Proof.
  intros Hx. unfold int_add, int_sub. pose proof (bits_pos dt) as Hw.
  rewrite <- (wrap_in_range (bits dt) x Hw Hx) at 2.
  apply wrap_congr; [assumption|].
  replace (wrap (bits dt) (x + s) - s - x) with (wrap (bits dt) (x + s) - (x + s)) by lia.
  apply wrap_sub_wrap. assumption.
Qed.

(** ** The enumeration of the volumes *)

Lemma prod_list_app (l k : list nat) : prod_list (l ++ k) = (prod_list l * prod_list k)%nat.
Proof. induction l as [|a l IH]; simpl; [lia | rewrite IH; lia]. Qed.

Lemma prod_list_reverse (l : list nat) : prod_list (reverse l) = prod_list l.
Proof.
  induction l as [|a l IH]; [reflexivity|].
  rewrite reverse_cons, prod_list_app, IH. simpl. lia.
Qed.

Lemma prod_list_swap01 (l : list nat) : prod_list (swap01 l) = prod_list l.
Proof. destruct l as [|a [|b l]]; simpl; lia. Qed.

Lemma swap01_involutive {A : Type} (l : list A) : swap01 (swap01 l) = l.
Proof. destruct l as [|a [|b l]]; reflexivity. Qed.

Lemma Forall2_swap01 {A B : Type} (P : A -> B -> Prop) (l : list A) (k : list B) :
  Forall2 P l k -> Forall2 P (swap01 l) (swap01 k).
Proof.
  intros H. destruct H as [|a b l k Hab H]; [constructor|].
  destruct H as [|a' b' l k Hab' H]; simpl; repeat constructor; assumption.
Qed.

Lemma length_bind_const {A B : Type} (f : A -> list B) (l : list A) (k : nat) :
  (forall a, length (f a) = k) -> length (l ≫= f) = (length l * k)%nat.
Proof.
  intros Hf. induction l as [|a l IH]; [reflexivity|].
  rewrite bind_cons, length_app, IH, Hf. simpl. lia.
Qed.

Lemma length_ndindex (ns : list nat) : length (ndindex ns) = prod_list ns.
Proof.
  induction ns as [|n ns IH]; [reflexivity|]. simpl.
  rewrite (length_bind_const _ _ (prod_list ns)).
  - rewrite length_seq. reflexivity.
  - intros i. rewrite length_fmap. exact IH.
Qed.

Lemma ndindex_bounded (ns m : list nat) : m ∈ ndindex ns -> Forall2 lt m ns.
Proof.
  revert m. induction ns as [|n ns IH]; intros m Hm; simpl in Hm.
  - apply list_elem_of_singleton in Hm. subst. constructor.
  - apply list_elem_of_bind in Hm as (i & Hm & Hi).
    apply list_elem_of_fmap in Hm as (m' & -> & Hm').
    apply elem_of_seq in Hi. constructor; [lia | apply IH; assumption].
Qed.

Lemma length_meshgrid_combo (ns : list nat) : length (meshgrid_combo ns) = prod_list ns.
Proof.
  unfold meshgrid_combo.
  rewrite length_fmap, length_ndindex, prod_list_reverse, prod_list_swap01. reflexivity.
Qed.

(** Every row of [combo] holds one bin index per dimension, within the number
    of bins of that dimension. *)
Lemma meshgrid_combo_bounded (ns c : list nat) : c ∈ meshgrid_combo ns -> Forall2 lt c ns.
Proof.
  unfold meshgrid_combo. intros Hc.
  apply list_elem_of_fmap in Hc as (m & -> & Hm).
  apply ndindex_bounded in Hm.
  rewrite <- (swap01_involutive ns).
  apply Forall2_swap01.
  rewrite <- (reverse_involutive (swap01 ns)).
  apply Forall2_reverse. assumption.
Qed.

(** ** What [__init__] does to the caller's lists and what it builds *)

Lemma insert_sorted_length (x : Q) (l : list Q) : length (insert_sorted x l) = S (length l).
Proof.
  induction l as [|y l IH]; simpl; [reflexivity|].
  destruct (Qle_bool x y); simpl; [reflexivity | rewrite IH; reflexivity].
Qed.

Lemma length_list_sort (l : list Q) : length (list_sort l) = length l.
Proof.
  induction l as [|x l IH]; simpl; [reflexivity|].
  rewrite insert_sorted_length, IH. reflexivity.
Qed.

Lemma sanity_check_Ok (n i : nat) (s s' : config_store) :
  sanity_check n i s = (s', Ok tt) ->
  (i + n)%nat = length (outer s) ->
  outer s' = take i (outer s) ++ (normalise_item <$> drop i (outer s))
  /\ (forall l, length <$> (cuts_heap s' !! l) = length <$> (cuts_heap s !! l))
  /\ Forall (fun it => match it with
                       | IRef l => exists c cs, cuts_heap s' !! l = Some (c :: cs)
                       | IOther => False
                       | _ => True
                       end) (drop i (outer s)).
Proof.
  revert i s. induction n as [|n IH]; intros i s Hrun Hlen; simpl in Hrun.
  - injection Hrun as <-.
    rewrite drop_ge by lia. rewrite take_ge by lia.
    rewrite app_nil_r. repeat split; constructor.
  - destruct (outer s !! i) as [it|] eqn:Hit; [|discriminate].
    rewrite (drop_S _ _ _ Hit). rewrite fmap_cons.
    destruct it as [| |l|]; [| | |discriminate].
    + apply IH in Hrun; [|simpl; rewrite length_insert; lia].
      simpl in Hrun. destruct Hrun as (Ho & Hh & Hok).
      rewrite drop_insert_lt in Ho, Hok by lia.
      assert (Hi : (i < length (outer s))%nat) by lia.
      rewrite (take_S_r _ i INone) in Ho by (apply list_lookup_insert_eq; exact Hi).
      rewrite take_insert_ge in Ho by lia.
      rewrite <- app_assoc in Ho. repeat split; [exact Ho | exact Hh |].
      constructor; [exact I | exact Hok].
    + apply IH in Hrun; [|lia]. destruct Hrun as (Ho & Hh & Hok).
      rewrite (take_S_r _ _ _ Hit), <- app_assoc in Ho.
      repeat split; [exact Ho | exact Hh |]. constructor; [exact I | exact Hok].
    + destruct (cuts_heap s !! l) as [[|c cs]|] eqn:Hl; [discriminate| |discriminate].
      apply IH in Hrun; [|simpl; lia]. simpl in Hrun. destruct Hrun as (Ho & Hh & Hok).
      rewrite (take_S_r _ _ _ Hit), <- app_assoc in Ho.
      assert (Hh' : forall l', length <$> cuts_heap s' !! l' = length <$> cuts_heap s !! l').
      { intros l'. rewrite Hh. destruct (decide (l = l')) as [<-|Hne].
        - rewrite lookup_insert_eq, Hl. simpl. f_equal. apply (length_list_sort (c :: cs)).
        - rewrite lookup_insert_ne by exact Hne. reflexivity. }
      repeat split; [exact Ho | exact Hh' |]. constructor; [|exact Hok].
      specialize (Hh' l). rewrite Hl in Hh'.
      destruct (cuts_heap s' !! l) as [[|c' cs']|]; simpl in Hh'; try discriminate. eauto.
Qed.

Lemma init_Ok (s s' : config_store) (vb : VolumeBoundaries) :
  VolumeBoundaries_init s = (s', Ok vb) ->
  vb_wf vb
  /\ boundaries vb = cuts_of (cuts_heap s') <$> outer s
  /\ outer s' = normalise_item <$> outer s
  /\ (forall l, length <$> (cuts_heap s' !! l) = length <$> (cuts_heap s !! l)).
Proof.
  unfold VolumeBoundaries_init.
  destruct (sanity_check (length (outer s)) 0 s) as [s1 r] eqn:Hrun.
  intros [= -> Hvb]. destruct r as [[]|e]; [|discriminate]. simpl in Hvb.
  apply sanity_check_Ok in Hrun as (Ho & Hh & Hok); [|reflexivity].
  rewrite take_0, drop_0 in *. simpl in Ho.
  apply bind_Ok in Hvb as (bs & Hbs & Hvb).
  assert (Hview : bs = cuts_of (cuts_heap s') <$> outer s
                  /\ Forall (fun b => b <> Some []) bs).
  { apply mapM_Ok_Forall2 in Hbs. rewrite Ho in Hbs. clear Ho Hvb Hh.
    revert bs Hbs. induction Hok as [|it l Hit Hok IH]; intros bs Hbs.
    - inversion Hbs. split; [reflexivity | constructor].
    - rewrite fmap_cons in Hbs. inversion Hbs as [|? b ? bs' Hb Hbs']; subst.
      destruct (IH _ Hbs') as [-> HF]. rewrite fmap_cons.
      destruct it as [| |l'|]; simpl in Hb; try (injection Hb as <-);
        try (split; [reflexivity | constructor; [discriminate | exact HF]]);
        try contradiction.
      destruct Hit as (c & cs & Hl). rewrite Hl in Hb. injection Hb as <-.
      simpl. rewrite Hl. simpl. split; [reflexivity|]. constructor; [discriminate | exact HF]. }
  destruct Hview as [-> HF].
  assert (boundaries vb = cuts_of (cuts_heap s') <$> outer s) as Hb.
  { unfold build in Hvb. destruct (cuts_of (cuts_heap s') <$> outer s); [discriminate|].
    injection Hvb as <-. reflexivity. }
  unfold vb_wf. rewrite Hb. repeat split; assumption.
Qed.

(** The configurations of the examples. *)
Lemma init_store_10 : VolumeBoundaries_init store_10 = (store_10, Ok vb_10).
Proof. vm_compute. reflexivity. Qed.

Lemma init_store_1376 : VolumeBoundaries_init store_1376 = (store_1376, Ok vb_1376).
Proof. vm_compute. reflexivity. Qed.

Lemma init_store_none_1d : VolumeBoundaries_init store_none_1d = (store_none_1d, Ok vb_none_1d).
Proof. vm_compute. reflexivity. Qed.

Lemma vb_10_wf : vb_wf vb_10.
Proof. exact (proj1 (init_Ok _ _ _ init_store_10)). Qed.

Lemma vb_wf_fields (vb : VolumeBoundaries) :
  vb_wf vb ->
  boundaries vb <> []
  /\ dim vb = length (boundaries vb)
  /\ combo vb = meshgrid_combo ((fun n => S n) <$> n_boundaries (boundaries vb))
  /\ shifts vb = make_shifts (boundaries vb).
Proof.
  intros [Hb _]. destruct vb as [d bs c sh]. simpl in *.
  destruct bs as [|b bs]; [discriminate|].
  unfold build in Hb. injection Hb as <- <- <-.
  repeat split. discriminate.
Qed.

Lemma num_volumes_prod (s s' : config_store) (vb : VolumeBoundaries) :
  VolumeBoundaries_init s = (s', Ok vb) ->
  num_volumes vb = prod_list ((fun it => S (n_cuts (cuts_heap s) it)) <$> outer s).
Proof.
  intros Hinit. apply init_Ok in Hinit as (Hwf & Hb & _ & Hlen).
  apply vb_wf_fields in Hwf as (_ & _ & Hc & _).
  unfold num_volumes. rewrite Hc, length_meshgrid_combo, Hb. f_equal.
  unfold n_boundaries. rewrite <- !list_fmap_compose.
  apply list_fmap_ext. intros _ it _. simpl. f_equal.
  unfold n_cuts. destruct it as [| |l|]; simpl; try reflexivity.
  specialize (Hlen l).
  destruct (cuts_heap s' !! l), (cuts_heap s !! l); simpl in *; congruence.
Qed.

Lemma int_fits_in_range (dt : int_dtype) (s : Z) :
  int_fits dt s = true <-> in_range (bits dt) s.
Proof. unfold int_fits, in_range. rewrite andb_true_iff, Z.leb_le, Z.ltb_lt. reflexivity. Qed.

Lemma virtual_batch_ids_exact (vb : VolumeBoundaries) (e : Z) :
  entry_ok vb e ->
  virtual_batch_ids vb e
  = Ok ((fun i : nat => e * Z.of_nat (num_volumes vb) + Z.of_nat i) <$> seq 0 (num_volumes vb)).
Proof.
  intros [He Hfit]. unfold virtual_batch_ids. fold (num_volumes vb).
  rewrite (proj2 (int_fits_in_range int64 _)).
  2:{ unfold in_range. change (2 ^ (bits int64 - 1)) with (2 ^ 63). nia. }
  f_equal. apply list_fmap_ext. intros k i Hi.
  apply lookup_seq in Hi as [-> Hk]. simpl.
  rewrite wrap_in_range; [lia | lia |]. unfold in_range.
  change (2 ^ (64 - 1)) with (2 ^ 63). nia.
Qed.

(** C5: [num_volumes()] is the product over the dimensions of the number of
    cuts plus one, hence 1 when no dimension has boundaries, and
    [virtual_batch_ids(e)] is the run of [num_volumes()] consecutive integers
    from [e * num_volumes()], runs of distinct entries being disjoint. *)
Theorem num_volumes_and_virtual_batch_ids (s s' : config_store) (vb : VolumeBoundaries) :
  VolumeBoundaries_init s = (s', Ok vb) ->
  num_volumes vb = prod_list ((fun it => S (n_cuts (cuts_heap s) it)) <$> outer s)
  /\ (Forall (fun it => it = INone \/ it = IStrNone) (outer s) -> num_volumes vb = 1%nat)
  /\ (forall e, entry_ok vb e ->
        exists ids, virtual_batch_ids vb e = Ok ids
          /\ length ids = num_volumes vb
          /\ forall i : nat, (i < num_volumes vb)%nat ->
               ids !! i = Some (e * Z.of_nat (num_volumes vb) + Z.of_nat i))
  /\ (forall e1 e2 ids1 ids2 x, entry_ok vb e1 -> entry_ok vb e2 -> e1 <> e2 ->
        virtual_batch_ids vb e1 = Ok ids1 -> virtual_batch_ids vb e2 = Ok ids2 ->
        x ∈ ids1 -> x ∉ ids2).
Proof.
  intros Hinit. pose proof (num_volumes_prod _ _ _ Hinit) as Hnv.
  split; [exact Hnv|]. split; [|split].
  - intros Hnone. rewrite Hnv. clear Hnv Hinit.
    induction Hnone as [|it l Hit _ IH]; [reflexivity|].
    rewrite fmap_cons. simpl. rewrite IH.
    destruct Hit as [-> | ->]; reflexivity.
  - intros e He. rewrite (virtual_batch_ids_exact _ _ He).
    eexists. split; [reflexivity|].
    split; [rewrite length_fmap, length_seq; reflexivity|].
    intros i Hi. rewrite list_lookup_fmap, lookup_seq_lt by exact Hi. reflexivity.
  - intros e1 e2 ids1 ids2 x He1 He2 Hne Hids1 Hids2 H1 H2.
    rewrite (virtual_batch_ids_exact _ _ He1) in Hids1. injection Hids1 as <-.
    rewrite (virtual_batch_ids_exact _ _ He2) in Hids2. injection Hids2 as <-.
    apply list_elem_of_fmap in H1 as (i & -> & Hi).
    apply list_elem_of_fmap in H2 as (j & Hij & Hj).
    apply elem_of_seq in Hi. apply elem_of_seq in Hj. nia.
Qed.

Lemma num_volumes_and_virtual_batch_ids_witness :
  num_volumes vb_10 = 2%nat
  /\ exists ids, virtual_batch_ids vb_10 1 = Ok ids /\ ids !! 1%nat = Some 3.
Proof.
  pose proof (num_volumes_and_virtual_batch_ids store_10 store_10 vb_10 init_store_10)
    as (Hnv & _ & Hids & _).
  split; [exact Hnv|].
  assert (He : entry_ok vb_10 1) by (split; vm_compute; discriminate).
  destruct (Hids 1 He) as (ids & Hok & _ & Hi).
  exists ids. split; [exact Hok|].
  exact (Hi 1%nat ltac:(vm_compute; lia)).
Defined.

(** ** The shift of a volume along a dimension *)

Lemma length_dim_shifts (b : list Q) : length (dim_shifts b) = S (length b).
Proof. unfold dim_shifts. rewrite length_app, length_fmap, length_seq. simpl. lia. Qed.

(** Each row of [combo] indexes an existing entry of the shift table. *)
Lemma combo_row_in_range (vb : VolumeBoundaries) (volume n : nat) (c : list nat) :
  vb_wf vb -> combo vb !! volume = Some c -> (n < dim vb)%nat ->
  exists bin sh s, c !! n = Some bin /\ shifts vb !! n = Some sh /\ sh !! bin = Some s
    /\ exists b, boundaries vb !! n = Some b
         /\ (bin < S (match b with Some b => length b | None => O end))%nat.
Proof.
  intros Hwf Hc Hn. apply vb_wf_fields in Hwf as (_ & Hd & Hcombo & Hsh).
  rewrite Hcombo in Hc. apply list_elem_of_lookup_2 in Hc.
  apply meshgrid_combo_bounded in Hc.
  rewrite Hd in Hn. apply lookup_lt_is_Some_2 in Hn as [b Hb].
  assert (Hnb : ((fun n => S n) <$> n_boundaries (boundaries vb)) !! n
                = Some (S (match b with Some b => length b | None => O end))).
  { unfold n_boundaries. rewrite !list_lookup_fmap, Hb. reflexivity. }
  destruct (Forall2_lookup_r _ _ _ _ _ Hc Hnb) as (bin & Hbin & Hlt).
  assert (Hshn : shifts vb !! n
                 = Some (match b with None => [0%Q] | Some b => dim_shifts b end)).
  { rewrite Hsh. unfold make_shifts. rewrite list_lookup_fmap, Hb. reflexivity. }
  assert (Hs : is_Some ((match b with None => [0%Q] | Some b => dim_shifts b end) !! bin)).
  { apply lookup_lt_is_Some_2. destruct b as [b|]; [rewrite length_dim_shifts|]; simpl; lia. }
  destruct Hs as [s Hs]. eauto 10.
Qed.

Lemma volume_shift_Ok (vb : VolumeBoundaries) (volume n : nat) :
  vb_wf vb -> (volume < num_volumes vb)%nat -> (n < dim vb)%nat ->
  volume_shift vb volume n = Ok (shift_of vb volume n).
Proof.
  intros Hwf Hv Hn. unfold shift_of.
  apply lookup_lt_is_Some_2 in Hv as [c Hc].
  destruct (combo_row_in_range vb volume n c Hwf Hc Hn) as (bin & sh & s & Hbin & Hsh & Hs & _).
  unfold volume_shift, bin_shift, getitem. rewrite Hc. simpl. rewrite Hsh. simpl.
  rewrite Hbin. simpl. rewrite Hs. reflexivity.
Qed.

(** ** The shift loops act row by row *)

Lemma operand_Ok {T : Type} (d : dtype T) (s : Z) : fits d s = true -> operand d s = Ok s.
Proof. intros H. unfold operand. rewrite H. reflexivity. Qed.

(** The shifts of a volume fit when all the shifts of the table do. *)
Lemma shifts_fit_volume {T : Type} (d : dtype T) (vb : VolumeBoundaries) (volume : nat) :
  vb_wf vb -> shifts_fit d vb -> (volume < num_volumes vb)%nat -> volume_fits d vb volume.
Proof.
  intros Hwf Hfit Hv n Hn. unfold shift_of.
  apply lookup_lt_is_Some_2 in Hv as [c Hc].
  destruct (combo_row_in_range vb volume n c Hwf Hc Hn) as (bin & sh & s & Hbin & Hsh & Hs & _).
  unfold volume_shift, bin_shift, getitem. rewrite Hc. simpl. rewrite Hsh. simpl.
  rewrite Hbin. simpl. rewrite Hs. simpl.
  pose proof (proj1 (Forall_lookup _ _) Hfit n sh Hsh) as Hrow.
  exact (proj1 (Forall_lookup _ _) Hrow bin s Hs).
Qed.

Section ShiftLoop.
Context {T : Type} (d : dtype T).

Lemma shift_loop_rows (op : T -> Z -> T) (vb : VolumeBoundaries) (volume : nat)
    (g : nat -> Z) (ns : list nat) (rs : list (list T)) :
  (forall n, n ∈ ns -> volume_shift vb volume n = Ok (g n) /\ fits d (g n) = true) ->
  shift_loop d op vb volume ns rs = Ok (shift_row op g ns <$> rs).
Proof.
  revert rs. induction ns as [|n ns IH]; intros rs Hg; simpl.
  - rewrite list_fmap_id. reflexivity.
  - destruct (Hg n ltac:(left)) as [-> Hfit]. simpl. rewrite (operand_Ok d _ Hfit). simpl.
    rewrite IH by (intros; apply Hg; right; assumption).
    unfold column_update. rewrite <- list_fmap_compose. reflexivity.
Qed.

Lemma length_shift_row (op : T -> Z -> T) (g : nat -> Z) (ns : list nat) (r : list T) :
  length (shift_row op g ns r) = length r.
Proof.
  unfold shift_row. revert r. induction ns as [|n ns IH]; intros r; simpl; [reflexivity|].
  rewrite IH, length_alter. reflexivity.
Qed.

Lemma lookup_shift_row (op : T -> Z -> T) (g : nat -> Z) (ns : list nat) (r : list T) (k : nat) :
  NoDup ns ->
  shift_row op g ns r !! k
  = if decide (k ∈ ns) then (fun x => op x (g k)) <$> r !! k else r !! k.
Proof.
  unfold shift_row. revert r. induction ns as [|n ns IH]; intros r Hnd; simpl.
  - destruct (decide (k ∈ [])) as [H|_]; [inversion H | reflexivity].
  - apply NoDup_cons in Hnd as [Hn Hnd]. rewrite IH by exact Hnd.
    destruct (decide (k = n)) as [->|Hne].
    + destruct (decide (n ∈ ns)); [contradiction|].
      destruct (decide (n ∈ n :: ns)) as [_|H]; [|exfalso; apply H; left].
      apply list_lookup_alter_eq.
    + rewrite list_lookup_alter_ne by congruence.
      destruct (decide (k ∈ ns)) as [Hk|Hk];
        destruct (decide (k ∈ n :: ns)) as [Hk'|Hk']; try reflexivity.
      * exfalso. apply Hk'. right. exact Hk.
      * exfalso. apply elem_of_cons in Hk' as [?|?]; contradiction.
Qed.

(** Two loops over all the columns of a row, the second undoing the first on
    the entries that satisfy [P]. *)
Lemma shift_row_cancel (op1 op2 : T -> Z -> T) (P : T -> Prop) (g : nat -> Z)
    (m : nat) (r : list T) :
  (forall x s, P x -> op2 (op1 x s) s = x) ->
  Forall P r ->
  shift_row op2 g (seq 0 m) (shift_row op1 g (seq 0 m) r) = r.
Proof.
  intros Hcancel Hr. apply list_eq. intros k.
  rewrite !lookup_shift_row by apply NoDup_seq.
  destruct (decide (k ∈ seq 0 m)); [|reflexivity].
  destruct (r !! k) as [x|] eqn:Hx; [|reflexivity]. simpl.
  rewrite Hcancel; [reflexivity|].
  exact (proj1 (Forall_lookup _ _) Hr k x Hx).
Qed.
End ShiftLoop.

(** ** translate and untranslate undo each other *)

Section RoundTrip.
Context {T : Type} (d : dtype T) (P : T -> Prop).
Context (vb : VolumeBoundaries) (voxels : array T) (volume : Z).
Hypothesis vb_ok : vb_wf vb.
Hypothesis volume_ok : 0 <= volume < Z.of_nat (num_volumes vb).
Hypothesis fit_ok : volume_fits d vb (Z.to_nat volume).
Hypothesis shape_ok : ncols voxels = dim vb.
Hypothesis entries_ok : Forall (Forall P) (rows voxels).

Lemma shift_loop_all (op : T -> Z -> T) (rs : list (list T)) :
  shift_loop d op vb (Z.to_nat volume) (seq 0 (dim vb)) rs
  = Ok (shift_row op (shift_of vb (Z.to_nat volume)) (seq 0 (dim vb)) <$> rs).
Proof using vb_ok volume_ok fit_ok.
  clear shape_ok entries_ok. apply shift_loop_rows. intros n Hn. apply elem_of_seq in Hn.
  split; [apply volume_shift_Ok; [exact vb_ok | lia | lia] | apply fit_ok; lia].
Qed.

Lemma asserts_pass :
  py_assert ((0 <=? volume) && (volume <? Z.of_nat (num_volumes vb))) = Ok tt
  /\ py_assert (ncols voxels =? dim vb)%nat = Ok tt.
Proof using volume_ok shape_ok.
  split.
  - replace (0 <=? volume) with true by (symmetry; apply Z.leb_le; lia).
    replace (volume <? Z.of_nat (num_volumes vb)) with true
      by (symmetry; apply Z.ltb_lt; lia).
    reflexivity.
  - rewrite shape_ok, Nat.eqb_refl. reflexivity.
Qed.

Lemma untranslate_translate_gen :
  (forall x s, P x -> iadd d (isub d x s) s = x) ->
  exists y, untranslate d vb voxels volume = Ok y /\ translate d vb y volume = Ok voxels.
Proof.
  intros Hcancel. destruct asserts_pass as [Ha1 Ha2].
  eexists. split.
  - unfold untranslate. rewrite Ha1, Ha2. simpl. rewrite shift_loop_all. reflexivity.
  - unfold translate. simpl. rewrite Ha1, Ha2. simpl. rewrite shift_loop_all. simpl.
    destruct voxels as [nc rs]. simpl in *. f_equal. f_equal.
    rewrite <- list_fmap_compose. rewrite <- (list_fmap_id rs) at 2.
    apply Forall_fmap_ext_1. eapply Forall_impl; [exact entries_ok|].
    intros r Hr. simpl. apply (shift_row_cancel _ _ P); assumption.
Qed.

Lemma translate_untranslate_gen :
  (forall x s, P x -> isub d (iadd d x s) s = x) ->
  exists y, translate d vb voxels volume = Ok y /\ untranslate d vb y volume = Ok voxels.
Proof.
  intros Hcancel. destruct asserts_pass as [Ha1 Ha2].
  eexists. split.
  - unfold translate. rewrite Ha1, Ha2. simpl. rewrite shift_loop_all. reflexivity.
  - unfold untranslate. simpl. rewrite Ha1, Ha2. simpl. rewrite shift_loop_all. simpl.
    destruct voxels as [nc rs]. simpl in *. f_equal. f_equal.
    rewrite <- list_fmap_compose. rewrite <- (list_fmap_id rs) at 2.
    apply Forall_fmap_ext_1. eapply Forall_impl; [exact entries_ok|].
    intros r Hr. simpl. apply (shift_row_cancel _ _ P); assumption.
Qed.
End RoundTrip.

(** C3, on int32 and int64 arrays: for a volume index in range whose
    shifts fit the dtype and an array whose last axis has length [dim],
    [translate] after [untranslate] and [untranslate] after [translate] both
    return the array they started from. *)
Theorem translate_untranslate_inverse_int (dt : int_dtype) (s s' : config_store)
    (vb : VolumeBoundaries) (voxels : array Z) (volume : Z) :
  VolumeBoundaries_init s = (s', Ok vb) ->
  0 <= volume < Z.of_nat (num_volumes vb) ->
  volume_fits (int_ops dt) vb (Z.to_nat volume) ->
  ncols voxels = dim vb ->
  Forall (Forall (in_range (bits dt))) (rows voxels) ->
  (exists y, untranslate (int_ops dt) vb voxels volume = Ok y
             /\ translate (int_ops dt) vb y volume = Ok voxels)
  /\ (exists y, translate (int_ops dt) vb voxels volume = Ok y
                /\ untranslate (int_ops dt) vb y volume = Ok voxels).
Proof.
  intros Hinit Hv Hfit Hshape Hrange. apply init_Ok in Hinit as (Hwf & _).
  split.
  - apply (untranslate_translate_gen _ (in_range (bits dt))); try assumption.
    intros x sh Hx. apply int_add_sub. exact Hx.
  - apply (translate_untranslate_gen _ (in_range (bits dt))); try assumption.
    intros x sh Hx. apply int_sub_add. exact Hx.
Qed.

Lemma translate_untranslate_inverse_int_witness :
  (exists y, untranslate (int_ops int64) vb_10 (Array 2 [[12; 7]]) 1 = Ok y
             /\ translate (int_ops int64) vb_10 y 1 = Ok (Array 2 [[12; 7]]))
  /\ (exists y, translate (int_ops int64) vb_10 (Array 2 [[12; 7]]) 1 = Ok y
                /\ untranslate (int_ops int64) vb_10 y 1 = Ok (Array 2 [[12; 7]])).
Proof.
  apply (translate_untranslate_inverse_int int64 store_10 store_10 vb_10
           (Array 2 [[12; 7]]) 1 init_store_10).
  - unfold num_volumes. simpl. lia.
  - intros [|[|n]] Hn; [reflexivity | reflexivity | simpl in Hn; lia].
  - reflexivity.
  - repeat constructor; vm_compute; discriminate.
Defined.

(** Boundaries [[10.0], None], volume 1 and the float64 array [[0.1, 0.0]]:
    0.1 - 10 + 10 is rounded twice and is not 0.1. *)
Lemma translate_untranslate_float64_counterexample :
  VolumeBoundaries_init store_10 = (store_10, Ok vb_10)
  /\ 0 <= 1 < Z.of_nat (num_volumes vb_10)
  /\ ncols point_tenth = dim vb_10
  /\ (y ← untranslate float64 vb_10 point_tenth 1; translate float64 vb_10 y 1)
     <> Ok point_tenth.
Proof.
  split; [exact init_store_10|].
  split; [unfold num_volumes; simpl; lia|]. split; [reflexivity|].
  intros H.
  apply (f_equal (fun r => match r with
                           | Ok (Array _ ((x :: _) :: _)) =>
                               PrimFloat.eqb x 0x1.999999999999ap-4%float
                           | _ => true
                           end)) in H.
  vm_compute in H. discriminate.
Qed.

(** ** split works row by row *)

Lemma lookup_dim_boundaries (col : list Z) (b : option (list Q)) (bin : nat) :
  (bin < n_bins b)%nat -> dim_boundaries col b !! bin = Some (in_bin b bin <$> col).
Proof.
  unfold n_bins. destruct b as [cuts|]; simpl; intros Hbin.
  - destruct (decide (bin < length cuts)%nat) as [Hlt|Hge].
    + rewrite lookup_app_l by (rewrite length_fmap; exact Hlt).
      rewrite list_lookup_fmap.
      destruct (lookup_lt_is_Some_2 cuts bin Hlt) as [c Hc]. rewrite Hc. simpl.
      f_equal. apply list_fmap_ext. intros _ x _. unfold in_bin. rewrite Hc. reflexivity.
    + assert (bin = length cuts) as -> by lia.
      rewrite lookup_app_r by (rewrite length_fmap; lia).
      rewrite length_fmap, Nat.sub_diag. simpl.
      f_equal. apply list_fmap_ext. intros _ x _. unfold in_bin.
      rewrite (lookup_ge_None_2 cuts (length cuts)) by lia. reflexivity.
  - assert (bin = 0%nat) as -> by lia. reflexivity.
Qed.

Lemma zip_with_fmap_diag {A B C D : Type} (h : B -> C -> D) (f : A -> B) (g : A -> C)
    (l : list A) :
  zip_with h (f <$> l) (g <$> l) = (fun x => h (f x) (g x)) <$> l.
Proof.
  induction l as [|a l IH]; [reflexivity|].
  rewrite !fmap_cons. simpl. f_equal. exact IH.
Qed.

Lemma zip_with_compose_l {A B : Type} (f g : A -> B -> B) (l : list A) (k : list B) :
  zip_with f l (zip_with g l k) = zip_with (fun a b => f a (g a b)) l k.
Proof.
  revert k. induction l as [|a l IH]; intros [|b k]; simpl; [reflexivity..|].
  rewrite IH. reflexivity.
Qed.

Lemma zip_with_snd_same {A B : Type} (l : list A) (k : list B) :
  length k = length l -> zip_with (fun _ b => b) l k = k.
Proof.
  revert k. induction l as [|a l IH]; intros [|b k] Hlen; simpl in *;
    try reflexivity; try discriminate.
  rewrite IH by lia. reflexivity.
Qed.

Lemma masked_masked {A : Type} (m : list bool) (f g : A -> A) (l : list A) :
  masked m f (masked m g l) = masked m (fun x => f (g x)) l.
Proof.
  unfold masked. revert l. induction m as [|b m IH]; intros [|a l]; simpl; [reflexivity..|].
  rewrite IH. destruct b; reflexivity.
Qed.

Section SplitRows.
Context (dt : int_dtype) (vb : VolumeBoundaries) (rws : list (list Z)).
Hypothesis vb_ok : vb_wf vb.
Hypothesis fit_ok : operands_fit dt vb.

Let coords := drop 1 <$> rws.

Lemma dim_pos : (0 < dim vb)%nat.
Proof.
  apply vb_wf_fields in vb_ok as (Hne & Hd & _).
  rewrite Hd. destruct (boundaries vb); [contradiction | simpl; lia].
Qed.

Lemma bin_shift_Ok (c : list nat) (n : nat) :
  c ∈ combo vb -> (n < dim vb)%nat -> bin_shift vb c n = Ok (bin_shift_of vb c n).
Proof.
  intros Hc Hn. apply list_elem_of_lookup_1 in Hc as [v Hv].
  destruct (combo_row_in_range vb v n c vb_ok Hv Hn)
    as (bin & sh & s & Hbin & Hsh & Hs & _).
  unfold bin_shift_of, bin_shift, getitem. rewrite Hsh. simpl.
  rewrite Hbin. simpl. rewrite Hs. reflexivity.
Qed.

Lemma bin_shift_fits (c : list nat) (n : nat) :
  c ∈ combo vb -> (n < dim vb)%nat -> fits (int_ops dt) (bin_shift_of vb c n) = true.
Proof.
  intros Hc Hn. apply list_elem_of_lookup_1 in Hc as [v Hv].
  destruct (combo_row_in_range vb v n c vb_ok Hv Hn)
    as (bin & sh & s & Hbin & Hsh & Hs & _).
  unfold bin_shift_of, bin_shift, getitem. rewrite Hsh. cbn [mbind result_bind].
  rewrite Hbin. cbn [mbind result_bind]. rewrite Hs. cbn [mbind result_bind].
  pose proof (proj1 (Forall_lookup _ _) (proj2 fit_ok) n sh Hsh) as Hrow.
  exact (proj1 (Forall_lookup _ _) Hrow bin s Hs).
Qed.

Lemma mask_lookup {B : Type} (c : list nat) (n : nat) (k : list bool -> result B) :
  c ∈ combo vb -> (n < dim vb)%nat ->
  (bs ← getitem (all_boundaries vb coords) n; bin ← getitem c n;
   m ← getitem bs bin; k m)
  = k (bin_test vb c n <$> coords).
Proof.
  intros Hc Hn. apply list_elem_of_lookup_1 in Hc as [v Hv].
  destruct (combo_row_in_range vb v n c vb_ok Hv Hn)
    as (bin & _ & _ & Hbin & _ & _ & b & Hb & Hlt).
  unfold all_boundaries, getitem. rewrite list_lookup_imap, Hb. simpl.
  rewrite Hbin. simpl. rewrite (lookup_dim_boundaries _ b bin Hlt). simpl.
  f_equal. unfold column. rewrite <- list_fmap_compose.
  apply list_fmap_ext. intros _ x _. simpl.
  unfold bin_test. rewrite Hb, Hbin. reflexivity.
Qed.

Lemma and_masks_rows (c : list nat) (ns : list nat) (f : list Z -> bool) :
  c ∈ combo vb -> Forall (fun n => n < dim vb)%nat ns ->
  and_masks (all_boundaries vb coords) c ns (f <$> coords)
  = Ok ((fun x => foldl (fun acc n => acc && bin_test vb c n x) (f x) ns) <$> coords).
Proof.
  intros Hc Hns. revert f. induction Hns as [|n ns Hn _ IH]; intros f; simpl.
  - reflexivity.
  - rewrite (mask_lookup c n _ Hc Hn). rewrite zip_with_fmap_diag. apply IH.
Qed.

Lemma volume_mask_rows (c : list nat) :
  c ∈ combo vb ->
  volume_mask (all_boundaries vb coords) c (dim vb) = Ok (row_in_volume vb c <$> coords).
Proof.
  intros Hc. unfold volume_mask.
  rewrite (mask_lookup c 0 _ Hc dim_pos).
  apply and_masks_rows; [exact Hc|].
  apply Forall_forall. intros n Hn. apply elem_of_seq in Hn. lia.
Qed.

Lemma subtract_shifts_rows (c : list nat) (m : list bool) (ns : list nat)
    (new_coords : list (list Z)) :
  c ∈ combo vb -> Forall (fun n => n < dim vb)%nat ns ->
  length m = length new_coords ->
  subtract_shifts dt vb c m ns new_coords
  = Ok (masked m (shift_row (int_sub dt) (bin_shift_of vb c) ns) new_coords).
Proof.
  intros Hc Hns. revert new_coords.
  induction Hns as [|n ns Hn _ IH]; intros new_coords Hlen; simpl.
  - f_equal. unfold masked, shift_row. simpl. clear -Hlen.
    revert new_coords Hlen.
    induction m as [|b m IHm]; intros [|r rs] Hlen; simpl in *;
      try reflexivity; try discriminate.
    rewrite <- IHm by lia. destruct b; reflexivity.
  - rewrite (bin_shift_Ok c n Hc Hn). cbn [mbind result_bind].
    rewrite (operand_Ok _ _ (bin_shift_fits c n Hc Hn)). cbn [mbind result_bind].
    rewrite IH, masked_masked; [reflexivity|].
    unfold masked. rewrite length_zip_with. lia.
Qed.

Lemma volumes_loop_rows (idx : nat) (cs : list (list nat)) (sts : list (Z * list Z)) :
  Forall (fun c => c ∈ combo vb) cs -> length sts = length rws ->
  volumes_loop dt vb (all_boundaries vb coords) (column 0 rws) idx cs (sts.*1, sts.*2)
  = Ok ((zip_with (fun row st => row_loop dt vb row idx cs st) rws sts).*1,
        (zip_with (fun row st => row_loop dt vb row idx cs st) rws sts).*2).
Proof.
  intros Hcs. revert idx sts. induction Hcs as [|c cs Hc _ IH]; intros idx sts Hlen; simpl.
  - rewrite zip_with_snd_same by exact Hlen. reflexivity.
  - rewrite (volume_mask_rows c Hc). cbn [mbind result_bind].
    rewrite (operand_Ok _ _ (proj1 fit_ok)). simpl.
    rewrite subtract_shifts_rows;
      [|exact Hc | apply Forall_forall; intros n Hn; apply elem_of_seq in Hn; lia
       |subst coords; rewrite !length_fmap; lia].
    simpl.
    set (sts1 := zip_with (fun row st => row_step dt vb row idx c st) rws sts).
    assert (H1 : assign_batch_ids dt (row_in_volume vb c <$> coords) idx
                   (num_volumes vb) (column 0 rws) (sts.*1) = sts1.*1).
    { subst sts1 coords. clear. revert sts.
      induction rws as [|row rws' IHr]; intros [|st sts]; simpl; try reflexivity.
      unfold assign_batch_ids in *. simpl. rewrite IHr. f_equal.
      unfold row_step. destruct (row_in_volume vb c (drop 1 row)); reflexivity. }
    assert (H2 : masked (row_in_volume vb c <$> coords)
                   (shift_row (int_sub dt) (bin_shift_of vb c) (seq 0 (dim vb))) (sts.*2)
                 = sts1.*2).
    { subst sts1 coords. clear. revert sts.
      induction rws as [|row rws' IHr]; intros [|st sts]; simpl; try reflexivity.
      unfold masked in *. simpl. rewrite IHr. f_equal.
      unfold row_step. destruct (row_in_volume vb c (drop 1 row)); reflexivity. }
    rewrite H1, H2. rewrite IH.
    + subst sts1. rewrite zip_with_compose_l. reflexivity.
    + subst sts1. rewrite length_zip_with. lia.
Qed.
End SplitRows.

Lemma zip_with_cons_fst_snd {A : Type} (l : list (A * list A)) :
  zip_with cons (l.*1) (l.*2) = (fun p => p.1 :: p.2) <$> l.
Proof.
  induction l as [|p l IH]; [reflexivity|].
  rewrite !fmap_cons. simpl. f_equal. exact IH.
Qed.

Lemma zip_with_fmap_r_diag {A B C : Type} (h : A -> B -> C) (g : A -> B) (l : list A) :
  zip_with h l (g <$> l) = (fun x => h x (g x)) <$> l.
Proof.
  induction l as [|a l IH]; [reflexivity|].
  rewrite !fmap_cons. simpl. f_equal. exact IH.
Qed.

(** [split] returns, on an array with one column more than there are
    dimensions, and what it returns is [split_row] of every row. *)
Lemma split_rows (dt : int_dtype) (vb : VolumeBoundaries) (voxels : array Z) :
  vb_wf vb -> operands_fit dt vb -> ncols voxels = S (dim vb) ->
  split dt vb voxels
  = Ok (Array (S (dim vb)) (split_row dt vb <$> rows voxels),
        lexsort (sort_keys (dim vb) (split_row dt vb <$> rows voxels))
          (length (rows voxels))).
Proof.
  intros Hwf Hfit Hcols. destruct voxels as [nc rws]. simpl in *. subst nc.
  unfold split. simpl.
  rewrite Nat.sub_0_r, Nat.eqb_refl. simpl.
  pose proof (volumes_loop_rows dt vb rws Hwf Hfit 0 (combo vb)
                ((fun row => (0, drop 1 row)) <$> rws)) as Hloop.
  rewrite <- !list_fmap_compose in Hloop.
  change (fst ∘ (fun row : list Z => (0, drop 1 row))) with (fun _ : list Z => 0) in Hloop.
  change (snd ∘ (fun row : list Z => (0, drop 1 row))) with (drop (A:=Z) 1) in Hloop.
  assert (Hinit : (fun _ : list Z => 0) <$> (drop 1 <$> rws) = (fun _ : list Z => 0) <$> rws).
  { rewrite <- list_fmap_compose. reflexivity. }
  rewrite Hinit, Hloop; clear Hloop Hinit.
  - simpl. rewrite zip_with_fmap_r_diag, zip_with_cons_fst_snd.
    rewrite <- list_fmap_compose. unfold sort_keys.
    rewrite !length_fmap. reflexivity.
  - apply Forall_forall. intros c Hc. exact Hc.
  - rewrite length_fmap. reflexivity.
Qed.

(** ** A configuration without boundaries *)

Lemma swap01_replicate {A : Type} (n : nat) (x : A) : swap01 (replicate n x) = replicate n x.
Proof. destruct n as [|[|n]]; reflexivity. Qed.

Lemma ndindex_ones (d : nat) : ndindex (replicate d 1%nat) = [replicate d 0%nat].
Proof. induction d as [|d IH]; [reflexivity|]. simpl. rewrite IH. reflexivity. Qed.

Lemma meshgrid_combo_ones (d : nat) : meshgrid_combo (replicate d 1%nat) = [replicate d 0%nat].
Proof.
  unfold meshgrid_combo.
  rewrite swap01_replicate, reverse_replicate, ndindex_ones. simpl.
  rewrite reverse_replicate, swap01_replicate. reflexivity.
Qed.

Lemma no_boundaries_fields (vb : VolumeBoundaries) :
  vb_wf vb -> Forall (fun b => b = None) (boundaries vb) ->
  boundaries vb = replicate (dim vb) None
  /\ combo vb = [replicate (dim vb) 0%nat]
  /\ shifts vb = replicate (dim vb) [0%Q].
Proof.
  intros Hwf Hnone. apply vb_wf_fields in Hwf as (_ & Hd & Hc & Hs).
  assert (Hb : boundaries vb = replicate (dim vb) None).
  { rewrite Hd. clear -Hnone. induction Hnone as [|b bs -> _ IH]; [reflexivity|].
    simpl. f_equal. exact IH. }
  split; [exact Hb|]. rewrite Hc, Hs, Hb. unfold n_boundaries, make_shifts.
  rewrite !fmap_replicate. split; [apply meshgrid_combo_ones | reflexivity].
Qed.

Lemma no_boundaries_fit (dt : int_dtype) (vb : VolumeBoundaries) :
  vb_wf vb -> Forall (fun b => b = None) (boundaries vb) -> operands_fit dt vb.
Proof.
  intros Hwf Hnone. destruct (no_boundaries_fields vb Hwf Hnone) as (_ & Hc & Hs).
  unfold operands_fit, shifts_fit, num_volumes. rewrite Hc, Hs. split.
  - destruct dt; reflexivity.
  - apply Forall_replicate. constructor; [|constructor]. destruct dt; reflexivity.
Qed.

Lemma foldl_andb_true {A : Type} (f : A -> bool) (l : list A) :
  (forall a, a ∈ l -> f a = true) -> foldl (fun acc a => acc && f a) true l = true.
Proof.
  induction l as [|a l IH]; intros Hf; simpl; [reflexivity|].
  rewrite (Hf a) by left. apply IH. intros b Hb. apply Hf. right. exact Hb.
Qed.

(** Without boundaries every row is in the one volume, which has index 0 and
    no shift: the row keeps its coordinates and gets [0 + batch_id * 1],
    stored as an int32, as its virtual batch id. *)
Lemma split_row_no_boundaries (dt : int_dtype) (vb : VolumeBoundaries) (row : list Z) :
  vb_wf vb -> Forall (fun b => b = None) (boundaries vb) ->
  length row = S (dim vb) -> Forall (in_range (bits dt)) row ->
  split_row dt vb row = wrap 32 (0 + nth 0 row 0 * 1) :: drop 1 row.
Proof.
  intros Hwf Hnone Hlen Hrange.
  pose proof (dim_pos vb Hwf) as Hpos.
  destruct (no_boundaries_fields vb Hwf Hnone) as (Hb & Hc & Hs).
  assert (Htest : forall n x, (n < dim vb)%nat ->
                    bin_test vb (replicate (dim vb) 0%nat) n x = true).
  { intros n x Hn. unfold bin_test.
    rewrite Hb, !lookup_replicate_2 by exact Hn. reflexivity. }
  assert (Hnv : num_volumes vb = 1%nat) by (unfold num_volumes; rewrite Hc; reflexivity).
  unfold split_row. rewrite Hc. simpl. unfold row_step.
  unfold row_in_volume. rewrite (Htest 0%nat) by exact Hpos.
  rewrite foldl_andb_true
    by (intros n Hn; apply elem_of_seq in Hn; apply Htest; lia).
  simpl. rewrite Hnv. f_equal.
  - destruct row as [|b row]; [discriminate|]. simpl.
    apply Forall_cons in Hrange as [Hb0 _].
    unfold virtual_batch_id, int_add, int_mul.
    change (Z.of_nat 0) with 0. change (Z.of_nat 1) with 1.
    pose proof (bits_pos dt) as Hw.
    rewrite !Z.mul_1_r, !Z.add_0_l.
    rewrite !(wrap_in_range (bits dt) b) by assumption. reflexivity.
  - apply list_eq. intros k. rewrite lookup_shift_row by apply NoDup_seq.
    destruct (decide (k ∈ seq 0 (dim vb))) as [Hk|_]; [|reflexivity].
    apply elem_of_seq in Hk.
    destruct (drop 1 row !! k) as [x|] eqn:Hx; [|reflexivity]. simpl. f_equal.
    assert (Hshift : bin_shift_of vb (replicate (dim vb) 0%nat) k = 0).
    { unfold bin_shift_of, bin_shift, getitem.
      rewrite Hs, !lookup_replicate_2 by lia. reflexivity. }
    rewrite Hshift. unfold int_sub. rewrite Z.sub_0_r.
    apply wrap_in_range; [apply bits_pos|].
    apply list_elem_of_lookup_2 in Hx.
    assert (Hin : x ∈ row).
    { destruct row; [inversion Hx | right; exact Hx]. }
    exact (proj1 (Forall_forall _ _) Hrange x Hin).
Qed.

(** C6: with no boundary in any dimension, [split] leaves the coordinates as
    they are and puts [0 + batch_id * 1], as an int32, in column 0; it changes
    no row whose batch id is an int32. *)
Theorem split_without_boundaries (dt : int_dtype) (s s' : config_store)
    (vb : VolumeBoundaries) (voxels : array Z) :
  VolumeBoundaries_init s = (s', Ok vb) ->
  Forall (fun it => it = INone \/ it = IStrNone) (outer s) ->
  array_wf voxels -> ncols voxels = S (dim vb) ->
  Forall (Forall (in_range (bits dt))) (rows voxels) ->
  exists new_voxels perm,
    split dt vb voxels = Ok (new_voxels, perm)
    /\ ncols new_voxels = ncols voxels
    /\ rows new_voxels
       = (fun row => wrap 32 (0 + nth 0 row 0 * 1) :: drop 1 row) <$> rows voxels
    /\ (Forall (fun row => in_range 32 (nth 0 row 0)) (rows voxels) ->
        new_voxels = voxels).
Proof.
  intros Hinit Hnone Hwfa Hcols Hrange.
  apply init_Ok in Hinit as (Hwf & Hb & _).
  assert (Hbn : Forall (fun b => b = None) (boundaries vb)).
  { rewrite Hb. apply Forall_fmap. eapply Forall_impl; [exact Hnone|].
    intros it [-> | ->]; reflexivity. }
  assert (Hrows : split_row dt vb <$> rows voxels
                  = (fun row => wrap 32 (0 + nth 0 row 0 * 1) :: drop 1 row) <$> rows voxels).
  { apply Forall_fmap_ext_1. apply Forall_forall. intros row Hrow.
    apply split_row_no_boundaries; try assumption.
    - rewrite <- Hcols. exact (proj1 (Forall_forall _ _) Hwfa row Hrow).
    - exact (proj1 (Forall_forall _ _) Hrange row Hrow). }
  eexists _, _.
  split; [apply split_rows; [assumption | apply no_boundaries_fit | ]; assumption|]. simpl.
  split; [symmetry; exact Hcols|]. split; [exact Hrows|].
  intros H32. destruct voxels as [nc rws]. simpl in *. subst nc. f_equal.
  rewrite Hrows. rewrite <- (list_fmap_id rws) at 2.
  apply Forall_fmap_ext_1. apply Forall_forall. intros row Hrow. simpl.
  pose proof (proj1 (Forall_forall _ _) Hwfa row Hrow) as Hlen.
  pose proof (proj1 (Forall_forall _ _) H32 row Hrow) as Hb32.
  destruct row as [|b row]; [discriminate|]. simpl in *. f_equal.
  rewrite Z.add_0_l, Z.mul_1_r. apply wrap_in_range; [lia | exact Hb32].
Qed.

Lemma split_without_boundaries_witness :
  exists new_voxels perm,
    split int64 vb_none_1d (Array 2 [[1; 0]; [0; 5]]) = Ok (new_voxels, perm)
    /\ ncols new_voxels = 2%nat
    /\ rows new_voxels = [[wrap 32 (0 + 1 * 1); 0]; [wrap 32 (0 + 0 * 1); 5]]
    /\ (Forall (fun row => in_range 32 (nth 0 row 0)) [[1; 0]; [0; 5]] ->
        new_voxels = Array 2 [[1; 0]; [0; 5]]).
Proof.
  apply (split_without_boundaries int64 store_none_1d store_none_1d vb_none_1d
           (Array 2 [[1; 0]; [0; 5]]) init_store_none_1d).
  - repeat constructor.
  - repeat constructor.
  - reflexivity.
  - repeat constructor; vm_compute; discriminate.
Defined.

(** ** The scenario with one cut at x = 10 *)

Lemma shift_row_imap {T : Type} (op : T -> Z -> T) (g : nat -> Z) (d : nat) (r : list T) :
  length r = d -> shift_row op g (seq 0 d) r = imap (fun n x => op x (g n)) r.
Proof.
  intros Hl. apply list_eq. intros k. rewrite lookup_shift_row by apply NoDup_seq.
  rewrite list_lookup_imap.
  destruct (decide (k ∈ seq 0 d)) as [Hk|Hk]; [reflexivity|].
  rewrite elem_of_seq in Hk. rewrite lookup_ge_None_2 by lia. reflexivity.
Qed.

Lemma int_sub_0 (dt : int_dtype) (x : Z) : in_range (bits dt) x -> int_sub dt x 0 = x.
Proof.
  intros Hx. unfold int_sub. rewrite Z.sub_0_r.
  apply wrap_in_range; [apply bits_pos | exact Hx].
Qed.

(** Evaluates [split_row] at a row whose entries that are compared with a cut
    are numerals. *)
Ltac eval_split_row vb :=
  unfold split_row; cbn [combo vb row_loop]; unfold row_step;
  repeat match goal with
  | |- context [row_in_volume ?v ?c ?x] =>
      let b := eval vm_compute in (row_in_volume v c x) in
      change (row_in_volume v c x) with b; cbn iota
  end;
  cbn [fst snd dim vb nth drop];
  rewrite ?shift_row_imap by reflexivity; cbn [imap fmap list_fmap compose];
  repeat match goal with
  | |- context [bin_shift_of ?v ?c ?n] =>
      let b := eval vm_compute in (bin_shift_of v c n) in
      change (bin_shift_of v c n) with b
  end.

Lemma vb_10_fit (dt : int_dtype) : operands_fit dt vb_10.
Proof. destruct dt; repeat constructor. Qed.

(** C4: boundaries [[10.0], None]; the events have x = 5, 12, 9 and
    x = 1, 20, 11, and any y.  There are two volumes, x < 10 is volume 0 with
    no shift and x >= 10 is volume 1 with x shifted by 10, and the virtual
    batch ids are volume + event * 2: 0 and 1 for event 0, 2 and 3 for
    event 1. *)
Theorem scenario_one_cut_at_10 (dt : int_dtype) (y0 y1 y2 y3 y4 y5 : Z) :
  Forall (in_range (bits dt)) [y0; y1; y2; y3; y4; y5] ->
  VolumeBoundaries_init store_10 = (store_10, Ok vb_10)
  /\ num_volumes vb_10 = 2%nat
  /\ (exists perm,
        split dt vb_10
          (Array 3 [[0; 5; y0]; [0; 12; y1]; [0; 9; y2]; [1; 1; y3]; [1; 20; y4]; [1; 11; y5]])
        = Ok (Array 3 [[0 + 0 * 2; 5; y0]; [1 + 0 * 2; 2; y1]; [0 + 0 * 2; 9; y2];
                       [0 + 1 * 2; 1; y3]; [1 + 1 * 2; 10; y4]; [1 + 1 * 2; 1; y5]],
              perm))
  /\ virtual_batch_ids vb_10 0 = Ok [0; 1]
  /\ virtual_batch_ids vb_10 1 = Ok [2; 3].
Proof.
  intros Hy. split; [exact init_store_10|]. split; [reflexivity|].
  split; [|split; reflexivity].
  eexists. rewrite split_rows; [|exact vb_10_wf | exact (vb_10_fit dt) | reflexivity].
  f_equal. f_equal. f_equal. cbn [rows fmap list_fmap].
  repeat (apply Forall_cons in Hy as [? Hy]).
  repeat (apply (f_equal2 cons);
          [eval_split_row vb_10;
           repeat match goal with
                  | H : in_range _ ?y |- context [int_sub ?t ?y 0] =>
                      rewrite (int_sub_0 t y H)
                  end;
           destruct dt; reflexivity|]).
  reflexivity.
Qed.

Lemma scenario_one_cut_at_10_witness :
  exists perm,
    split int32 vb_10
      (Array 3 [[0; 5; 7]; [0; 12; 7]; [0; 9; 1]; [1; 1; 3]; [1; 20; 0]; [1; 11; 2]])
    = Ok (Array 3 [[0; 5; 7]; [1; 2; 7]; [0; 9; 1]; [2; 1; 3]; [3; 10; 0]; [3; 1; 2]], perm).
Proof.
  refine (proj1 (proj2 (proj2 (scenario_one_cut_at_10 int32 7 7 1 3 0 2 _)))).
  repeat constructor; vm_compute; discriminate.
Defined.

(** ** The masks of the volumes: at most one cut per dimension *)

Lemma ndindex_complete (ns m : list nat) : Forall2 lt m ns -> m ∈ ndindex ns.
Proof.
  induction 1 as [|i n m ns Hi _ IH]; simpl.
  - apply list_elem_of_singleton. reflexivity.
  - apply list_elem_of_bind. exists i. split.
    + apply list_elem_of_fmap. exists m. split; [reflexivity | exact IH].
    + apply elem_of_seq. lia.
Qed.

Lemma NoDup_ndindex (ns : list nat) : NoDup (ndindex ns).
Proof.
  induction ns as [|n ns IH]; simpl.
  - apply NoDup_singleton.
  - apply NoDup_bind.
    + intros i1 i2 m _ _ H1 H2.
      apply list_elem_of_fmap in H1 as (m1 & -> & _).
      apply list_elem_of_fmap in H2 as (m2 & [= -> _] & _). reflexivity.
    + intros i _. apply NoDup_fmap_2_strong; [|exact IH].
      intros m1 m2 _ _ [= ->]. reflexivity.
    + apply NoDup_seq.
Qed.

Lemma meshgrid_combo_complete (ns c : list nat) : Forall2 lt c ns -> c ∈ meshgrid_combo ns.
Proof.
  intros H. unfold meshgrid_combo. apply list_elem_of_fmap.
  exists (reverse (swap01 c)). split.
  - rewrite reverse_involutive, swap01_involutive. reflexivity.
  - apply ndindex_complete. apply Forall2_reverse. apply Forall2_swap01. exact H.
Qed.

Lemma NoDup_meshgrid_combo (ns : list nat) : NoDup (meshgrid_combo ns).
Proof.
  unfold meshgrid_combo. apply NoDup_fmap_2_strong; [|apply NoDup_ndindex].
  intros m1 m2 _ _ H. apply (f_equal swap01) in H. rewrite !swap01_involutive in H.
  apply (f_equal reverse) in H. rewrite !reverse_involutive in H. exact H.
Qed.

Lemma in_bin_one_cut (b : option (list Q)) (bin : nat) (x : Z) :
  match b with Some cuts => length cuts = 1%nat | None => True end ->
  (bin < n_bins b)%nat ->
  in_bin b bin x = true <-> bin = bin_of b x.
Proof.
  unfold n_bins. destruct b as [[|c [|c' cuts]]|]; simpl; try discriminate; intros _ Hbin.
  - destruct bin as [|[|bin]]; simpl; [| |lia]; unfold ge_cut, lt_cut;
      destruct (Qle_bool c (inject_Z (to_binary64 x))); simpl; split; congruence.
  - split; [lia | reflexivity].
Qed.

Lemma foldl_andb_iff {A : Type} (f : A -> bool) (b : bool) (l : list A) :
  foldl (fun acc a => acc && f a) b l = true <-> b = true /\ Forall (fun a => f a = true) l.
Proof.
  revert b. induction l as [|a l IH]; intros b; simpl.
  - split; [intros ->; split; [reflexivity | constructor] | intros [-> _]; reflexivity].
  - rewrite IH, andb_true_iff, Forall_cons. tauto.
Qed.

Lemma row_in_volume_iff (vb : VolumeBoundaries) (c : list nat) (x : list Z) :
  (0 < dim vb)%nat ->
  row_in_volume vb c x = true <-> forall n, (n < dim vb)%nat -> bin_test vb c n x = true.
Proof.
  intros Hd. unfold row_in_volume. rewrite foldl_andb_iff, Forall_forall. split.
  - intros [H0 H] n Hn. destruct n as [|n]; [exact H0|].
    apply H. apply elem_of_seq. lia.
  - intros H. split; [apply H; exact Hd|].
    intros n Hn. apply elem_of_seq in Hn. apply H. lia.
Qed.

Section OneCut.
Context (vb : VolumeBoundaries).
Hypothesis vb_ok : vb_wf vb.
Hypothesis one_cut : at_most_one_cut vb.

Lemma bin_test_one_cut (c : list nat) (n : nat) (x : list Z) :
  c ∈ combo vb -> (n < dim vb)%nat ->
  bin_test vb c n x = true <-> c !! n = volume_of vb x !! n.
Proof.
  intros Hc Hn. apply list_elem_of_lookup_1 in Hc as [v Hv].
  destruct (combo_row_in_range vb v n c vb_ok Hv Hn)
    as (bin & _ & _ & Hbin & _ & _ & b & Hb & Hlt).
  unfold bin_test, volume_of. rewrite Hb, Hbin, list_lookup_imap, Hb. simpl.
  rewrite (in_bin_one_cut b bin (nth n x 0));
    [|exact (proj1 (Forall_lookup _ _) one_cut n b Hb) | exact Hlt].
  split; congruence.
Qed.

Lemma length_combo_row (c : list nat) : c ∈ combo vb -> length c = dim vb.
Proof.
  intros Hc. pose proof (vb_wf_fields vb vb_ok) as (_ & Hd & Hcombo & _).
  rewrite Hcombo in Hc. apply meshgrid_combo_bounded, Forall2_length in Hc.
  unfold n_boundaries in Hc. rewrite !length_fmap in Hc. lia.
Qed.

Lemma row_in_volume_one_cut (c : list nat) (x : list Z) :
  c ∈ combo vb -> row_in_volume vb c x = true <-> c = volume_of vb x.
Proof.
  intros Hc. rewrite row_in_volume_iff by (apply dim_pos; exact vb_ok).
  pose proof (length_combo_row c Hc) as Hlen.
  pose proof (vb_wf_fields vb vb_ok) as (_ & Hd & _).
  split.
  - intros H. apply list_eq. intros n.
    destruct (decide (n < dim vb)%nat) as [Hn|Hn].
    + apply (bin_test_one_cut c n x Hc Hn). apply H. exact Hn.
    + rewrite !lookup_ge_None_2; [reflexivity | |lia].
      unfold volume_of. rewrite length_imap. lia.
  - intros Heq n Hn. apply (bin_test_one_cut c n x Hc Hn). rewrite <- Heq. reflexivity.
Qed.

Lemma volume_of_in_combo (x : list Z) : volume_of vb x ∈ combo vb.
Proof.
  pose proof (vb_wf_fields vb vb_ok) as (_ & _ & Hcombo & _).
  rewrite Hcombo. apply meshgrid_combo_complete.
  unfold volume_of, n_boundaries. apply Forall2_same_length_lookup. split.
  - rewrite length_imap, !length_fmap. reflexivity.
  - intros n bin k Hbin Hk. rewrite list_lookup_imap in Hbin.
    rewrite !list_lookup_fmap in Hk.
    destruct (boundaries vb !! n) as [b|] eqn:Hb; [|discriminate].
    simpl in *. injection Hbin as <-. injection Hk as <-.
    pose proof (proj1 (Forall_lookup _ _) one_cut n b Hb) as H1.
    destruct b as [[|c [|c' cuts]]|]; simpl in *; try discriminate; [|lia].
    destruct (lt_cut (nth n x 0) c); lia.
Qed.
End OneCut.

Lemma sum_indicator_unique {A : Type} (f : A -> bool) (l : list A) (t : A) :
  NoDup l -> t ∈ l -> (forall c, c ∈ l -> f c = true <-> c = t) ->
  sum_list ((fun c => if f c then 1%nat else 0%nat) <$> l) = 1%nat.
Proof.
  induction 1 as [|a l Ha Hnd IH]; intros Ht Hf; [inversion Ht|].
  rewrite fmap_cons. simpl. apply elem_of_cons in Ht as [<- | Ht].
  - rewrite (proj2 (Hf t ltac:(left)) eq_refl).
    assert (H0 : sum_list ((fun c => if f c then 1%nat else 0%nat) <$> l) = 0%nat).
    { clear IH. induction l as [|b l IHl]; [reflexivity|].
      rewrite fmap_cons. simpl.
      apply not_elem_of_cons in Ha as [Hne Ha]. apply NoDup_cons in Hnd as [_ Hnd].
      destruct (f b) eqn:Hb.
      - exfalso. apply Hne. symmetry. apply Hf; [right; left | exact Hb].
      - apply IHl; [exact Ha | exact Hnd |].
        intros c Hc. apply Hf. apply elem_of_cons in Hc as [-> | Hc];
          [left | right; right; exact Hc]. }
    rewrite H0. reflexivity.
  - destruct (f a) eqn:Hfa.
    + exfalso. apply Ha. assert (a = t) as -> by (apply Hf; [left | exact Hfa]). exact Ht.
    + apply IH; [exact Ht|]. intros c Hc. apply Hf. right. exact Hc.
Qed.

Lemma volume_masks_rows (vb : VolumeBoundaries) (voxels : array Z) :
  vb_wf vb ->
  volume_masks vb voxels
  = Ok ((fun c => row_in_volume vb c <$> (drop 1 <$> rows voxels)) <$> combo vb).
Proof.
  intros Hwf. unfold volume_masks. apply mapM_Ok_Forall2.
  apply Forall2_fmap_r. apply Forall_Forall2_diag. apply Forall_forall.
  intros c Hc. apply volume_mask_rows; assumption.
Qed.

(** With at most one cut in every dimension the masks of the volumes do
    partition the rows: they sum to 1 at every row. *)
Lemma one_cut_masks_partition (s s' : config_store) (vb : VolumeBoundaries)
    (voxels : array Z) (j : nat) :
  VolumeBoundaries_init s = (s', Ok vb) -> at_most_one_cut vb ->
  (j < length (rows voxels))%nat ->
  exists masks, volume_masks vb voxels = Ok masks /\ mask_sum masks j = 1%nat.
Proof.
  intros Hinit Hone Hj. apply init_Ok in Hinit as (Hwf & _).
  eexists. split; [apply volume_masks_rows; exact Hwf|].
  destruct (lookup_lt_is_Some_2 _ _ Hj) as [row Hrow].
  unfold mask_sum. rewrite <- list_fmap_compose.
  rewrite (list_fmap_ext _ (fun c => if row_in_volume vb c (drop 1 row) then 1%nat else 0%nat)
             (combo vb)).
  2:{ intros _ c _. simpl. rewrite nth_lookup, !list_lookup_fmap, Hrow. reflexivity. }
  apply (sum_indicator_unique _ _ (volume_of vb (drop 1 row))).
  - pose proof (vb_wf_fields vb Hwf) as (_ & _ & Hcombo & _).
    rewrite Hcombo. apply NoDup_meshgrid_combo.
  - apply volume_of_in_combo; assumption.
  - intros c Hc. apply row_in_volume_one_cut; assumption.
Qed.

(** ** The masks of the volumes: two cuts in one dimension *)

(** C1 at boundaries [[10.0, 20.0]] and the one voxel (batch 0, x = 5): the
    masks [x < 10] of volume 0 and [x < 20] of volume 1 both match, so the
    masks sum to 2; the voxel ends in volume 1 with x = 5 - 0 - 10. *)
Theorem two_cuts_masks_overlap :
  VolumeBoundaries_init store_10_20 = (store_10_20, Ok vb_10_20)
  /\ volume_masks vb_10_20 (Array 2 [[0; 5]]) = Ok [[true]; [true]; [false]]
  /\ mask_sum [[true]; [true]; [false]] 0 = 2%nat
  /\ split int64 vb_10_20 (Array 2 [[0; 5]]) = Ok (Array 2 [[1; -5]], [0%nat]).
Proof. repeat split; vm_compute; reflexivity. Qed.

(** ** The shift that is applied is the truncated one *)

Lemma int_of_float_integer (q : Q) (z : Z) : (q == inject_Z z)%Q -> int_of_float q = z.
Proof.
  unfold Qeq, int_of_float. simpl. intros H. rewrite Z.mul_1_r in H. rewrite H.
  apply Z.quot_mul. discriminate.
Qed.

Lemma int_of_float_nonneg (q : Q) :
  (0 <= q)%Q ->
  (inject_Z (int_of_float q) <= q)%Q /\ (q < inject_Z (int_of_float q + 1))%Q.
Proof.
  unfold Qle, Qlt, int_of_float. destruct q as [n d]. simpl. intros Hq.
  rewrite Z.mul_1_r in Hq. rewrite !Z.mul_1_r.
  pose proof (Z.quot_rem' n (Zpos d)) as Hqr.
  pose proof (Z.rem_bound_pos n (Zpos d) Hq ltac:(lia)) as Hr. nia.
Qed.

Lemma int_of_float_nonpos (q : Q) :
  (q <= 0)%Q ->
  (inject_Z (int_of_float q - 1) < q)%Q /\ (q <= inject_Z (int_of_float q))%Q.
Proof.
  unfold Qle, Qlt, int_of_float. destruct q as [n d]. simpl. intros Hq.
  rewrite Z.mul_1_r in Hq. rewrite !Z.mul_1_r.
  pose proof (Z.quot_rem' n (Zpos d)) as Hqr.
  destruct (Z.eq_dec n 0) as [->|Hn].
  - rewrite Z.quot_0_l by discriminate. lia.
  - pose proof (Z.rem_bound_pos_neg n (Zpos d) ltac:(lia) ltac:(lia)). nia.
Qed.

Lemma list_last_lookup {A : Type} (l : list A) (d : A) :
  List.last l d = default d (l !! pred (length l)).
Proof.
  induction l as [|a [|b l] IH]; [reflexivity..|].
  change (List.last (a :: b :: l) d) with (List.last (b :: l) d). rewrite IH. reflexivity.
Qed.

(** The shift table of a dimension with cuts: 0 for bin 0 and cut [k] for
    bin [k + 1]. *)
Lemma dim_shifts_cuts (b : list Q) : b <> [] -> dim_shifts b = 0%Q :: b.
Proof.
  intros Hne. apply list_eq. intros i. unfold dim_shifts.
  destruct (decide (i < length b)%nat) as [Hlt|Hge].
  - rewrite lookup_app_l by (rewrite length_fmap, length_seq; exact Hlt).
    rewrite list_lookup_fmap, lookup_seq_lt by exact Hlt. simpl.
    destruct i as [|i]; [reflexivity|]. simpl.
    rewrite Nat.sub_0_r. rewrite nth_lookup.
    destruct (lookup_lt_is_Some_2 b i ltac:(lia)) as [x Hx]. rewrite Hx. reflexivity.
  - rewrite lookup_app_r by (rewrite length_fmap, length_seq; lia).
    rewrite length_fmap, length_seq.
    destruct (decide (i = length b)) as [->|Hne'].
    + rewrite Nat.sub_diag. simpl. rewrite list_last_lookup.
      destruct b as [|x b]; [contradiction|]. simpl.
      destruct (lookup_lt_is_Some_2 (x :: b) (length b) ltac:(simpl; lia)) as [y Hy].
      rewrite Hy. reflexivity.
    + destruct (i - length b)%nat as [|k] eqn:E; [lia|]. simpl.
      destruct i as [|i]; [lia|]. simpl. symmetry. apply lookup_ge_None_2. lia.
Qed.

Lemma bin_shift_of_stored (vb : VolumeBoundaries) (c : list nat) (n : nat) :
  vb_wf vb -> c ∈ combo vb -> (n < dim vb)%nat ->
  bin_shift_of vb c n = int_of_float (stored_shift vb c n).
Proof.
  intros Hwf Hc Hn. apply list_elem_of_lookup_1 in Hc as [v Hv].
  destruct (combo_row_in_range vb v n c Hwf Hv Hn) as (bin & sh & x & Hbin & Hsh & Hx & _).
  unfold bin_shift_of, bin_shift, stored_shift, getitem.
  rewrite Hsh. simpl. rewrite Hbin. simpl. rewrite Hx. reflexivity.
Qed.

(** The stored shift of bin [k + 1] is cut [k]; that of bin 0 is 0. *)
Lemma stored_shift_cut (vb : VolumeBoundaries) (c : list nat) (n bin : nat) :
  vb_wf vb -> c ∈ combo vb -> c !! n = Some bin ->
  match bin with
  | O => stored_shift vb c n = 0%Q
  | S k => exists cuts, boundaries vb !! n = Some (Some cuts)
                        /\ cuts !! k = Some (stored_shift vb c n)
  end.
Proof.
  intros Hwf Hc Hbin.
  assert (Hn : (n < dim vb)%nat).
  { apply list_elem_of_lookup_1 in Hc as [v Hv].
    pose proof (vb_wf_fields vb Hwf) as (_ & Hd & Hcombo & _).
    rewrite Hcombo in Hv. apply list_elem_of_lookup_2, meshgrid_combo_bounded in Hv.
    apply Forall2_length in Hv. unfold n_boundaries in Hv. rewrite !length_fmap in Hv.
    apply lookup_lt_Some in Hbin. lia. }
  apply list_elem_of_lookup_1 in Hc as [v Hv].
  destruct (combo_row_in_range vb v n c Hwf Hv Hn)
    as (bin' & sh & x & Hbin' & Hsh & Hx & b & Hb & Hlt).
  rewrite Hbin in Hbin'. injection Hbin' as <-.
  assert (Hst : stored_shift vb c n = x).
  { unfold stored_shift. rewrite Hsh. simpl. rewrite Hbin. simpl. rewrite Hx. reflexivity. }
  rewrite Hst.
  pose proof (vb_wf_fields vb Hwf) as (_ & _ & _ & Hshifts).
  rewrite Hshifts in Hsh. unfold make_shifts in Hsh.
  rewrite list_lookup_fmap, Hb in Hsh. simpl in Hsh. injection Hsh as <-.
  destruct b as [cuts|].
  - assert (Hne : cuts <> []).
    { destruct Hwf as [_ HF]. intros ->.
      apply list_elem_of_lookup_2 in Hb.
      exact (proj1 (Forall_forall _ _) HF _ Hb eq_refl). }
    rewrite (dim_shifts_cuts cuts Hne) in Hx.
    destruct bin as [|k]; simpl in Hx; [congruence | eauto].
  - destruct bin as [|k]; simpl in *; [congruence | lia].
Qed.

Lemma row_loop_app (dt : int_dtype) (vb : VolumeBoundaries) (row : list Z)
    (cs1 cs2 : list (list nat)) (idx : nat) (st : Z * list Z) :
  row_loop dt vb row idx (cs1 ++ cs2) st
  = row_loop dt vb row (idx + length cs1) cs2 (row_loop dt vb row idx cs1 st).
Proof.
  revert idx st. induction cs1 as [|c cs1 IH]; intros idx st; simpl.
  - rewrite Nat.add_0_r. reflexivity.
  - rewrite IH. f_equal. lia.
Qed.

Lemma row_loop_no_match (dt : int_dtype) (vb : VolumeBoundaries) (row : list Z)
    (cs : list (list nat)) (idx : nat) (st : Z * list Z) :
  Forall (fun c => row_in_volume vb c (drop 1 row) = false) cs ->
  row_loop dt vb row idx cs st = st.
Proof.
  intros H. revert idx st. induction H as [|c cs Hc _ IH]; intros idx st; simpl.
  - reflexivity.
  - rewrite IH. unfold row_step. rewrite Hc. reflexivity.
Qed.

Lemma split_row_only_in_volume (dt : int_dtype) (vb : VolumeBoundaries) (volume : nat)
    (c : list nat) (row : list Z) :
  vb_wf vb -> combo vb !! volume = Some c -> length row = S (dim vb) ->
  only_in_volume vb volume row ->
  split_row dt vb row
  = virtual_batch_id dt volume (nth 0 row 0) (num_volumes vb)
    :: imap (fun n x => int_sub dt x (int_of_float (stored_shift vb c n))) (drop 1 row).
Proof.
  intros Hwf Hc Hlen Honly. unfold split_row.
  rewrite <- (take_drop_middle _ _ _ Hc), row_loop_app. simpl.
  assert (Hv : (volume < length (combo vb))%nat) by (eapply lookup_lt_Some; exact Hc).
  rewrite length_take_le by lia.
  rewrite (row_loop_no_match _ _ _ (drop (S volume) (combo vb))).
  2:{ apply Forall_forall. intros c' Hc'. apply list_elem_of_lookup_1 in Hc' as [i Hi].
      rewrite lookup_drop in Hi. rewrite (Honly _ _ Hi).
      apply bool_decide_eq_false. lia. }
  rewrite (row_loop_no_match _ _ _ (take volume (combo vb))).
  2:{ apply Forall_forall. intros c' Hc'. apply list_elem_of_lookup_1 in Hc' as [i Hi].
      apply lookup_take_Some in Hi as [Hi Hlt]. rewrite (Honly _ _ Hi).
      apply bool_decide_eq_false. lia. }
  unfold row_step. rewrite (Honly _ _ Hc), bool_decide_eq_true_2 by reflexivity. simpl.
  f_equal. rewrite shift_row_imap by (rewrite length_drop; lia).
  apply imap_ext. intros n x Hx. simpl. f_equal.
  apply bin_shift_of_stored; [exact Hwf | eapply list_elem_of_lookup_2; exact Hc |].
  apply lookup_lt_Some in Hx. rewrite length_drop in Hx. lia.
Qed.

Lemma shift_of_stored (vb : VolumeBoundaries) (volume : nat) (c : list nat) (n : nat) :
  vb_wf vb -> combo vb !! volume = Some c -> (n < dim vb)%nat ->
  shift_of vb volume n = int_of_float (stored_shift vb c n).
Proof.
  intros Hwf Hc Hn. rewrite <- bin_shift_of_stored;
    [|exact Hwf | eapply list_elem_of_lookup_2; exact Hc | exact Hn].
  unfold shift_of, volume_shift, bin_shift_of, getitem. rewrite Hc. reflexivity.
Qed.

Lemma translate_imap {T : Type} (dty : dtype T) (vb : VolumeBoundaries) (volume : nat)
    (c : list nat) (voxels : array T) :
  vb_wf vb -> combo vb !! volume = Some c -> volume_fits dty vb volume ->
  array_wf voxels -> ncols voxels = dim vb ->
  translate dty vb voxels (Z.of_nat volume)
  = Ok (Array (ncols voxels)
          (imap (fun n x => iadd dty x (int_of_float (stored_shift vb c n))) <$> rows voxels))
  /\ untranslate dty vb voxels (Z.of_nat volume)
     = Ok (Array (ncols voxels)
             (imap (fun n x => isub dty x (int_of_float (stored_shift vb c n))) <$> rows voxels)).
Proof.
  intros Hwf Hc Hfit Hwfa Hcols.
  assert (Hv : 0 <= Z.of_nat volume < Z.of_nat (num_volumes vb)).
  { apply lookup_lt_Some in Hc. unfold num_volumes. lia. }
  rewrite <- (Nat2Z.id volume) in Hfit.
  destruct (asserts_pass vb voxels (Z.of_nat volume) Hv Hcols) as [Ha1 Ha2].
  assert (Hrows : forall op : T -> Z -> T,
            shift_row op (shift_of vb (Z.to_nat (Z.of_nat volume))) (seq 0 (dim vb)) <$> rows voxels
            = imap (fun n x => op x (int_of_float (stored_shift vb c n))) <$> rows voxels).
  { intros op. apply Forall_fmap_ext_1. eapply Forall_impl; [exact Hwfa|].
    intros r Hr. simpl in Hr. rewrite shift_row_imap by lia.
    apply imap_ext. intros n x Hx. simpl. f_equal. rewrite Nat2Z.id.
    apply shift_of_stored; [exact Hwf | exact Hc |].
    apply lookup_lt_Some in Hx. lia. }
  unfold translate, untranslate. rewrite Ha1, Ha2. simpl.
  rewrite !(shift_loop_all dty vb (Z.of_nat volume) Hwf Hv Hfit). simpl.
  rewrite !Hrows. split; reflexivity.
Qed.

(** C10: in volume [volume], whose bins are the row [c] of [combo],
    [translate] adds to coordinate [n], and [untranslate] and [split]
    subtract from it, [int()] of the stored shift, not the stored shift:
    [translate] and [untranslate] when the shifts of the volume fit the dtype
    of the array, [split] when all the shifts and the number of volumes do,
    on the rows that only this volume matches.  The stored shift is 0 for bin 0 and cut [k] for bin
    [k + 1]; [int()] drops its fractional part (towards zero) and changes
    nothing when it is an integer. *)
Theorem applied_shift_is_truncation (dt : int_dtype) (s s' : config_store)
    (vb : VolumeBoundaries) (volume : nat) (c : list nat) :
  VolumeBoundaries_init s = (s', Ok vb) ->
  combo vb !! volume = Some c ->
  let applied := fun n => int_of_float (stored_shift vb c n) in
  (volume_fits (int_ops dt) vb volume ->
   forall voxels : array Z, array_wf voxels -> ncols voxels = dim vb ->
     translate (int_ops dt) vb voxels (Z.of_nat volume)
     = Ok (Array (ncols voxels) (imap (fun n x => int_add dt x (applied n)) <$> rows voxels))
     /\ untranslate (int_ops dt) vb voxels (Z.of_nat volume)
        = Ok (Array (ncols voxels) (imap (fun n x => int_sub dt x (applied n)) <$> rows voxels)))
  /\ (operands_fit dt vb ->
      forall voxels : array Z, array_wf voxels -> ncols voxels = S (dim vb) ->
        exists new_voxels perm,
          split dt vb voxels = Ok (new_voxels, perm)
          /\ forall j row, rows voxels !! j = Some row -> only_in_volume vb volume row ->
               rows new_voxels !! j
               = Some (virtual_batch_id dt volume (nth 0 row 0) (num_volumes vb)
                       :: imap (fun n x => int_sub dt x (applied n)) (drop 1 row)))
  /\ (forall n bin, c !! n = Some bin ->
        match bin with
        | O => stored_shift vb c n = 0%Q
        | S k => exists cuts, boundaries vb !! n = Some (Some cuts)
                              /\ cuts !! k = Some (stored_shift vb c n)
        end)
  /\ (forall n z, (stored_shift vb c n == inject_Z z)%Q -> applied n = z)
  /\ (forall n, (0 <= stored_shift vb c n)%Q ->
        (inject_Z (applied n) <= stored_shift vb c n)%Q
        /\ (stored_shift vb c n < inject_Z (applied n + 1))%Q)
  /\ (forall n, (stored_shift vb c n <= 0)%Q ->
        (inject_Z (applied n - 1) < stored_shift vb c n)%Q
        /\ (stored_shift vb c n <= inject_Z (applied n))%Q).
Proof.
  intros Hinit Hc applied. apply init_Ok in Hinit as (Hwf & _).
  split; [|split; [|split; [|split; [|split]]]].
  - intros Hfit voxels Hwfa Hcols.
    exact (translate_imap (int_ops dt) vb volume c voxels Hwf Hc Hfit Hwfa Hcols).
  - intros Hfit voxels Hwfa Hcols. eexists _, _.
    split; [apply split_rows; assumption|]. simpl.
    intros j row Hrow Honly. rewrite list_lookup_fmap, Hrow. simpl. f_equal.
    apply (split_row_only_in_volume dt vb volume c row Hwf Hc); [|exact Honly].
    rewrite <- Hcols. apply (proj1 (Forall_lookup _ _) Hwfa j row Hrow).
  - intros n bin Hbin.
    apply (stored_shift_cut vb c n bin Hwf); [|exact Hbin].
    eapply list_elem_of_lookup_2. exact Hc.
  - intros n z Hz. apply int_of_float_integer. exact Hz.
  - intros n Hn. apply int_of_float_nonneg. exact Hn.
  - intros n Hn. apply int_of_float_nonpos. exact Hn.
Qed.

Lemma applied_shift_is_truncation_witness :
  translate (int_ops int64) vb_1376 (Array 3 [[0; 0; 0]]) 1 = Ok (Array 3 [[1376; 0; 0]])
  /\ untranslate (int_ops int64) vb_1376 (Array 3 [[1376; 0; 0]]) 1 = Ok (Array 3 [[0; 0; 0]])
  /\ exists new_voxels perm,
       split int64 vb_1376 (Array 4 [[0; 1380; 0; 0]]) = Ok (new_voxels, perm)
       /\ rows new_voxels !! 0%nat = Some [1; 4; 0; 0].
Proof.
  pose proof (applied_shift_is_truncation int64 store_1376 store_1376 vb_1376 1%nat
                [1%nat; 0%nat; 0%nat] init_store_1376 eq_refl) as (Htr & Hsp & _).
  assert (Hfit : volume_fits (int_ops int64) vb_1376 1).
  { intros [|[|[|n]]] Hn; [reflexivity | reflexivity | reflexivity | simpl in Hn; lia]. }
  split; [|split].
  - exact (proj1 (Htr Hfit (Array 3 [[0; 0; 0]]) ltac:(repeat constructor) eq_refl)).
  - exact (proj2 (Htr Hfit (Array 3 [[1376; 0; 0]]) ltac:(repeat constructor) eq_refl)).
  - destruct (Hsp ltac:(repeat constructor) (Array 4 [[0; 1380; 0; 0]])
                ltac:(repeat constructor) eq_refl) as (new_voxels & perm & Hs & Hrow).
    exists new_voxels, perm. split; [exact Hs|].
    apply (Hrow 0%nat [0; 1380; 0; 0] eq_refl).
    intros [|[|v]] c' Hv; [| |discriminate]; injection Hv as <-; reflexivity.
Defined.

(** ** The permutation returned by split *)

Lemma insert_by_perm (key : nat -> Z) (i : nat) (l : list nat) :
  Permutation (insert_by key i l) (i :: l).
Proof.
  induction l as [|j l IH]; simpl; [reflexivity|].
  destruct (key i <=? key j); [reflexivity|].
  rewrite IH. apply perm_swap.
Qed.

Lemma stable_argsort_perm (key : list Z) (l : list nat) :
  Permutation (stable_argsort key l) l.
Proof.
  unfold stable_argsort. induction l as [|i l IH]; simpl; [reflexivity|].
  rewrite insert_by_perm, IH. reflexivity.
Qed.

Lemma insert_by_sorted (key : nat -> Z) (R : nat -> nat -> Prop) (i : nat) (l : list nat) :
  StronglySorted (key_lex key R) l -> Forall (R i) l ->
  StronglySorted (key_lex key R) (insert_by key i l).
Proof.
  induction l as [|j l IH]; intros Hs HR; simpl.
  - repeat constructor.
  - apply StronglySorted_inv in Hs as [Hs Hj].
    apply Forall_cons in HR as [HRj HR].
    destruct (key i <=? key j) eqn:E.
    + apply Z.leb_le in E. constructor; [constructor; assumption|].
      constructor.
      * unfold key_lex. destruct (Z.eq_dec (key i) (key j)); [right; auto | left; lia].
      * apply Forall_forall. intros z Hz.
        pose proof (proj1 (Forall_forall _ _) Hj z Hz) as Hjz.
        pose proof (proj1 (Forall_forall _ _) HR z Hz) as HRz.
        unfold key_lex in *.
        destruct (Z.eq_dec (key i) (key z)); [right; auto | left; lia].
    + apply Z.leb_gt in E. constructor; [apply IH; assumption|].
      rewrite insert_by_perm. constructor; [left; exact E | exact Hj].
Qed.

Lemma stable_argsort_sorted (key : list Z) (R : nat -> nat -> Prop) (l : list nat) :
  StronglySorted R l ->
  StronglySorted (key_lex (fun i => nth i key 0) R) (stable_argsort key l).
Proof.
  unfold stable_argsort. induction l as [|i l IH]; intros Hs; simpl; [constructor|].
  apply StronglySorted_inv in Hs as [Hs Hi].
  apply insert_by_sorted; [apply IH; exact Hs|].
  fold (stable_argsort key l). rewrite stable_argsort_perm. exact Hi.
Qed.

Lemma lexsort_perm (keys : list (list Z)) (n : nat) :
  Permutation (lexsort keys n) (seq 0 n).
Proof.
  unfold lexsort. generalize (seq 0 n) as l.
  induction keys as [|k keys IH]; intros l; simpl; [reflexivity|].
  rewrite IH. apply stable_argsort_perm.
Qed.

Lemma lexsort_sorted (keys : list (list Z)) (n : nat) :
  StronglySorted (lexsort_rel keys) (lexsort keys n).
Proof.
  unfold lexsort, lexsort_rel.
  assert (H0 : StronglySorted le (seq 0 n)).
  { generalize 0%nat as a. induction n as [|n IH]; intros a; simpl; constructor.
    - apply IH.
    - apply Forall_forall. intros x Hx. apply elem_of_seq in Hx. lia. }
  revert H0. generalize (seq 0 n) as l. generalize le as R.
  induction keys as [|k keys IH]; intros R l Hs; simpl; [exact Hs|].
  apply IH. apply stable_argsort_sorted. exact Hs.
Qed.

Lemma nth_column (j i : nat) (rws : list (list Z)) :
  nth i (column j rws) 0 = nth j (nth i rws []) 0.
Proof.
  unfold column. revert i. induction rws as [|r rws IH]; intros i.
  - destruct i, j; reflexivity.
  - destruct i as [|i]; [reflexivity | apply IH].
Qed.

Lemma coord_keys_rel (rws : list (list Z)) (i j d : nat) :
  (d <= length (drop 1 (nth i rws [])))%nat ->
  (d <= length (drop 1 (nth j rws [])))%nat ->
  lexsort_rel ((fun k => column k rws) <$> seq 1 d) i j ->
  lex_le (reverse (take d (drop 1 (nth i rws [])))) (reverse (take d (drop 1 (nth j rws [])))).
Proof.
  unfold lexsort_rel. induction d as [|d IH]; intros Hi Hj.
  - intros _. exact I.
  - rewrite seq_S, fmap_app, foldl_app. cbn [fmap list_fmap foldl]. unfold key_lex at 1.
    rewrite !nth_column.
    destruct (lookup_lt_is_Some_2 (drop 1 (nth i rws [])) d ltac:(lia)) as [x Hx].
    destruct (lookup_lt_is_Some_2 (drop 1 (nth j rws [])) d ltac:(lia)) as [y Hy].
    rewrite (take_S_r _ _ _ Hx), (take_S_r _ _ _ Hy), !reverse_snoc. simpl.
    assert (Hx' : nth (S d) (nth i rws []) 0 = x).
    { rewrite lookup_drop in Hx. simpl in Hx. rewrite nth_lookup, Hx. reflexivity. }
    assert (Hy' : nth (S d) (nth j rws []) 0 = y).
    { rewrite lookup_drop in Hy. simpl in Hy. rewrite nth_lookup, Hy. reflexivity. }
    rewrite Hx', Hy'. intros [Hlt | [Heq HR]]; [left; exact Hlt | right].
    split; [exact Heq | apply IH; [lia | lia | exact HR]].
Qed.

Lemma sort_keys_rel (rws : list (list Z)) (i j d : nat) :
  length (nth i rws []) = S d -> length (nth j rws []) = S d ->
  lexsort_rel (sort_keys d rws) i j ->
  lex_le (sort_key (nth i rws [])) (sort_key (nth j rws [])).
Proof.
  intros Hi Hj. unfold sort_keys, lexsort_rel.
  rewrite fmap_app, foldl_app. cbn [fmap list_fmap foldl]. unfold key_lex at 1.
  rewrite !nth_column.
  intros [Hlt | [Heq HR]]; [left; exact Hlt | right]. split; [exact Heq|].
  apply coord_keys_rel in HR; [|rewrite length_drop; lia..].
  rewrite !take_ge in HR by (rewrite length_drop; lia). exact HR.
Qed.

Lemma fancy_index_nth {A : Type} (l : list A) (perm : list nat) (d : A) :
  Forall (fun i => i < length l)%nat perm ->
  fancy_index l perm = (fun i => nth i l d) <$> perm.
Proof.
  unfold fancy_index. induction 1 as [|i perm Hi _ IH]; [reflexivity|].
  rewrite fmap_cons. cbn [omap list_omap].
  destruct (lookup_lt_is_Some_2 l i Hi) as [x Hx]. rewrite Hx.
  f_equal; [rewrite nth_lookup, Hx; reflexivity | exact IH].
Qed.

Lemma StronglySorted_fmap_in {A B : Type} (R : A -> A -> Prop) (R' : B -> B -> Prop)
    (f : A -> B) (l : list A) :
  (forall i j, i ∈ l -> j ∈ l -> R i j -> R' (f i) (f j)) ->
  StronglySorted R l -> StronglySorted R' (f <$> l).
Proof.
  intros Hf Hs. induction Hs as [|i l Hs IH Hi]; [constructor|].
  rewrite fmap_cons. constructor.
  - apply IH. intros a b Ha Hb. apply Hf; right; assumption.
  - apply Forall_fmap. apply Forall_forall. intros j Hj. simpl.
    apply Hf; [left | right; exact Hj | exact (proj1 (Forall_forall _ _) Hi j Hj)].
Qed.

Lemma length_row_loop (dt : int_dtype) (vb : VolumeBoundaries) (row : list Z)
    (cs : list (list nat)) (idx : nat) (st : Z * list Z) :
  length (row_loop dt vb row idx cs st).2 = length st.2.
Proof.
  revert idx st. induction cs as [|c cs IH]; intros idx st; simpl; [reflexivity|].
  rewrite IH. unfold row_step. destruct (row_in_volume vb c (drop 1 row)); [|reflexivity].
  simpl. apply length_shift_row.
Qed.

Lemma length_split_row (dt : int_dtype) (vb : VolumeBoundaries) (row : list Z) :
  row <> [] -> length (split_row dt vb row) = length row.
Proof.
  intros Hne. unfold split_row. simpl. rewrite length_row_loop. simpl.
  rewrite length_drop. destruct row; [contradiction | simpl; lia].
Qed.

(** C2 as the code has it: when the shifts and the number of volumes fit the
    dtype of the array, [split] returns, the permutation it returns is a
    permutation of the row numbers, and the rows of the output taken in that order are sorted
    lexicographically with the virtual batch id as the most significant key,
    then the last coordinate, down to the first coordinate as the least
    significant key. *)
Theorem split_perm_sorts_batch_id_first (dt : int_dtype) (s s' : config_store)
    (vb : VolumeBoundaries) (voxels : array Z) :
  VolumeBoundaries_init s = (s', Ok vb) ->
  operands_fit dt vb ->
  array_wf voxels -> ncols voxels = S (dim vb) ->
  exists new_voxels perm,
    split dt vb voxels = Ok (new_voxels, perm)
    /\ Permutation perm (seq 0 (length (rows voxels)))
    /\ length (fancy_index (rows new_voxels) perm) = length (rows voxels)
    /\ StronglySorted (fun r1 r2 => lex_le (sort_key r1) (sort_key r2))
         (fancy_index (rows new_voxels) perm).
Proof.
  intros Hinit Hfit Hwfa Hcols. apply init_Ok in Hinit as (Hwf & _).
  eexists _, _. split; [apply split_rows; assumption|]. simpl.
  set (new_rows := split_row dt vb <$> rows voxels).
  set (perm := lexsort (sort_keys (dim vb) new_rows) (length (rows voxels))).
  assert (Hperm : Permutation perm (seq 0 (length (rows voxels)))) by apply lexsort_perm.
  assert (Hlt : Forall (fun i => i < length new_rows)%nat perm).
  { apply Forall_forall. intros i Hi. rewrite Hperm in Hi. apply elem_of_seq in Hi.
    subst new_rows. rewrite length_fmap. lia. }
  assert (Hlen : forall i, (i < length new_rows)%nat -> length (nth i new_rows []) = S (dim vb)).
  { intros i Hi. destruct (lookup_lt_is_Some_2 _ _ Hi) as [r Hr].
    rewrite nth_lookup, Hr. simpl. subst new_rows.
    apply list_lookup_fmap_Some in Hr as (row & -> & Hrow).
    pose proof (proj1 (Forall_lookup _ _) Hwfa i row Hrow) as Hl. simpl in Hl.
    rewrite length_split_row; [lia | intros ->; simpl in Hl; lia]. }
  split; [exact Hperm|].
  rewrite (fancy_index_nth _ _ []) by exact Hlt.
  split; [rewrite length_fmap, Hperm, length_seq; reflexivity|].
  apply (StronglySorted_fmap_in (lexsort_rel (sort_keys (dim vb) new_rows)));
    [|apply lexsort_sorted].
  intros i j Hi Hj HR.
  apply (sort_keys_rel new_rows i j (dim vb)); [| |exact HR]; apply Hlen.
  - exact (proj1 (Forall_forall _ _) Hlt i Hi).
  - exact (proj1 (Forall_forall _ _) Hlt j Hj).
Qed.

Lemma split_perm_sorts_batch_id_first_witness :
  exists new_voxels perm,
    split int64 vb_none_1d (Array 2 [[1; 0]; [0; 5]]) = Ok (new_voxels, perm)
    /\ Permutation perm (seq 0 2)
    /\ length (fancy_index (rows new_voxels) perm) = 2%nat
    /\ StronglySorted (fun r1 r2 => lex_le (sort_key r1) (sort_key r2))
         (fancy_index (rows new_voxels) perm).
Proof.
  apply (split_perm_sorts_batch_id_first int64 store_none_1d store_none_1d vb_none_1d
           (Array 2 [[1; 0]; [0; 5]]) init_store_none_1d).
  - repeat constructor.
  - repeat constructor.
  - reflexivity.
Defined.

(** One dimension, no boundary, the rows (batch 1, x = 0) and (batch 0,
    x = 5): [split] returns the permutation [1, 0], which puts batch 0 first;
    in the order whose most significant key is the coordinate, x = 5 does not
    come before x = 0. *)
Lemma split_perm_batch_id_not_least_significant :
  VolumeBoundaries_init store_none_1d = (store_none_1d, Ok vb_none_1d)
  /\ split int64 vb_none_1d (Array 2 [[1; 0]; [0; 5]])
     = Ok (Array 2 [[1; 0]; [0; 5]], [1%nat; 0%nat])
  /\ ~ StronglySorted (fun r1 r2 => lex_le (batch_last_key r1) (batch_last_key r2))
         (fancy_index [[1; 0]; [0; 5]] [1%nat; 0%nat]).
Proof.
  split; [exact init_store_none_1d|]. split; [vm_compute; reflexivity|].
  intros H. change (fancy_index [[1; 0]; [0; 5]] [1%nat; 0%nat]) with [[0; 5]; [1; 0]] in H.
  apply StronglySorted_inv in H as [_ H]. apply Forall_cons in H as [H _].
  simpl in H. destruct H as [H | [H _]]; lia.
Qed.

(** ** CollateSparse: errors *)

Lemma CollateSparse_result (sp : particles_split) (dt : int_dtype) (batch : list sample)
    (kwargs : option config_store) :
  (CollateSparse sp dt batch kwargs).2
  = (vbo ← volume_boundaries_of kwargs;
     b0 ← getitem batch 0;
     mapM (fun key => v ← collate_key sp dt vbo batch key; Ok (key, v)) (b0.*1)).
Proof.
  unfold CollateSparse, volume_boundaries_of. destruct kwargs as [s|]; [|reflexivity].
  destruct (VolumeBoundaries_init s) as [s' r]. reflexivity.
Qed.

(** C7 as the code has it: with an empty batch, [batch[0]] raises
    [IndexError]; a boundaries configuration that [VolumeBoundaries] rejects
    raises its own error before that. *)
Theorem collate_empty_batch_raises_IndexError (sp : particles_split) (dt : int_dtype)
    (kwargs : option config_store) :
  (CollateSparse sp dt [] kwargs).2
  = match volume_boundaries_of kwargs with
    | Ok _ => Raise "IndexError"%string
    | Raise e => Raise e
    end.
Proof.
  rewrite CollateSparse_result. destruct (volume_boundaries_of kwargs); reflexivity.
Qed.

Lemma collate_empty_batch_not_EmptyBatchError :
  (CollateSparse not_reached int32 [] None).2 = Raise "IndexError"%string
  /\ (CollateSparse not_reached int32 [] None).2 <> Raise "EmptyBatchError"%string.
Proof. split; [reflexivity | discriminate]. Qed.

Lemma dict_get_middle (pre post : sample) (k : string) (v : value) :
  k ∉ pre.*1 -> dict_get (pre ++ (k, v) :: post) k = Ok v.
Proof.
  induction pre as [|[k' v'] pre IH]; intros Hk; simpl.
  - rewrite String.eqb_refl. reflexivity.
  - rewrite fmap_cons in Hk. apply not_elem_of_cons in Hk as [Hne Hk]. simpl in Hne.
    destruct (String.eqb_spec k' k) as [->|_]; [contradiction | apply IH; exact Hk].
Qed.

Lemma mapM_app_Raise {A B : Type} (f : A -> result B) (l1 l2 : list A) (a : A) (e : exn) :
  Forall (fun x => exists b, f x = Ok b) l1 -> f a = Raise e ->
  mapM f (l1 ++ a :: l2) = Raise e.
Proof.
  intros H1 Ha. induction H1 as [|x l1 [b Hb] _ IH]; simpl.
  - rewrite Ha. reflexivity.
  - rewrite Hb. simpl. rewrite IH. reflexivity.
Qed.

Lemma ndim_1 (a : ndarray) : ndim a = 1%nat -> exists n, shape a = [n].
Proof. unfold ndim. destruct (shape a) as [|n [|m l]]; try discriminate. eauto. Qed.

Lemma ndim_2 (a : ndarray) : ndim a = 2%nat -> exists n m, shape a = [n; m].
Proof. unfold ndim. destruct (shape a) as [|n [|m [|k l]]]; try discriminate. eauto. Qed.

Lemma collate_key_rank_mismatch (sp : particles_split) (dt : int_dtype)
    (vbo : option VolumeBoundaries) (s0 s1 : sample) (k : string) (a b : ndarray) :
  k <> "particles_label"%string ->
  dict_get s0 k = Ok (VArray a) -> dict_get s1 k = Ok (VArray b) ->
  rank_mismatch a b ->
  collate_key sp dt vbo [s0; s1] k = Raise "ValueError"%string.
Proof.
  intros Hk H0 H1 Hr. unfold collate_key.
  destruct (String.eqb_spec k "particles_label") as [->|_]; [contradiction|].
  simpl. rewrite H0. simpl.
  destruct Hr as [[Ha Hb] | [Ha Hb]]; rewrite Ha; simpl.
  - apply ndim_1 in Ha as [n Ha]. apply ndim_2 in Hb as (n' & m & Hb).
    unfold with_batch_id. simpl. rewrite H0, H1. simpl.
    unfold expand_dims. rewrite Ha, Hb. simpl.
    rewrite !bool_decide_eq_true_2 by reflexivity. simpl.
    rewrite ?andb_false_r. reflexivity.
  - apply ndim_2 in Ha as (n & m & Ha). apply ndim_1 in Hb as [n' Hb].
    unfold with_batch_id. simpl. rewrite H0, H1. simpl.
    rewrite Ha, Hb. simpl. unfold ndim, to_float, np_full_float32, full_column.
    cbn [shape]. rewrite Ha, Hb. simpl.
    rewrite !bool_decide_eq_true_2 by reflexivity. simpl.
    rewrite ?andb_false_r. reflexivity.
Qed.

(** C8 as the code has it: two events, a key other than ['particles_label']
    whose value is a 1-D array in one event and a 2-D array in the other,
    the boundaries configuration accepted and the keys before it collated:
    [np.concatenate] raises [ValueError]. *)
Theorem collate_rank_mismatch_raises_ValueError (sp : particles_split) (dt : int_dtype)
    (kwargs : option config_store) (vbo : option VolumeBoundaries) (pre post s1 : sample)
    (k : string) (a b : ndarray) :
  volume_boundaries_of kwargs = Ok vbo ->
  k <> "particles_label"%string -> k ∉ pre.*1 ->
  dict_get s1 k = Ok (VArray b) ->
  rank_mismatch a b ->
  Forall (fun key => exists v, collate_key sp dt vbo [pre ++ (k, VArray a) :: post; s1] key = Ok v)
    (pre.*1) ->
  (CollateSparse sp dt [pre ++ (k, VArray a) :: post; s1] kwargs).2 = Raise "ValueError"%string.
Proof.
  intros Hvb Hk Hpre H1 Hr Hbefore.
  rewrite CollateSparse_result, Hvb. simpl.
  rewrite fmap_app, fmap_cons. simpl.
  apply mapM_app_Raise.
  - eapply Forall_impl; [exact Hbefore|]. intros key [v Hv]. rewrite Hv. simpl. eauto.
  - rewrite (collate_key_rank_mismatch sp dt vbo _ s1 k a b Hk); try assumption; [reflexivity|].
    apply dict_get_middle. exact Hpre.
Qed.

Lemma collate_rank_mismatch_raises_ValueError_witness :
  (CollateSparse not_reached int32
     [[("x"%string, VArray array_1d)]; [("x"%string, VArray array_2d)]] None).2
  = Raise "ValueError"%string
  /\ (CollateSparse not_reached int32
        [[("x"%string, VArray array_2d)]; [("x"%string, VArray array_1d)]] None).2
     = Raise "ValueError"%string.
Proof.
  split.
  - apply (collate_rank_mismatch_raises_ValueError not_reached int32 None None [] []
             [("x"%string, VArray array_2d)] "x" array_1d array_2d).
    + reflexivity.
    + discriminate.
    + apply not_elem_of_nil.
    + reflexivity.
    + left. split; reflexivity.
    + constructor.
  - apply (collate_rank_mismatch_raises_ValueError not_reached int32 None None [] []
             [("x"%string, VArray array_1d)] "x" array_2d array_1d).
    + reflexivity.
    + discriminate.
    + apply not_elem_of_nil.
    + reflexivity.
    + right. split; reflexivity.
    + constructor.
Defined.

Lemma collate_rank_mismatch_not_SchemaError :
  (CollateSparse not_reached int32
     [[("x"%string, VArray array_1d)]; [("x"%string, VArray array_2d)]] None).2
  = Raise "ValueError"%string
  /\ (CollateSparse not_reached int32
        [[("x"%string, VArray array_1d)]; [("x"%string, VArray array_2d)]] None).2
     <> Raise "SchemaError"%string.
Proof. split; [vm_compute; reflexivity | vm_compute; discriminate]. Qed.

(** ** CollateSparse: what it writes *)

Lemma list_sort_ascending (l : list Q) : ascending l -> list_sort l = l.
Proof.
  unfold ascending. induction 1 as [|x l Hs IH Hhd]; [reflexivity|].
  simpl. fold (list_sort l). rewrite IH.
  destruct Hhd as [|y l Hxy]; simpl; [reflexivity | rewrite Hxy; reflexivity].
Qed.

Lemma sanity_check_normalised (n i : nat) (s : config_store) :
  normalised s -> (sanity_check n i s).1 = s.
Proof.
  intros Hn. revert i. induction n as [|n IH]; intros i; cbn [sanity_check]; [reflexivity|].
  destruct (outer s !! i) as [it|] eqn:Hit; [|reflexivity].
  pose proof (proj1 (Forall_lookup _ _) Hn i it Hit) as Hok.
  destruct it as [| |l|]; [contradiction | apply IH | | reflexivity].
  destruct (cuts_heap s !! l) as [[|c cs]|] eqn:Hl; [reflexivity| |reflexivity].
  rewrite (list_sort_ascending (c :: cs)) by (apply Hok; reflexivity).
  rewrite (insert_id _ _ _ Hl). destruct s as [o h]. simpl. apply IH.
Qed.

(** Only [__init__] writes to the caller's lists. *)
Lemma CollateSparse_store (sp : particles_split) (dt : int_dtype) (batch : list sample)
    (s : config_store) :
  (CollateSparse sp dt batch (Some s)).1 = Some (VolumeBoundaries_init s).1.
Proof.
  unfold CollateSparse. destruct (VolumeBoundaries_init s) as [s' r]. reflexivity.
Qed.

(** ** [__init__]: which configurations it accepts and what it leaves behind *)

Lemma valid_itemb_spec (h : gmap loc (list Q)) (it : item) :
  valid_itemb h it = true <-> valid_item h it.
Proof.
  destruct it as [| |l|]; simpl; try tauto; try (split; [discriminate | contradiction]).
  destruct (h !! l) as [[|c cs]|]; split; try discriminate; eauto;
    intros (c' & cs' & [=]).
Qed.

Lemma Qle_bool_total (x y : Q) : Qle_bool x y = false -> Qle_bool y x = true.
Proof.
  intros H. apply Qle_bool_iff. apply Qlt_le_weak. apply Qnot_le_lt.
  intros Hle. apply Qle_bool_iff in Hle. congruence.
Qed.

Lemma insert_sorted_ascending (x : Q) (l : list Q) :
  ascending l -> ascending (insert_sorted x l).
Proof.
  unfold ascending. induction 1 as [|y l Hs IH Hhd]; simpl.
  - repeat constructor.
  - destruct (Qle_bool x y) eqn:E.
    + constructor; [constructor; assumption | constructor; exact E].
    + constructor; [exact IH|].
      apply Qle_bool_total in E.
      destruct Hhd as [|z l Hyz]; simpl; [constructor; exact E|].
      destruct (Qle_bool x z); constructor; assumption.
Qed.

Lemma list_sort_sorted (l : list Q) : ascending (list_sort l).
Proof.
  induction l as [|x l IH]; simpl; [constructor|].
  apply insert_sorted_ascending. exact IH.
Qed.

Lemma insert_sorted_perm (x : Q) (l : list Q) : Permutation (insert_sorted x l) (x :: l).
Proof.
  induction l as [|y l IH]; simpl; [reflexivity|].
  destruct (Qle_bool x y); [reflexivity|]. rewrite IH. apply perm_swap.
Qed.

Lemma list_sort_perm (l : list Q) : Permutation (list_sort l) l.
Proof.
  induction l as [|x l IH]; simpl; [reflexivity|].
  fold (list_sort l). rewrite insert_sorted_perm, IH. reflexivity.
Qed.

Lemma list_sort_idemp (l : list Q) : list_sort (list_sort l) = list_sort l.
Proof. apply list_sort_ascending, list_sort_sorted. Qed.

Lemma list_sort_cons (c : Q) (cs : list Q) : exists c' cs', list_sort (c :: cs) = c' :: cs'.
Proof.
  pose proof (length_list_sort (c :: cs)) as H.
  destruct (list_sort (c :: cs)) as [|c' cs']; [discriminate | eauto].
Qed.

(** The heap after the loop, whatever its outcome: a list is as it was or
    sorted, and it is sorted only if [definitions] refers to it; if the loop
    ends, every list that [definitions] refers to is sorted. *)
Lemma sanity_check_heap (n i : nat) (s s' : config_store) (r : result unit) :
  sanity_check n i s = (s', r) ->
  (forall l, cuts_heap s' !! l = cuts_heap s !! l
             \/ (IRef l ∈ drop i (outer s)
                 /\ cuts_heap s' !! l = list_sort <$> cuts_heap s !! l))
  /\ (r = Ok tt -> (i + n)%nat = length (outer s) ->
      forall l, IRef l ∈ drop i (outer s) ->
                cuts_heap s' !! l = list_sort <$> cuts_heap s !! l).
Proof.
  revert i s. induction n as [|n IH]; intros i s Hrun; cbn [sanity_check] in Hrun.
  - injection Hrun as <- <-. split; [intros l; left; reflexivity|].
    intros _ Hlen l Hl. rewrite drop_ge in Hl by lia. inversion Hl.
  - destruct (outer s !! i) as [it|] eqn:Hit.
    2:{ injection Hrun as <- <-. split; [intros l; left; reflexivity | discriminate]. }
    rewrite (drop_S _ _ _ Hit).
    assert (Hi : (i < length (outer s))%nat) by (eapply lookup_lt_Some; exact Hit).
    destruct it as [| |l0|].
    + apply IH in Hrun as [H1 H2]. simpl in H1, H2.
      rewrite drop_insert_lt in H1, H2 by lia. rewrite length_insert in H2. split.
      * intros l. destruct (H1 l) as [H|[Hin H]]; [left; exact H | right].
        split; [right; exact Hin | exact H].
      * intros Hr Hlen l Hl. apply elem_of_cons in Hl as [Hl|Hl]; [discriminate|].
        apply H2; [exact Hr | lia | exact Hl].
    + apply IH in Hrun as [H1 H2]. split.
      * intros l. destruct (H1 l) as [H|[Hin H]]; [left; exact H | right].
        split; [right; exact Hin | exact H].
      * intros Hr Hlen l Hl. apply elem_of_cons in Hl as [Hl|Hl]; [discriminate|].
        apply H2; [exact Hr | lia | exact Hl].
    + destruct (cuts_heap s !! l0) as [[|c cs]|] eqn:Hl0.
      1,3: injection Hrun as <- <-; (split; [intros l; left; reflexivity | discriminate]).
      apply IH in Hrun as [H1 H2]. simpl in H1, H2.
      assert (Hstep : forall l, (<[l0 := list_sort (c :: cs)]> (cuts_heap s)) !! l
                                = if decide (l = l0) then list_sort <$> cuts_heap s !! l
                                  else cuts_heap s !! l).
      { intros l. destruct (decide (l = l0)) as [->|Hne].
        - rewrite lookup_insert_eq, Hl0. reflexivity.
        - rewrite lookup_insert_ne by congruence. reflexivity. }
      assert (Hidem : forall l, list_sort <$> (list_sort <$> cuts_heap s !! l)
                                = list_sort <$> cuts_heap s !! l).
      { intros l. destruct (cuts_heap s !! l); simpl; [|reflexivity].
        rewrite list_sort_idemp. reflexivity. }
      split.
      * intros l. destruct (H1 l) as [H|[Hin H]]; rewrite Hstep in H;
          destruct (decide (l = l0)) as [->|Hne].
        -- right. split; [left | exact H].
        -- left. exact H.
        -- right. split; [left | rewrite Hidem in H; exact H].
        -- right. split; [right; exact Hin | exact H].
      * intros Hr Hlen l Hl.
        apply elem_of_cons in Hl as [[= ->]|Hl].
        -- destruct (H1 l0) as [H|[_ H]]; rewrite Hstep in H;
             destruct (decide (l0 = l0)) as [_|Hne]; try contradiction.
           ++ exact H.
           ++ rewrite Hidem in H. exact H.
        -- rewrite (H2 Hr ltac:(lia) l Hl), Hstep.
           destruct (decide (l = l0)); [apply Hidem | reflexivity].
    + injection Hrun as <- <-. split; [intros l; left; reflexivity | discriminate].
Qed.

Lemma valid_itemb_sorted (h : gmap loc (list Q)) (l : loc) (c : Q) (cs : list Q) (it : item) :
  h !! l = Some (c :: cs) ->
  valid_itemb (<[l := list_sort (c :: cs)]> h) it = valid_itemb h it.
Proof.
  intros Hl. destruct it as [| |l'|]; try reflexivity. cbn [valid_itemb].
  destruct (decide (l' = l)) as [->|Hne].
  - rewrite lookup_insert_eq, Hl. destruct (list_sort_cons c cs) as (c' & cs' & ->). reflexivity.
  - rewrite lookup_insert_ne by congruence. reflexivity.
Qed.

Lemma forallb_pointwise {A : Type} (f g : A -> bool) (l : list A) :
  (forall a, f a = g a) -> forallb f l = forallb g l.
Proof. intros H. induction l as [|a l IH]; simpl; [reflexivity | rewrite H, IH; reflexivity]. Qed.

(** The loop ends normally exactly when every item it visits is acceptable,
    and raises [AssertionError] otherwise. *)
Lemma sanity_check_result (n i : nat) (s : config_store) :
  (i + n)%nat = length (outer s) ->
  (sanity_check n i s).2
  = if forallb (valid_itemb (cuts_heap s)) (drop i (outer s)) then Ok tt
    else Raise "AssertionError"%string.
Proof.
  revert i s. induction n as [|n IH]; intros i s Hlen; cbn [sanity_check].
  - rewrite drop_ge by lia. reflexivity.
  - assert (Hi : (i < length (outer s))%nat) by lia.
    destruct (lookup_lt_is_Some_2 _ _ Hi) as [it Hit]. rewrite Hit.
    rewrite (drop_S _ _ _ Hit). cbn [forallb].
    destruct it as [| |l|]; cbn [valid_itemb andb].
    + rewrite IH by (simpl; rewrite length_insert; lia). simpl.
      rewrite drop_insert_lt by lia. reflexivity.
    + apply IH. lia.
    + destruct (cuts_heap s !! l) as [[|c cs]|] eqn:Hl; try reflexivity.
      rewrite IH by (simpl; lia). simpl.
      rewrite (forallb_pointwise _ (valid_itemb (cuts_heap s)))
        by (intros it; apply valid_itemb_sorted; exact Hl).
      reflexivity.
    + reflexivity.
Qed.

Lemma forallb_valid (h : gmap loc (list Q)) (l : list item) :
  forallb (valid_itemb h) l = true <-> Forall (valid_item h) l.
Proof.
  rewrite forallb_forall, Forall_forall. split; intros H it Hit.
  - apply valid_itemb_spec, H, list_elem_of_In, Hit.
  - apply valid_itemb_spec, H, list_elem_of_In, Hit.
Qed.

(** X1: which configurations [VolumeBoundaries] accepts. *)
Theorem init_accepts_valid_definitions (s : config_store) :
  (outer s = [] -> (VolumeBoundaries_init s).2 = Raise "ValueError"%string)
  /\ (outer s <> [] /\ Forall (valid_item (cuts_heap s)) (outer s)
      <-> exists vb, (VolumeBoundaries_init s).2 = Ok vb)
  /\ (~ Forall (valid_item (cuts_heap s)) (outer s)
      <-> (VolumeBoundaries_init s).2 = Raise "AssertionError"%string).
Proof.
  unfold VolumeBoundaries_init.
  pose proof (sanity_check_result (length (outer s)) 0 s eq_refl) as Hr.
  pose proof (sanity_check_Ok (length (outer s)) 0 s) as HOk.
  destruct (sanity_check (length (outer s)) 0 s) as [s1 r]. simpl in Hr.
  rewrite drop_0 in Hr. cbn [snd].
  destruct (forallb (valid_itemb (cuts_heap s)) (outer s)) eqn:Hv; subst r.
  - apply forallb_valid in Hv.
    destruct (HOk s1 eq_refl eq_refl) as (Ho & _ & Hok).
    rewrite take_0, drop_0 in *. simpl in Ho.
    assert (Hread : exists bs, mapM (read_boundary s1) (outer s1) = Ok bs
                               /\ length bs = length (outer s)).
    { rewrite Ho. clear Ho Hv HOk. induction Hok as [|it l Hit _ (bs & IH & Hlen)].
      - exists []. split; reflexivity.
      - rewrite fmap_cons. cbn [mapM]. rewrite IH.
        destruct it as [| |l'|]; simpl; try contradiction.
        + exists (None :: bs). simpl. rewrite Hlen. split; reflexivity.
        + exists (None :: bs). simpl. rewrite Hlen. split; reflexivity.
        + destruct Hit as (c & cs & ->). simpl.
          exists (Some (c :: cs) :: bs). simpl. rewrite Hlen. split; reflexivity. }
    destruct Hread as (bs & -> & Hlen). simpl.
    destruct (outer s) as [|it its] eqn:Hos.
    + destruct bs; [|discriminate]. simpl.
      split; [reflexivity|]. split; split.
      * intros [H _]. contradiction.
      * intros [vb [=]].
      * intros H. exfalso. apply H. constructor.
      * discriminate.
    + destruct bs as [|b bs]; [discriminate|]. simpl.
      split; [discriminate|]. split; split.
      * intros _. eexists. reflexivity.
      * intros _. split; [discriminate | exact Hv].
      * intros H. contradiction.
      * discriminate.
  - assert (Hnv : ~ Forall (valid_item (cuts_heap s)) (outer s)).
    { intros H. apply forallb_valid in H. congruence. }
    simpl. split; [|split; split].
    + intros Hnil. rewrite Hnil in Hv. discriminate.
    + intros [_ H]. contradiction.
    + intros [vb [=]].
    + reflexivity.
    + intros _. exact Hnv.
Qed.

Lemma init_sanity_check (s s' : config_store) (vb : VolumeBoundaries) :
  VolumeBoundaries_init s = (s', Ok vb) ->
  sanity_check (length (outer s)) 0 s = (s', Ok tt)
  /\ (bs ← mapM (read_boundary s') (outer s'); build bs) = Ok vb.
Proof.
  unfold VolumeBoundaries_init.
  destruct (sanity_check (length (outer s)) 0 s) as [s1 [[]|e]]; [|discriminate].
  intros [= -> H]. split; [reflexivity | exact H].
Qed.

Lemma init_heap_sorted (s s' : config_store) (vb : VolumeBoundaries) :
  VolumeBoundaries_init s = (s', Ok vb) ->
  forall l, IRef l ∈ outer s -> cuts_heap s' !! l = list_sort <$> cuts_heap s !! l.
Proof.
  intros Hinit l Hl. apply init_sanity_check in Hinit as [Hrun _].
  apply sanity_check_heap in Hrun as [_ H]. apply H; [reflexivity | reflexivity |].
  rewrite drop_0. exact Hl.
Qed.

(** X2: the boundaries the object works with are the configured cuts in
    ascending order, and the caller's lists are left in that order. *)
Theorem init_sorts_the_cuts (s s' : config_store) (vb : VolumeBoundaries) :
  VolumeBoundaries_init s = (s', Ok vb) ->
  Forall2 (fun it b =>
             match cuts_of (cuts_heap s) it with
             | None => b = None
             | Some cuts => exists sorted, b = Some sorted /\ ascending sorted
                                           /\ Permutation sorted cuts
             end) (outer s) (boundaries vb)
  /\ (forall l cuts, IRef l ∈ outer s -> cuts_heap s !! l = Some cuts ->
        exists sorted, cuts_heap s' !! l = Some sorted /\ ascending sorted
                       /\ Permutation sorted cuts).
Proof.
  intros Hinit. pose proof (init_heap_sorted _ _ _ Hinit) as Hheap.
  apply init_Ok in Hinit as (_ & -> & _ & _). split.
  - apply Forall2_fmap_r, Forall_Forall2_diag, Forall_forall. intros it Hit.
    destruct it as [| |l|]; simpl; try reflexivity.
    exists (list_sort (default [] (cuts_heap s !! l))).
    rewrite (Hheap l Hit). split; [|split].
    + destruct (cuts_heap s !! l); reflexivity.
    + apply list_sort_sorted.
    + apply list_sort_perm.
  - intros l cuts Hl Hcuts. exists (list_sort cuts). rewrite (Hheap l Hl), Hcuts.
    split; [reflexivity|]. split; [apply list_sort_sorted | apply list_sort_perm].
Qed.

Lemma init_sorts_the_cuts_witness :
  Forall2 (fun it b =>
             match cuts_of (cuts_heap store_20_10) it with
             | None => b = None
             | Some cuts => exists sorted, b = Some sorted /\ ascending sorted
                                           /\ Permutation sorted cuts
             end) (outer store_20_10) (boundaries vb_10_20)
  /\ (forall l cuts, IRef l ∈ outer store_20_10 -> cuts_heap store_20_10 !! l = Some cuts ->
        exists sorted, cuts_heap store_10_20 !! l = Some sorted /\ ascending sorted
                       /\ Permutation sorted cuts).
Proof.
  apply (init_sorts_the_cuts store_20_10 store_10_20 vb_10_20).
  vm_compute. reflexivity.
Defined.

Lemma valid_item_normalise (h : gmap loc (list Q)) (it : item) :
  valid_itemb h (normalise_item it) = valid_itemb h it.
Proof. destruct it; reflexivity. Qed.

(** What a successful [__init__] leaves behind needs no further change. *)
Lemma init_normalises (s s' : config_store) (vb : VolumeBoundaries) :
  VolumeBoundaries_init s = (s', Ok vb) -> normalised s'.
Proof.
  intros Hinit. pose proof (init_heap_sorted _ _ _ Hinit) as Hheap.
  apply init_Ok in Hinit as (_ & _ & Ho & _).
  unfold normalised. rewrite Ho. apply Forall_fmap, Forall_forall. intros it Hit.
  destruct it as [| |l|]; simpl; try exact I.
  intros cuts Hcuts. rewrite (Hheap l Hit) in Hcuts.
  destruct (cuts_heap s !! l) as [cuts0|]; [|discriminate].
  injection Hcuts as <-. apply list_sort_sorted.
Qed.

(** X3: building a second object from the configuration the first one left
    behind gives the same object and changes nothing; so [CollateSparse]
    called with the configuration an earlier call left behind returns what it
    returns for the original one, and leaves the configuration as it is. *)
Theorem init_again_same_object (s s' : config_store) (vb : VolumeBoundaries) :
  VolumeBoundaries_init s = (s', Ok vb) ->
  VolumeBoundaries_init s' = (s', Ok vb)
  /\ forall sp dt batch,
       CollateSparse sp dt batch (Some s') = (Some s', (CollateSparse sp dt batch (Some s)).2).
Proof.
  intros Hinit. pose proof (init_normalises _ _ _ Hinit) as Hn.
  pose proof (init_sanity_check _ _ _ Hinit) as [Hrun Hbuild].
  apply sanity_check_Ok in Hrun as (Ho & _ & Hok); [|reflexivity].
  rewrite take_0, drop_0 in *. simpl in Ho.
  pose proof (sanity_check_normalised (length (outer s')) 0 s' Hn) as Hstore.
  pose proof (sanity_check_result (length (outer s')) 0 s' eq_refl) as Hres.
  rewrite drop_0 in Hres.
  assert (Hv : forallb (valid_itemb (cuts_heap s')) (outer s') = true).
  { rewrite Ho. apply forallb_forall. intros it' Hit'.
    apply list_elem_of_In, list_elem_of_fmap in Hit' as (it & -> & Hit).
    rewrite valid_item_normalise. rewrite Forall_forall in Hok.
    specialize (Hok it Hit). destruct it as [| |l|]; simpl; try reflexivity; try contradiction.
    destruct Hok as (c & cs & ->). reflexivity. }
  rewrite Hv in Hres.
  assert (Hagain : VolumeBoundaries_init s' = (s', Ok vb)).
  { unfold VolumeBoundaries_init.
    destruct (sanity_check (length (outer s')) 0 s') as [s2 r]. simpl in Hstore, Hres.
    subst s2 r. simpl. f_equal. exact Hbuild. }
  split; [exact Hagain|].
  intros sp dt batch. unfold CollateSparse. rewrite Hinit, Hagain. reflexivity.
Qed.

Lemma init_again_same_object_witness :
  VolumeBoundaries_init store_10_20 = (store_10_20, Ok vb_10_20)
  /\ forall sp dt batch,
       CollateSparse sp dt batch (Some store_10_20)
       = (Some store_10_20, (CollateSparse sp dt batch (Some store_20_10)).2).
Proof.
  apply (init_again_same_object store_20_10). vm_compute. reflexivity.
Defined.

(** The items of [definitions] after the loop, whatever its outcome. *)
Lemma sanity_check_outer (n i : nat) (s : config_store) (j : nat) :
  (sanity_check n i s).1.(outer) !! j = outer s !! j
  \/ (outer s !! j = Some IStrNone /\ (sanity_check n i s).1.(outer) !! j = Some INone).
Proof.
  revert i s. induction n as [|n IH]; intros i s; cbn [sanity_check]; [left; reflexivity|].
  destruct (outer s !! i) as [[| |l|]|] eqn:Hit; try (left; reflexivity).
  - match goal with
    | |- context [sanity_check n (S i) ?t] => destruct (IH (S i) t) as [H|[H1 H2]]
    end.
    + rewrite H. simpl. destruct (decide (j = i)) as [->|Hne].
      * right. split; [exact Hit|]. rewrite list_lookup_insert_eq; [reflexivity|].
        eapply lookup_lt_Some. exact Hit.
      * left. apply list_lookup_insert_ne. congruence.
    + simpl in H1. right. split; [|exact H2].
      destruct (decide (j = i)) as [->|Hne]; [exact Hit|].
      rewrite list_lookup_insert_ne in H1 by congruence. exact H1.
  - apply IH.
  - destruct (cuts_heap s !! l) as [[|c cs]|]; try (left; reflexivity).
    match goal with |- context [sanity_check n (S i) ?t] => destruct (IH (S i) t) as [H|H] end;
      [left | right]; exact H.
Qed.

(** X4: whatever its outcome, [__init__] only reorders cuts, and only in
    the lists that [definitions] refers to. *)
Theorem init_only_reorders_cuts (s : config_store) :
  let s' := (VolumeBoundaries_init s).1 in
  (forall j, outer s' !! j = outer s !! j
             \/ (outer s !! j = Some IStrNone /\ outer s' !! j = Some INone))
  /\ (forall l, IRef l ∉ outer s -> cuts_heap s' !! l = cuts_heap s !! l)
  /\ (forall l, match cuts_heap s !! l, cuts_heap s' !! l with
                | Some cuts, Some cuts' => Permutation cuts' cuts
                | None, None => True
                | _, _ => False
                end).
Proof.
  unfold VolumeBoundaries_init.
  pose proof (sanity_check_outer (length (outer s)) 0 s) as Hout.
  pose proof (sanity_check_heap (length (outer s)) 0 s) as Hheap.
  destruct (sanity_check (length (outer s)) 0 s) as [s1 r]. cbn [fst] in *.
  destruct (Hheap s1 r eq_refl) as [Hh _]. rewrite drop_0 in Hh.
  split; [exact Hout|]. split.
  - intros l Hl. destruct (Hh l) as [H|[Hin _]]; [exact H | contradiction].
  - intros l. destruct (Hh l) as [->|[_ ->]]; destruct (cuts_heap s !! l); simpl; try exact I.
    + reflexivity.
    + apply list_sort_perm.
Qed.

(** ** What [CollateSparse] leaves of the caller's configuration *)

(** C9 as the code has it: [CollateSparse] called with a boundaries
    configuration leaves behind what [__init__] makes of that configuration,
    whatever the batch and whether the call returns or raises.  When no item
    is the string ['None'] and every list of cuts is ascending, that is the
    configuration as it was.  Otherwise the call writes to it: an item
    changes only from ['None'] to [None]; a list of cuts is only reordered,
    and only if [definitions] refers to it; and when [__init__] accepts the
    configuration, every ['None'] has become [None] and every list of cuts
    that [definitions] refers to is in ascending order, so that the
    configuration is as it was only if it was normalised. *)
Theorem collate_normalises_callers_boundaries (sp : particles_split) (dt : int_dtype)
    (batch : list sample) (s : config_store) :
  exists s',
    (CollateSparse sp dt batch (Some s)).1 = Some s'
    /\ (normalised s -> s' = s)
    /\ (forall j, outer s' !! j = outer s !! j
                  \/ (outer s !! j = Some IStrNone /\ outer s' !! j = Some INone))
    /\ (forall l, match cuts_heap s !! l, cuts_heap s' !! l with
                  | Some cuts, Some cuts' =>
                      Permutation cuts' cuts /\ (IRef l ∉ outer s -> cuts' = cuts)
                  | None, None => True
                  | _, _ => False
                  end)
    /\ (forall vb, (VolumeBoundaries_init s).2 = Ok vb ->
          outer s' = normalise_item <$> outer s
          /\ (forall l cuts, IRef l ∈ outer s -> cuts_heap s !! l = Some cuts ->
                exists sorted, cuts_heap s' !! l = Some sorted /\ ascending sorted
                               /\ Permutation sorted cuts)
          /\ (s' = s -> normalised s)).
Proof.
  exists (VolumeBoundaries_init s).1. split; [apply CollateSparse_store|].
  split; [|split; [|split]].
  - intros Hn. unfold VolumeBoundaries_init.
    pose proof (sanity_check_normalised (length (outer s)) 0 s Hn) as Hs.
    destruct (sanity_check (length (outer s)) 0 s) as [s' r]. exact Hs.
  - unfold VolumeBoundaries_init.
    pose proof (sanity_check_outer (length (outer s)) 0 s) as Hout.
    destruct (sanity_check (length (outer s)) 0 s) as [s1 r]. exact Hout.
  - unfold VolumeBoundaries_init.
    pose proof (sanity_check_heap (length (outer s)) 0 s) as Hheap.
    destruct (sanity_check (length (outer s)) 0 s) as [s1 r]. cbn [fst].
    destruct (Hheap s1 r eq_refl) as [Hh _]. rewrite drop_0 in Hh.
    intros l. destruct (Hh l) as [->|[Hin ->]];
      destruct (cuts_heap s !! l) as [cuts|]; simpl; try exact I.
    + split; [reflexivity | intros _; reflexivity].
    + split; [apply list_sort_perm | intros Hnot; contradiction].
  - intros vb Hvb.
    assert (Hinit : VolumeBoundaries_init s = ((VolumeBoundaries_init s).1, Ok vb)).
    { destruct (VolumeBoundaries_init s) as [s1 r]. simpl in *. subst r. reflexivity. }
    pose proof (init_heap_sorted _ _ _ Hinit) as Hheap.
    pose proof (init_normalises _ _ _ Hinit) as Hnorm.
    apply init_Ok in Hinit as (_ & _ & Ho & _).
    split; [exact Ho|]. split.
    + intros l cuts Hl Hcuts. exists (list_sort cuts). rewrite (Hheap l Hl), Hcuts.
      split; [reflexivity|]. split; [apply list_sort_sorted | apply list_sort_perm].
    + intros Heq. rewrite Heq in Hnorm. exact Hnorm.
Qed.

Lemma collate_normalises_callers_boundaries_witness :
  (CollateSparse not_reached int32 [[("x"%string, VArray array_1d)]] (Some store_10_20)).1
  = Some store_10_20.
Proof.
  destruct (collate_normalises_callers_boundaries not_reached int32
              [[("x"%string, VArray array_1d)]] store_10_20) as (s' & Hs & Hn & _).
  rewrite Hs. f_equal. apply Hn.
  repeat constructor. intros cuts Hc. vm_compute in Hc. injection Hc as <-.
  repeat constructor.
Defined.

(** One event with a 1-D array and boundaries [[20.0, 10.0]]: the call
    returns, and the caller's list of cuts is [10.0, 20.0] afterwards. *)
Lemma collate_sorts_the_callers_boundaries :
  CollateSparse not_reached int32 [[("x"%string, VArray array_1d)]] (Some store_20_10)
  = (Some store_10_20, Ok [("x"%string, VArray (NDArray [2%nat; 2%nat] [0; 7; 0; 8]))])
  /\ (CollateSparse not_reached int32 [[("x"%string, VArray array_1d)]] (Some store_20_10)).1
     <> Some store_20_10.
Proof.
  split; [vm_compute; reflexivity|].
  intros H.
  apply (f_equal (fun o => match o with
                           | Some s => cuts_heap s !! 0%nat
                           | None => None
                           end)) in H.
  vm_compute in H. discriminate.
Qed.

(** ** The volumes that [combo] lists *)

(** X5: [combo] holds every choice of one bin per dimension exactly once. *)
Theorem combo_lists_every_volume_once (s s' : config_store) (vb : VolumeBoundaries) :
  VolumeBoundaries_init s = (s', Ok vb) ->
  NoDup (combo vb)
  /\ forall c, c ∈ combo vb
               <-> Forall2 (fun bin b => (bin < n_bins b)%nat) c (boundaries vb).
Proof.
  intros Hinit. apply init_Ok in Hinit as (Hwf & _).
  apply vb_wf_fields in Hwf as (_ & _ & -> & _).
  split; [apply NoDup_meshgrid_combo|]. intros c.
  assert (Hbins : Forall2 lt c ((fun n => S n) <$> n_boundaries (boundaries vb))
                  <-> Forall2 (fun bin b => (bin < n_bins b)%nat) c (boundaries vb)).
  { unfold n_boundaries. rewrite !Forall2_fmap_r. reflexivity. }
  rewrite <- Hbins. split; [apply meshgrid_combo_bounded | apply meshgrid_combo_complete].
Qed.

Lemma combo_lists_every_volume_once_witness :
  NoDup (combo vb_10)
  /\ forall c, c ∈ combo vb_10
               <-> Forall2 (fun bin b => (bin < n_bins b)%nat) c (boundaries vb_10).
Proof. exact (combo_lists_every_volume_once store_10 store_10 vb_10 init_store_10). Defined.

Lemma ndindex_first (ns : list nat) :
  Forall (lt 0) ns -> ndindex ns !! 0%nat = Some (replicate (length ns) 0%nat).
Proof.
  induction 1 as [|n ns Hn _ IH]; [reflexivity|].
  destruct n as [|n]; [lia|]. cbn [ndindex seq]. rewrite bind_cons.
  rewrite lookup_app_l.
  - rewrite list_lookup_fmap, IH. reflexivity.
  - rewrite length_fmap. apply lookup_lt_Some in IH. exact IH.
Qed.

Lemma meshgrid_combo_first (ns : list nat) :
  Forall (lt 0) ns -> meshgrid_combo ns !! 0%nat = Some (replicate (length ns) 0%nat).
Proof.
  intros Hns. unfold meshgrid_combo. rewrite list_lookup_fmap, ndindex_first.
  - simpl. rewrite length_reverse, reverse_replicate, swap01_replicate.
    do 2 f_equal. destruct ns as [|a [|b l]]; reflexivity.
  - apply Forall_reverse. destruct Hns as [|a l Ha [|b l' Hb Hl]]; simpl; auto.
Qed.

(** Volume 0 is the one of the first bin of every dimension. *)
Lemma combo_first (vb : VolumeBoundaries) :
  vb_wf vb -> combo vb !! 0%nat = Some (replicate (dim vb) 0%nat).
Proof.
  intros Hwf. apply vb_wf_fields in Hwf as (_ & -> & -> & _).
  rewrite meshgrid_combo_first.
  - unfold n_boundaries. rewrite !length_fmap. reflexivity.
  - apply Forall_fmap, Forall_forall. intros; simpl; lia.
Qed.

Lemma imap_id_in {A : Type} (f : nat -> A -> A) (l : list A) :
  (forall n x, l !! n = Some x -> f n x = x) -> imap f l = l.
Proof.
  revert f. induction l as [|a l IH]; intros f Hf; [reflexivity|]. simpl. f_equal.
  - apply (Hf 0%nat). reflexivity.
  - apply IH. intros n x Hx. apply (Hf (S n)). exact Hx.
Qed.

Lemma fmap_id_in {A : Type} (f : A -> A) (l : list A) :
  Forall (fun x => f x = x) l -> f <$> l = l.
Proof. induction 1 as [|a l Ha _ IH]; [reflexivity|]. rewrite fmap_cons, Ha, IH. reflexivity. Qed.

Lemma int_add_0 (dt : int_dtype) (x : Z) : in_range (bits dt) x -> int_add dt x 0 = x.
Proof.
  intros Hx. unfold int_add. rewrite Z.add_0_r. apply wrap_in_range; [apply bits_pos | exact Hx].
Qed.

(** X6: volume 0 is the volume of the first bin of every dimension, and
    moving an integer array to or from it changes nothing. *)
Theorem volume_zero_is_not_shifted (dt : int_dtype) (s s' : config_store)
    (vb : VolumeBoundaries) (voxels : array Z) :
  VolumeBoundaries_init s = (s', Ok vb) ->
  array_wf voxels -> ncols voxels = dim vb ->
  Forall (Forall (in_range (bits dt))) (rows voxels) ->
  combo vb !! 0%nat = Some (replicate (dim vb) 0%nat)
  /\ translate (int_ops dt) vb voxels 0 = Ok voxels
  /\ untranslate (int_ops dt) vb voxels 0 = Ok voxels.
Proof.
  intros Hinit Hwfa Hcols Hrange. apply init_Ok in Hinit as (Hwf & _).
  pose proof (combo_first vb Hwf) as Hc. split; [exact Hc|].
  assert (Hshift : forall n, (n < dim vb)%nat ->
            int_of_float (stored_shift vb (replicate (dim vb) 0%nat) n) = 0).
  { intros n Hn.
    pose proof (stored_shift_cut vb _ n 0%nat Hwf (list_elem_of_lookup_2 _ _ _ Hc)
                  (lookup_replicate_2 _ _ _ Hn)) as Hs.
    simpl in Hs. rewrite Hs. reflexivity. }
  assert (Hfit : volume_fits (int_ops dt) vb 0).
  { intros n Hn. rewrite (shift_of_stored vb 0 _ n Hwf Hc Hn), (Hshift n Hn).
    destruct dt; reflexivity. }
  destruct (translate_imap (int_ops dt) vb 0 _ voxels Hwf Hc Hfit Hwfa Hcols) as [Ht Hu].
  change (Z.of_nat 0) with 0 in Ht, Hu. rewrite Ht, Hu.
  assert (Hrows : forall f : Z -> Z -> Z,
            (forall x, in_range (bits dt) x -> f x 0 = x) ->
            (imap (fun n x => f x (int_of_float (stored_shift vb (replicate (dim vb) 0%nat) n)))
               <$> rows voxels) = rows voxels).
  { intros f Hf. apply fmap_id_in.
    unfold array_wf in Hwfa. rewrite Forall_forall in Hwfa, Hrange |- *.
    intros r Hr. apply imap_id_in. intros n x Hx.
    rewrite Hshift.
    - apply Hf. specialize (Hrange r Hr). rewrite Forall_forall in Hrange.
      apply Hrange. eapply list_elem_of_lookup_2. exact Hx.
    - apply lookup_lt_Some in Hx. rewrite (Hwfa r Hr), Hcols in Hx. exact Hx. }
  destruct voxels as [nc rs]. simpl in *.
  split; f_equal; f_equal; apply Hrows; intros x Hx; [apply int_add_0 | apply int_sub_0]; exact Hx.
Qed.

Lemma volume_zero_is_not_shifted_witness :
  combo vb_10 !! 0%nat = Some (replicate (dim vb_10) 0%nat)
  /\ translate (int_ops int64) vb_10 (Array 2 [[12; 7]]) 0 = Ok (Array 2 [[12; 7]])
  /\ untranslate (int_ops int64) vb_10 (Array 2 [[12; 7]]) 0 = Ok (Array 2 [[12; 7]]).
Proof.
  apply (volume_zero_is_not_shifted int64 store_10 store_10 vb_10 (Array 2 [[12; 7]])
           init_store_10).
  - repeat constructor.
  - reflexivity.
  - repeat constructor; vm_compute; discriminate.
Defined.

(** ** When [translate], [untranslate] and [split] raise *)

Lemma shifted_rows_shape {T : Type} (op : T -> Z -> T) (g : nat -> Z) (ns : list nat)
    (rs : list (list T)) :
  Forall2 (fun r r' => length r' = length r) rs (shift_row op g ns <$> rs).
Proof.
  apply Forall2_fmap_r, Forall_Forall2_diag, Forall_forall.
  intros r _. apply length_shift_row.
Qed.

Section TranslateAsserts.
Context {T : Type} (d : dtype T).
Context (vb : VolumeBoundaries) (voxels : array T) (volume : Z).
Hypothesis vb_ok : vb_wf vb.

Lemma shift_asserts_pass (op : T -> Z -> T) :
  0 <= volume < Z.of_nat (num_volumes vb) /\ ncols voxels = dim vb ->
  volume_fits d vb (Z.to_nat volume) ->
  (_ ← py_assert ((0 <=? volume) && (volume <? Z.of_nat (num_volumes vb)));
   _ ← py_assert (ncols voxels =? dim vb)%nat;
   rs ← shift_loop d op vb (Z.to_nat volume) (seq 0 (dim vb)) (rows voxels);
   Ok (Array (ncols voxels) rs))
  = Ok (Array (ncols voxels)
          (shift_row op (shift_of vb (Z.to_nat volume)) (seq 0 (dim vb)) <$> rows voxels)).
Proof.
  intros [Hv Hc] Hfit. destruct (asserts_pass vb voxels volume Hv Hc) as [-> ->]. simpl.
  rewrite (shift_loop_all d vb volume vb_ok Hv Hfit). reflexivity.
Qed.

Lemma shift_asserts_fail (op : T -> Z -> T) :
  ~ (0 <= volume < Z.of_nat (num_volumes vb) /\ ncols voxels = dim vb) ->
  (_ ← py_assert ((0 <=? volume) && (volume <? Z.of_nat (num_volumes vb)));
   _ ← py_assert (ncols voxels =? dim vb)%nat;
   rs ← shift_loop d op vb (Z.to_nat volume) (seq 0 (dim vb)) (rows voxels);
   Ok (Array (ncols voxels) rs))
  = Raise "AssertionError"%string.
Proof.
  clear vb_ok. intros Hn.
  destruct ((0 <=? volume) && (volume <? Z.of_nat (num_volumes vb))) eqn:Hv; [|reflexivity].
  simpl. destruct (ncols voxels =? dim vb)%nat eqn:Hc; [|reflexivity].
  exfalso. apply Hn. apply Nat.eqb_eq in Hc. lia.
Qed.
End TranslateAsserts.

(** X7: [translate] and [untranslate] raise [AssertionError] when the
    volume is out of range or the last axis does not have [dim] entries;
    when both are right and the shifts of the volume fit the dtype of the
    array, they return an array of the shape of their argument. *)
Theorem translate_asserts_volume_and_shape {T : Type} (d : dtype T) (s s' : config_store)
    (vb : VolumeBoundaries) (voxels : array T) (volume : Z) :
  VolumeBoundaries_init s = (s', Ok vb) ->
  let accepted := 0 <= volume < Z.of_nat (num_volumes vb) /\ ncols voxels = dim vb in
  let same_shape := fun r : result (array T) =>
    exists rs, r = Ok (Array (ncols voxels) rs)
               /\ Forall2 (fun row row' => length row' = length row) (rows voxels) rs in
  (accepted -> volume_fits d vb (Z.to_nat volume) ->
   same_shape (translate d vb voxels volume) /\ same_shape (untranslate d vb voxels volume))
  /\ (~ accepted -> translate d vb voxels volume = Raise "AssertionError"%string
                    /\ untranslate d vb voxels volume = Raise "AssertionError"%string).
Proof.
  intros Hinit accepted same_shape. apply init_Ok in Hinit as (Hwf & _).
  unfold translate, untranslate. split.
  - intros Ha Hfit. rewrite !(shift_asserts_pass d vb voxels volume Hwf _ Ha Hfit).
    split; eexists; (split; [reflexivity | apply shifted_rows_shape]).
  - intros Hn. rewrite !(shift_asserts_fail d vb voxels volume _ Hn). split; reflexivity.
Qed.

Lemma translate_asserts_volume_and_shape_witness :
  (exists rs, translate (int_ops int64) vb_10 (Array 2 [[12; 7]]) 1 = Ok (Array 2 rs)
              /\ Forall2 (fun row row' => length row' = length row) [[12; 7]] rs)
  /\ (translate (int_ops int64) vb_10 (Array 2 [[12; 7]]) 2 = Raise "AssertionError"%string
   /\ untranslate (int_ops int64) vb_10 (Array 2 [[12; 7]]) 2 = Raise "AssertionError"%string)
  /\ (translate (int_ops int64) vb_10 (Array 3 [[0; 12; 7]]) 1 = Raise "AssertionError"%string
      /\ untranslate (int_ops int64) vb_10 (Array 3 [[0; 12; 7]]) 1
         = Raise "AssertionError"%string).
Proof.
  split; [|split].
  - apply (translate_asserts_volume_and_shape (int_ops int64) store_10 store_10 vb_10
             (Array 2 [[12; 7]]) 1 init_store_10).
    + vm_compute. repeat split; discriminate.
    + intros [|[|n]] Hn; [reflexivity | reflexivity | simpl in Hn; lia].
  - apply (translate_asserts_volume_and_shape (int_ops int64) store_10 store_10 vb_10
             (Array 2 [[12; 7]]) 2 init_store_10).
    vm_compute. intros [[_ H] _]. discriminate H.
  - apply (translate_asserts_volume_and_shape (int_ops int64) store_10 store_10 vb_10
             (Array 3 [[0; 12; 7]]) 1 init_store_10).
    vm_compute. intros [_ H]. discriminate H.
Defined.

Lemma split_row_nonempty (dt : int_dtype) (vb : VolumeBoundaries) (row : list Z) (n : nat) :
  length row = S n -> length (split_row dt vb row) = S n.
Proof.
  intros Hrow. rewrite length_split_row; [exact Hrow|]. destruct row; [discriminate | congruence].
Qed.

(** X8: [split] raises [IndexError] on an array without columns and
    [AssertionError] when the number of coordinate columns is not [dim];
    when that number is [dim] and the shifts and the number of volumes fit
    the dtype of the array, it returns as many rows as it was given, of the
    same length. *)
Theorem split_raises_on_wrong_shape (dt : int_dtype) (s s' : config_store)
    (vb : VolumeBoundaries) (voxels : array Z) :
  VolumeBoundaries_init s = (s', Ok vb) ->
  (ncols voxels = 0%nat -> split dt vb voxels = Raise "IndexError"%string)
  /\ (ncols voxels <> 0%nat -> ncols voxels <> S (dim vb) ->
      split dt vb voxels = Raise "AssertionError"%string)
  /\ (ncols voxels = S (dim vb) -> operands_fit dt vb -> array_wf voxels ->
      exists new_voxels perm,
        split dt vb voxels = Ok (new_voxels, perm)
        /\ ncols new_voxels = ncols voxels /\ array_wf new_voxels
        /\ length (rows new_voxels) = length (rows voxels)
        /\ length perm = length (rows voxels)).
Proof.
  intros Hinit. apply init_Ok in Hinit as (Hwf & _). split; [|split].
  - intros H0. unfold split. rewrite H0. reflexivity.
  - intros H0 Hne. unfold split.
    destruct (ncols voxels =? 0)%nat eqn:E; [apply Nat.eqb_eq in E; contradiction|].
    simpl. destruct (dim vb =? ncols voxels - 1)%nat eqn:E'; [|reflexivity].
    apply Nat.eqb_eq in E'. lia.
  - intros Hc Hfit Hwfa. rewrite (split_rows dt vb voxels Hwf Hfit Hc).
    do 2 eexists. split; [reflexivity|]. simpl. split; [congruence|]. split; [|split].
    + unfold array_wf. simpl. apply Forall_fmap. unfold array_wf in Hwfa.
      eapply Forall_impl; [exact Hwfa|]. intros r Hr. simpl.
      apply split_row_nonempty. congruence.
    + apply length_fmap.
    + rewrite (Permutation_length (lexsort_perm _ _)). apply length_seq.
Qed.

Lemma split_raises_on_wrong_shape_witness :
  split int64 vb_10 (Array 0 [[]; []]) = Raise "IndexError"%string
  /\ split int64 vb_10 (Array 2 [[0; 5]]) = Raise "AssertionError"%string
  /\ exists new_voxels perm,
       split int64 vb_10 (Array 3 [[0; 5; 7]; [1; 12; 7]]) = Ok (new_voxels, perm)
       /\ ncols new_voxels = 3%nat /\ array_wf new_voxels
       /\ length (rows new_voxels) = 2%nat /\ length perm = 2%nat.
Proof.
  pose proof (split_raises_on_wrong_shape int64 store_10 store_10 vb_10) as H.
  split; [|split].
  - apply (H (Array 0 [[]; []]) init_store_10). reflexivity.
  - apply (H (Array 2 [[0; 5]]) init_store_10); simpl; lia.
  - apply (H (Array 3 [[0; 5; 7]; [1; 12; 7]]) init_store_10);
      [reflexivity | repeat constructor | repeat constructor].
Defined.

(** ** Every voxel is in a volume of its own event *)

Lemma in_bin_covering (b : option (list Q)) (x : Z) :
  b <> Some [] ->
  in_bin b (covering_bin b x) x = true /\ (covering_bin b x < n_bins b)%nat.
Proof.
  intros Hb. destruct b as [cuts|]; [|split; [reflexivity | unfold n_bins; simpl; lia]].
  unfold in_bin, covering_bin, n_bins.
  destruct (ge_cut x (List.last cuts 0%Q)) eqn:Hge.
  - rewrite lookup_ge_None_2 by lia. split; [reflexivity | lia].
  - destruct cuts as [|c cuts]; [congruence|].
    rewrite list_last_lookup in Hge.
    destruct (lookup_lt_is_Some_2 (c :: cuts) (pred (length (c :: cuts)))) as [c' Hc'];
      [simpl; lia|].
    rewrite Hc' in Hge |- *. simpl in Hge. split; [|simpl; lia].
    unfold lt_cut. unfold ge_cut in Hge. rewrite Hge. reflexivity.
Qed.

Section Covering.
Context (vb : VolumeBoundaries).
Hypothesis vb_ok : vb_wf vb.

Lemma covering_volume_in_combo (x : list Z) : covering_volume vb x ∈ combo vb.
Proof.
  pose proof (vb_wf_fields vb vb_ok) as (_ & _ & Hcombo & _).
  destruct vb_ok as [_ Hne].
  rewrite Hcombo. apply meshgrid_combo_complete.
  unfold covering_volume, n_boundaries. apply Forall2_same_length_lookup. split.
  - rewrite length_imap, !length_fmap. reflexivity.
  - intros n bin k Hbin Hk. rewrite list_lookup_imap in Hbin.
    rewrite !list_lookup_fmap in Hk.
    destruct (boundaries vb !! n) as [b|] eqn:Hb; [|discriminate].
    simpl in *. injection Hbin as <-. injection Hk as <-.
    pose proof (proj1 (Forall_lookup _ _) Hne n b Hb) as Hb'.
    exact (proj2 (in_bin_covering b (nth n x 0) Hb')).
Qed.

Lemma row_in_covering_volume (x : list Z) : row_in_volume vb (covering_volume vb x) x = true.
Proof.
  apply row_in_volume_iff; [apply dim_pos; exact vb_ok|].
  intros n Hn. pose proof (vb_wf_fields vb vb_ok) as (_ & Hd & _).
  destruct vb_ok as [_ Hne].
  rewrite Hd in Hn. apply lookup_lt_is_Some_2 in Hn as [b Hb].
  unfold bin_test, covering_volume. rewrite list_lookup_imap, Hb. simpl.
  apply in_bin_covering. exact (proj1 (Forall_lookup _ _) Hne n b Hb).
Qed.
End Covering.

(** The batch id a row is left with is the one of the last volume whose
    mask matches it. *)
Lemma row_loop_last_match (dt : int_dtype) (vb : VolumeBoundaries) (row : list Z)
    (cs : list (list nat)) (idx : nat) (st : Z * list Z) :
  Exists (fun c => row_in_volume vb c (drop 1 row) = true) cs ->
  exists k c, cs !! k = Some c /\ row_in_volume vb c (drop 1 row) = true
    /\ (forall k' c', cs !! k' = Some c' -> row_in_volume vb c' (drop 1 row) = true ->
          (k' <= k)%nat)
    /\ (row_loop dt vb row idx cs st).1
       = virtual_batch_id dt (idx + k) (nth 0 row 0) (num_volumes vb).
Proof.
  induction cs as [|c cs IH] using rev_ind; intros Hex; [inversion Hex|].
  rewrite row_loop_app. cbn [row_loop]. unfold row_step at 1.
  destruct (row_in_volume vb c (drop 1 row)) eqn:Hc.
  - exists (length cs), c. split; [|split; [exact Hc | split; [|reflexivity]]].
    + rewrite lookup_app_r by lia. rewrite Nat.sub_diag. reflexivity.
    + intros k' c' Hk' _. apply lookup_lt_Some in Hk'.
      rewrite length_app in Hk'. simpl in Hk'. lia.
  - apply Exists_app in Hex as [Hex|Hex].
    + destruct (IH Hex) as (k & c' & Hk & Hc' & Hlast & Hid).
      exists k, c'. split; [|split; [exact Hc' | split; [|exact Hid]]].
      * apply lookup_app_l_Some. exact Hk.
      * intros k' c'' Hk' Hc''. destruct (decide (k' < length cs)%nat) as [Hlt|Hge].
        -- rewrite lookup_app_l in Hk' by exact Hlt. exact (Hlast k' c'' Hk' Hc'').
        -- rewrite lookup_app_r in Hk' by lia.
           destruct (k' - length cs)%nat as [|n]; [|destruct n; discriminate].
           injection Hk' as <-. congruence.
    + apply Exists_cons in Hex as [Hex|Hex]; [congruence | inversion Hex].
Qed.

Lemma virtual_batch_id_exact (dt : int_dtype) (idx nv : nat) (b : Z) :
  (idx < nv)%nat -> 0 <= b -> (b + 1) * Z.of_nat nv <= 2 ^ 31 ->
  virtual_batch_id dt idx b nv = Z.of_nat idx + b * Z.of_nat nv.
Proof.
  intros Hidx Hb Hfit. unfold virtual_batch_id, int_add, int_mul.
  assert (H31 : in_range 32 (Z.of_nat idx + b * Z.of_nat nv)).
  { unfold in_range. change (2 ^ (32 - 1)) with (2 ^ 31). nia. }
  assert (Hw : forall z, 0 <= z < 2 ^ 31 -> wrap (bits dt) z = z).
  { intros z Hz. apply wrap_in_range; [apply bits_pos|]. unfold in_range.
    destruct dt; simpl; lia. }
  rewrite (Hw (b * Z.of_nat nv)) by nia.
  rewrite Hw by nia. apply wrap_in_range; [lia | exact H31].
Qed.

(** X9: whatever the cuts, when the shifts and the number of volumes fit
    the dtype of the array, [split] puts every voxel in a volume whose mask
    matches it, the last one in the order of [combo], under a virtual batch
    id of the voxel's own event. *)
Theorem split_keeps_voxels_in_their_event (dt : int_dtype) (s s' : config_store)
    (vb : VolumeBoundaries) (voxels : array Z) (j : nat) (row : list Z) :
  VolumeBoundaries_init s = (s', Ok vb) ->
  operands_fit dt vb ->
  ncols voxels = S (dim vb) ->
  rows voxels !! j = Some row ->
  0 <= nth 0 row 0 ->
  (nth 0 row 0 + 1) * Z.of_nat (num_volumes vb) <= 2 ^ 31 ->
  exists new_voxels perm new_row volume c ids,
    split dt vb voxels = Ok (new_voxels, perm)
    /\ rows new_voxels !! j = Some new_row
    /\ combo vb !! volume = Some c
    /\ row_in_volume vb c (drop 1 row) = true
    /\ (forall volume' c', combo vb !! volume' = Some c' ->
          row_in_volume vb c' (drop 1 row) = true -> (volume' <= volume)%nat)
    /\ nth 0 new_row 0 = Z.of_nat volume + nth 0 row 0 * Z.of_nat (num_volumes vb)
    /\ virtual_batch_ids vb (nth 0 row 0) = Ok ids
    /\ nth 0 new_row 0 ∈ ids.
Proof.
  intros Hinit Hops Hcols Hrow Hb Hfit. apply init_Ok in Hinit as (Hwf & _).
  rewrite (split_rows dt vb voxels Hwf Hops Hcols).
  assert (Hex : Exists (fun c => row_in_volume vb c (drop 1 row) = true) (combo vb)).
  { apply Exists_exists. exists (covering_volume vb (drop 1 row)).
    split; [apply covering_volume_in_combo | apply row_in_covering_volume]; exact Hwf. }
  destruct (row_loop_last_match dt vb row (combo vb) 0 (0, drop 1 row) Hex)
    as (volume & c & Hc & Hmatch & Hlast & Hid).
  assert (Hv : (volume < num_volumes vb)%nat) by (eapply lookup_lt_Some; exact Hc).
  simpl in Hid. rewrite (virtual_batch_id_exact dt volume _ _ Hv Hb Hfit) in Hid.
  eexists _, _, (split_row dt vb row), volume, c, _.
  split; [reflexivity|]. split; [simpl; rewrite list_lookup_fmap, Hrow; reflexivity|].
  split; [exact Hc|]. split; [exact Hmatch|]. split; [exact Hlast|].
  unfold split_row. cbn [nth]. split; [exact Hid|]. rewrite Hid. split.
  - apply virtual_batch_ids_exact.
    split; [exact Hb|]. assert (2 ^ 31 <= 2 ^ 63) by (apply Z.pow_le_mono_r; lia). lia.
  - apply list_elem_of_fmap. exists volume. split; [lia|]. apply elem_of_seq. lia.
Qed.

Lemma split_keeps_voxels_in_their_event_witness :
  exists new_voxels perm new_row volume c ids,
    split int64 vb_10_20 (Array 2 [[3; 5]]) = Ok (new_voxels, perm)
    /\ rows new_voxels !! 0%nat = Some new_row
    /\ combo vb_10_20 !! volume = Some c
    /\ row_in_volume vb_10_20 c (drop 1 [3; 5]) = true
    /\ (forall volume' c', combo vb_10_20 !! volume' = Some c' ->
          row_in_volume vb_10_20 c' (drop 1 [3; 5]) = true -> (volume' <= volume)%nat)
    /\ nth 0 new_row 0 = Z.of_nat volume + nth 0 [3; 5] 0 * Z.of_nat (num_volumes vb_10_20)
    /\ virtual_batch_ids vb_10_20 (nth 0 [3; 5] 0) = Ok ids
    /\ nth 0 new_row 0 ∈ ids.
Proof.
  apply (split_keeps_voxels_in_their_event int64 store_10_20 store_10_20 vb_10_20
           (Array 2 [[3; 5]]) 0 [3; 5]).
  - vm_compute. reflexivity.
  - repeat constructor.
  - reflexivity.
  - reflexivity.
  - simpl. lia.
  - vm_compute. discriminate.
Defined.

(** ** [translate] undoes [split] when no dimension has two cuts *)

Lemma only_in_volume_one_cut (vb : VolumeBoundaries) (volume : nat) (row : list Z) :
  vb_wf vb -> at_most_one_cut vb ->
  combo vb !! volume = Some (volume_of vb (drop 1 row)) ->
  only_in_volume vb volume row.
Proof.
  intros Hwf Hone Hvol v c Hc.
  pose proof (vb_wf_fields vb Hwf) as (_ & _ & Hcombo & _).
  assert (Hnd : NoDup (combo vb)) by (rewrite Hcombo; apply NoDup_meshgrid_combo).
  pose proof (row_in_volume_one_cut vb Hwf Hone c (drop 1 row)
                (list_elem_of_lookup_2 _ _ _ Hc)) as Hiff.
  destruct (decide (v = volume)) as [->|Hne].
  - rewrite bool_decide_eq_true_2 by reflexivity. apply Hiff. congruence.
  - rewrite bool_decide_eq_false_2 by exact Hne.
    destruct (row_in_volume vb c (drop 1 row)); [|reflexivity].
    exfalso. apply Hne. rewrite (proj1 Hiff eq_refl) in Hc.
    exact (NoDup_lookup _ _ _ _ Hnd Hc Hvol).
Qed.

Lemma imap_imap {A B C : Type} (f : nat -> A -> B) (g : nat -> B -> C) (l : list A) :
  imap g (imap f l) = imap (fun n x => g n (f n x)) l.
Proof.
  revert f g. induction l as [|a l IH]; intros f g; [reflexivity|].
  simpl. f_equal. apply IH.
Qed.

(** X10: with at most one cut per dimension, when the shifts and the number
    of volumes fit the dtype of the array, [split] sends a voxel to the
    volume of its bins, and [translate] to that volume gives its coordinates
    back. *)
Theorem translate_reverses_split_one_cut (dt : int_dtype) (s s' : config_store)
    (vb : VolumeBoundaries) (voxels : array Z) (j : nat) (row : list Z) :
  VolumeBoundaries_init s = (s', Ok vb) -> at_most_one_cut vb ->
  operands_fit dt vb ->
  ncols voxels = S (dim vb) ->
  rows voxels !! j = Some row -> length row = S (dim vb) ->
  Forall (in_range (bits dt)) row ->
  exists new_voxels perm new_row volume,
    split dt vb voxels = Ok (new_voxels, perm)
    /\ rows new_voxels !! j = Some new_row
    /\ combo vb !! volume = Some (volume_of vb (drop 1 row))
    /\ nth 0 new_row 0 = virtual_batch_id dt volume (nth 0 row 0) (num_volumes vb)
    /\ translate (int_ops dt) vb (Array (dim vb) [drop 1 new_row]) (Z.of_nat volume)
       = Ok (Array (dim vb) [drop 1 row]).
Proof.
  intros Hinit Hone Hops Hcols Hrow Hlen Hrange. apply init_Ok in Hinit as (Hwf & _).
  rewrite (split_rows dt vb voxels Hwf Hops Hcols).
  pose proof (volume_of_in_combo vb Hwf Hone (drop 1 row)) as Hin.
  apply list_elem_of_lookup_1 in Hin as [volume Hvol].
  pose proof (only_in_volume_one_cut vb volume row Hwf Hone Hvol) as Honly.
  eexists _, _, (split_row dt vb row), volume.
  split; [reflexivity|]. split; [simpl; rewrite list_lookup_fmap, Hrow; reflexivity|].
  split; [exact Hvol|].
  rewrite (split_row_only_in_volume dt vb volume _ row Hwf Hvol Hlen Honly).
  split; [reflexivity|]. cbn [drop]. rewrite drop_0.
  assert (Hfit : volume_fits (int_ops dt) vb volume).
  { apply shifts_fit_volume; [exact Hwf | exact (proj2 Hops) |].
    eapply lookup_lt_Some. exact Hvol. }
  match goal with |- translate _ _ ?a _ = _ =>
    destruct (translate_imap (int_ops dt) vb volume _ a Hwf Hvol Hfit) as [-> _]
  end.
  - constructor; [|constructor]. simpl. rewrite length_imap, length_drop. lia.
  - reflexivity.
  - simpl. do 3 f_equal. rewrite imap_imap. apply imap_id_in.
    intros n x Hx. simpl. apply int_add_sub.
    rewrite Forall_forall in Hrange. apply Hrange.
    rewrite lookup_drop in Hx. eapply list_elem_of_lookup_2. exact Hx.
Qed.

Lemma translate_reverses_split_one_cut_witness :
  exists new_voxels perm new_row volume,
    split int64 vb_10 (Array 3 [[0; 5; 7]; [1; 12; 7]]) = Ok (new_voxels, perm)
    /\ rows new_voxels !! 1%nat = Some new_row
    /\ combo vb_10 !! volume = Some (volume_of vb_10 (drop 1 [1; 12; 7]))
    /\ nth 0 new_row 0 = virtual_batch_id int64 volume (nth 0 [1; 12; 7] 0) (num_volumes vb_10)
    /\ translate (int_ops int64) vb_10 (Array (dim vb_10) [drop 1 new_row]) (Z.of_nat volume)
       = Ok (Array (dim vb_10) [drop 1 [1; 12; 7]]).
Proof.
  apply (translate_reverses_split_one_cut int64 store_10 store_10 vb_10
           (Array 3 [[0; 5; 7]; [1; 12; 7]]) 1 [1; 12; 7] init_store_10).
  - repeat constructor.
  - repeat constructor.
  - reflexivity.
  - reflexivity.
  - reflexivity.
  - repeat constructor; vm_compute; discriminate.
Defined.

(** X11: [split] treats every row on its own: when the shifts and the
    number of volumes fit the dtype of the arrays, the rows it returns for
    two arrays stacked are the rows it returns for each, stacked. *)
Theorem split_of_stacked_arrays (dt : int_dtype) (s s' : config_store)
    (vb : VolumeBoundaries) (rows1 rows2 : list (list Z)) :
  VolumeBoundaries_init s = (s', Ok vb) ->
  operands_fit dt vb ->
  exists a a1 a2 p p1 p2,
    split dt vb (Array (S (dim vb)) (rows1 ++ rows2)) = Ok (a, p)
    /\ split dt vb (Array (S (dim vb)) rows1) = Ok (a1, p1)
    /\ split dt vb (Array (S (dim vb)) rows2) = Ok (a2, p2)
    /\ rows a = rows a1 ++ rows a2.
Proof.
  intros Hinit Hops. apply init_Ok in Hinit as (Hwf & _).
  rewrite (split_rows dt vb (Array (S (dim vb)) (rows1 ++ rows2)) Hwf Hops eq_refl).
  rewrite (split_rows dt vb (Array (S (dim vb)) rows1) Hwf Hops eq_refl).
  rewrite (split_rows dt vb (Array (S (dim vb)) rows2) Hwf Hops eq_refl). simpl.
  do 6 eexists. repeat (split; [reflexivity|]). simpl. apply fmap_app.
Qed.

Lemma split_of_stacked_arrays_witness :
  exists a a1 a2 p p1 p2,
    split int64 vb_10 (Array 3 ([[0; 5; 7]] ++ [[1; 12; 7]])) = Ok (a, p)
    /\ split int64 vb_10 (Array 3 [[0; 5; 7]]) = Ok (a1, p1)
    /\ split int64 vb_10 (Array 3 [[1; 12; 7]]) = Ok (a2, p2)
    /\ rows a = rows a1 ++ rows a2.
Proof.
  apply (split_of_stacked_arrays int64 store_10 store_10 vb_10 [[0; 5; 7]] [[1; 12; 7]]
           init_store_10).
  repeat constructor.
Defined.

(** ** The permutation [split] returns is stable *)

Lemma lexsort_rel_ties (keys : list (list Z)) (R : nat -> nat -> Prop) (i j : nat) :
  Forall (fun key => nth i key 0 = nth j key 0) keys ->
  foldl (fun R key => key_lex (fun i => nth i key 0) R) R keys i j -> R i j.
Proof.
  intros H. revert R. induction H as [|key keys Hkey _ IH]; intros R HR; [exact HR|].
  simpl in HR. apply IH in HR. destruct HR as [Hlt|[_ HR]]; [lia | exact HR].
Qed.

Lemma StronglySorted_lookup {A : Type} (R : A -> A -> Prop) (l : list A) (p q : nat) (x y : A) :
  StronglySorted R l -> (p < q)%nat -> l !! p = Some x -> l !! q = Some y -> R x y.
Proof.
  intros Hs. revert p q. induction Hs as [|a l _ IH Ha]; intros p q Hpq Hp Hq; [discriminate|].
  destruct q as [|q]; [lia|]. simpl in Hq. destruct p as [|p]; simpl in Hp.
  - injection Hp as <-. rewrite Forall_forall in Ha. apply Ha.
    eapply list_elem_of_lookup_2. exact Hq.
  - apply (IH p q); [lia | exact Hp | exact Hq].
Qed.

(** X12: when the shifts and the number of volumes fit the dtype of the
    array, the permutation [split] returns is stable: of two voxels that
    [split] leaves with the same virtual batch id and coordinates, the one
    that comes first in the input comes first in the permuted order. *)
Theorem split_perm_is_stable (dt : int_dtype) (s s' : config_store)
    (vb : VolumeBoundaries) (voxels : array Z) :
  VolumeBoundaries_init s = (s', Ok vb) ->
  operands_fit dt vb ->
  ncols voxels = S (dim vb) ->
  exists new_voxels perm,
    split dt vb voxels = Ok (new_voxels, perm)
    /\ forall p q i j row,
         (p < q)%nat -> perm !! p = Some i -> perm !! q = Some j ->
         rows new_voxels !! i = Some row -> rows new_voxels !! j = Some row ->
         (i < j)%nat.
Proof.
  intros Hinit Hops Hcols. apply init_Ok in Hinit as (Hwf & _).
  rewrite (split_rows dt vb voxels Hwf Hops Hcols). do 2 eexists. split; [reflexivity|].
  cbn [rows]. set (new_rows := split_row dt vb <$> rows voxels).
  intros p q i j row Hpq Hp Hq Hi Hj.
  pose proof (lexsort_sorted (sort_keys (dim vb) new_rows) (length (rows voxels))) as Hsorted.
  pose proof (lexsort_perm (sort_keys (dim vb) new_rows) (length (rows voxels))) as Hperm.
  pose proof (StronglySorted_lookup _ _ p q i j Hsorted Hpq Hp Hq) as Hrel.
  apply lexsort_rel_ties in Hrel.
  - assert (Hnd : NoDup (lexsort (sort_keys (dim vb) new_rows) (length (rows voxels)))).
    { rewrite Hperm. apply NoDup_seq. }
    assert (i <> j) by (intros ->; pose proof (NoDup_lookup _ _ _ _ Hnd Hp Hq); lia).
    lia.
  - unfold sort_keys. apply Forall_fmap, Forall_forall. intros c _. simpl.
    rewrite !nth_column, !nth_lookup, Hi, Hj. reflexivity.
Qed.

Lemma split_perm_is_stable_witness :
  exists new_voxels perm,
    split int64 vb_10 (Array 3 [[0; 5; 7]; [0; 5; 7]]) = Ok (new_voxels, perm)
    /\ forall p q i j row,
         (p < q)%nat -> perm !! p = Some i -> perm !! q = Some j ->
         rows new_voxels !! i = Some row -> rows new_voxels !! j = Some row ->
         (i < j)%nat.
Proof.
  apply (split_perm_is_stable int64 store_10 store_10 vb_10 (Array 3 [[0; 5; 7]; [0; 5; 7]])
           init_store_10).
  - repeat constructor.
  - reflexivity.
Defined.

(** ** The order [split] gives does not depend on the order it was given *)

Lemma fancy_index_seq {A : Type} (l : list A) : fancy_index l (seq 0 (length l)) = l.
Proof.
  destruct l as [|d l']; [reflexivity|]. set (l := d :: l').
  rewrite (fancy_index_nth l _ d).
  - apply list_eq. intros i. rewrite list_lookup_fmap.
    destruct (decide (i < length l)%nat) as [Hi|Hi].
    + rewrite lookup_seq_lt by exact Hi. simpl.
      destruct (lookup_lt_is_Some_2 _ _ Hi) as [x Hx]. rewrite Hx.
      f_equal. apply nth_lookup_Some with (d := d) in Hx. exact Hx.
    + rewrite lookup_seq_ge by lia. rewrite lookup_ge_None_2 by lia. reflexivity.
  - apply Forall_forall. intros i Hi. apply elem_of_seq in Hi. lia.
Qed.

Lemma fancy_index_perm {A : Type} (l : list A) (perm : list nat) :
  Permutation perm (seq 0 (length l)) -> Permutation (fancy_index l perm) l.
Proof.
  intros H. unfold fancy_index. rewrite H. fold (fancy_index l (seq 0 (length l))).
  rewrite fancy_index_seq. reflexivity.
Qed.

Lemma lex_le_antisym (a b : list Z) :
  length a = length b -> lex_le a b -> lex_le b a -> a = b.
Proof.
  revert b. induction a as [|x a IH]; intros [|y b] Hlen Hab Hba; try discriminate;
    [reflexivity|].
  simpl in *. destruct Hab as [Hlt|[-> Hab]]; destruct Hba as [Hgt|[Heq Hba]]; try lia.
  f_equal. apply IH; [lia | exact Hab | exact Hba].
Qed.

Lemma sort_key_inj (r1 r2 : list Z) :
  length r1 = length r2 -> r1 <> [] -> sort_key r1 = sort_key r2 -> r1 = r2.
Proof.
  intros Hlen Hne. destruct r1 as [|x t1]; [congruence|]. destruct r2 as [|y t2]; [discriminate|].
  unfold sort_key. simpl. rewrite !drop_0. intros [= -> Hrev].
  f_equal. rewrite <- (reverse_involutive t1), Hrev. apply reverse_involutive.
Qed.

Lemma length_sort_key (r : list Z) : r <> [] -> length (sort_key r) = length r.
Proof.
  intros Hne. destruct r as [|x t]; [congruence|].
  unfold sort_key. simpl. rewrite drop_0, length_reverse. reflexivity.
Qed.

Lemma sorted_perm_unique {A : Type} (R : A -> A -> Prop) (l1 l2 : list A) :
  (forall x y, x ∈ l1 -> y ∈ l1 -> R x y -> R y x -> x = y) ->
  StronglySorted R l1 -> StronglySorted R l2 -> Permutation l1 l2 -> l1 = l2.
Proof.
  intros Hanti H1. revert l2. induction H1 as [|x l1 Hs1 IH Hx]; intros l2 H2 Hperm.
  - apply Permutation_nil_l in Hperm. congruence.
  - destruct H2 as [|y l2 Hs2 Hy].
    + apply Permutation_nil_r in Hperm. discriminate.
    + assert (x = y) as <-.
      { assert (Hxin : x ∈ y :: l2) by (rewrite <- Hperm; left).
        assert (Hyin : y ∈ x :: l1) by (rewrite Hperm; left).
        apply elem_of_cons in Hxin as [Hxy|Hxin]; [exact Hxy|].
        apply elem_of_cons in Hyin as [Hyx|Hyin]; [congruence|].
        rewrite Forall_forall in Hx, Hy.
        apply Hanti; [left | right; exact Hyin | apply Hx, Hyin | apply Hy, Hxin]. }
      f_equal. apply IH; [|exact Hs2 | exact (Permutation_cons_inv Hperm)].
      intros a b Ha Hb. apply Hanti; right; assumption.
Qed.

(** The rows of an array in the order of the index [np.lexsort] returns
    for them: a rearrangement of the rows, in ascending order of their
    sort keys. *)
Lemma lexsorted_rows (d : nat) (rws : list (list Z)) :
  Forall (fun r => length r = S d) rws ->
  Permutation (fancy_index rws (lexsort (sort_keys d rws) (length rws))) rws
  /\ StronglySorted (fun r1 r2 => lex_le (sort_key r1) (sort_key r2))
       (fancy_index rws (lexsort (sort_keys d rws) (length rws))).
Proof.
  intros Hlen. set (perm := lexsort (sort_keys d rws) (length rws)).
  assert (Hperm : Permutation perm (seq 0 (length rws))) by apply lexsort_perm.
  split; [apply fancy_index_perm; exact Hperm|].
  assert (Hlt : Forall (fun i => i < length rws)%nat perm).
  { apply Forall_forall. intros i Hi. rewrite Hperm in Hi. apply elem_of_seq in Hi. lia. }
  assert (Hnth : forall i, (i < length rws)%nat -> length (nth i rws []) = S d).
  { intros i Hi. destruct (lookup_lt_is_Some_2 _ _ Hi) as [r Hr].
    rewrite nth_lookup, Hr. simpl.
    exact (proj1 (Forall_lookup _ _) Hlen i r Hr). }
  rewrite (fancy_index_nth _ _ []) by exact Hlt.
  apply (StronglySorted_fmap_in (lexsort_rel (sort_keys d rws))); [|apply lexsort_sorted].
  intros i j Hi Hj HR.
  apply (sort_keys_rel rws i j d); [| |exact HR]; apply Hnth.
  - exact (proj1 (Forall_forall _ _) Hlt i Hi).
  - exact (proj1 (Forall_forall _ _) Hlt j Hj).
Qed.

(** X13: when the shifts and the number of volumes fit the dtype of the
    arrays, the rows [split] returns, taken in the order of its permutation,
    do not depend on the order of the rows it was given: two arrays that hold
    the same voxels come out row for row the same. *)
Theorem split_order_is_canonical (dt : int_dtype) (s s' : config_store)
    (vb : VolumeBoundaries) (a b : array Z) :
  VolumeBoundaries_init s = (s', Ok vb) ->
  operands_fit dt vb ->
  array_wf a -> array_wf b -> ncols a = S (dim vb) -> ncols b = S (dim vb) ->
  Permutation (rows a) (rows b) ->
  exists na pa nb pb,
    split dt vb a = Ok (na, pa) /\ split dt vb b = Ok (nb, pb)
    /\ fancy_index (rows na) pa = fancy_index (rows nb) pb.
Proof.
  intros Hinit Hops Hwfa Hwfb Hca Hcb Hperm. apply init_Ok in Hinit as (Hwf & _).
  rewrite (split_rows dt vb a Hwf Hops Hca), (split_rows dt vb b Hwf Hops Hcb).
  do 4 eexists. split; [reflexivity|]. split; [reflexivity|]. cbn [rows].
  assert (Hnew : forall v : array Z, array_wf v -> ncols v = S (dim vb) ->
            Forall (fun r => length r = S (dim vb)) (split_row dt vb <$> rows v)).
  { intros v Hv Hc. apply Forall_fmap. eapply Forall_impl; [exact Hv|].
    intros r Hr. simpl. apply split_row_nonempty. congruence. }
  pose proof (Hnew a Hwfa Hca) as Hla. pose proof (Hnew b Hwfb Hcb) as Hlb.
  destruct (lexsorted_rows (dim vb) _ Hla) as [Hpa Hsa].
  destruct (lexsorted_rows (dim vb) _ Hlb) as [Hpb Hsb].
  rewrite length_fmap in Hpa, Hsa, Hpb, Hsb.
  apply (sorted_perm_unique (fun r1 r2 => lex_le (sort_key r1) (sort_key r2)));
    [|exact Hsa | exact Hsb|].
  - intros x y Hx Hy Hxy Hyx. rewrite Hpa in Hx, Hy.
    rewrite Forall_forall in Hla. pose proof (Hla x Hx) as Hlx. pose proof (Hla y Hy) as Hly.
    assert (Hxne : x <> []) by (intros ->; discriminate).
    assert (Hyne : y <> []) by (intros ->; discriminate).
    apply sort_key_inj; [congruence | exact Hxne|].
    apply lex_le_antisym; [|exact Hxy | exact Hyx].
    rewrite !length_sort_key by assumption. congruence.
  - rewrite Hpa, Hpb. apply fmap_Permutation. exact Hperm.
Qed.

Lemma split_order_is_canonical_witness :
  exists na pa nb pb,
    split int64 vb_10 (Array 3 [[0; 5; 7]; [1; 12; 7]]) = Ok (na, pa)
    /\ split int64 vb_10 (Array 3 [[1; 12; 7]; [0; 5; 7]]) = Ok (nb, pb)
    /\ fancy_index (rows na) pa = fancy_index (rows nb) pb.
Proof.
  apply (split_order_is_canonical int64 store_10 store_10 vb_10
           (Array 3 [[0; 5; 7]; [1; 12; 7]]) (Array 3 [[1; 12; 7]; [0; 5; 7]]) init_store_10).
  - repeat constructor.
  - repeat constructor.
  - repeat constructor.
  - reflexivity.
  - reflexivity.
  - apply perm_swap.
Defined.

(** ** The masks compare in binary64 *)

(** X21: one cut at 2^53 + 4 and int64 coordinates.  The voxel at
    x = 2^53 + 3 is below the cut, but its coordinate is compared as the
    binary64 number 2^53 + 4: [split] puts it in volume 1 and shifts it to
    -1.  The voxel at x = 2^53 + 1 is compared as 2^53 and stays in
    volume 0. *)
Theorem split_compares_in_binary64 :
  VolumeBoundaries_init store_2p53 = (store_2p53, Ok vb_2p53)
  /\ to_binary64 9007199254740995 = 9007199254740996
  /\ split int64 vb_2p53 (Array 2 [[0; 9007199254740995]]) = Ok (Array 2 [[1; -1]], [0%nat])
  /\ to_binary64 9007199254740993 = 9007199254740992
  /\ split int64 vb_2p53 (Array 2 [[0; 9007199254740993]])
     = Ok (Array 2 [[0; 9007199254740993]], [0%nat]).
Proof. repeat split; vm_compute; reflexivity. Qed.

(** ** What [CollateSparse] needs of the batch and what it returns *)

Lemma fmap_Ok {A B : Type} (f : A -> B) (m : result A) (b : B) :
  f <$> m = Ok b -> exists a, m = Ok a /\ b = f a.
Proof. destruct m as [a|e]; [intros [= <-]; eauto | discriminate]. Qed.

Lemma mapM_Ok_each {A B : Type} (f : A -> result B) (l : list A) (bs : list B) (a : A) :
  mapM f l = Ok bs -> a ∈ l -> exists b, f a = Ok b.
Proof.
  intros H Ha. apply mapM_Ok_Forall2 in H.
  apply list_elem_of_lookup_1 in Ha as [i Hi].
  destruct (Forall2_lookup_l _ _ _ _ _ H Hi) as (b & _ & Hb). eauto.
Qed.

Lemma elem_of_enumerate {A : Type} (l : list A) (a : A) :
  a ∈ l -> exists i, (i, a) ∈ enumerate l.
Proof.
  intros Ha. apply list_elem_of_lookup_1 in Ha as [i Hi]. exists i.
  apply list_elem_of_lookup_2 with i. unfold enumerate. rewrite list_lookup_imap, Hi. reflexivity.
Qed.

Lemma batched_voxels_Ok (get : sample -> result value) (batch : list sample) (a : ndarray)
    (s : sample) :
  batched_voxels get batch = Ok a -> s ∈ batch -> exists p, get s = Ok p.
Proof.
  intros H Hs. apply bind_Ok in H as (parts & Hparts & _).
  destruct (elem_of_enumerate _ _ Hs) as [i Hi].
  destruct (mapM_Ok_each _ _ _ _ Hparts Hi) as [b Hb].
  apply bind_Ok in Hb as (p & Hp & _). eauto.
Qed.

Lemma collate_pairs_Ok (dt : int_dtype) (vbo : option VolumeBoundaries)
    (get : sample -> result value) (batch : list sample) (a : ndarray) (s : sample) :
  collate_pairs dt vbo get batch = Ok a -> s ∈ batch -> exists p, get s = Ok p.
Proof.
  intros H Hs. apply bind_Ok in H as (voxels & Hvoxels & _).
  eapply batched_voxels_Ok; eassumption.
Qed.

Lemma with_batch_id_Ok (expand : bool) (batch : list sample) (key : string)
    (parts : list ndarray) (s : sample) :
  mapM (with_batch_id expand key) (enumerate batch) = Ok parts -> s ∈ batch ->
  exists v, dict_get s key = Ok v.
Proof.
  intros H Hs. destruct (elem_of_enumerate _ _ Hs) as [i Hi].
  destruct (mapM_Ok_each _ _ _ _ H Hi) as [b Hb].
  apply bind_Ok in Hb as (v & Hv & _). eauto.
Qed.

(** A key is collated only if every sample of the batch has it. *)
Lemma collate_key_Ok (sp : particles_split) (dt : int_dtype) (vbo : option VolumeBoundaries)
    (batch : list sample) (key : string) (v : value) (s : sample) :
  collate_key sp dt vbo batch key = Ok v -> s ∈ batch -> exists v', dict_get s key = Ok v'.
Proof.
  intros H Hs. unfold collate_key in H.
  assert (Hother : forall w, VList <$> mapM (fun s => dict_get s key) batch = Ok w ->
                             exists v', dict_get s key = Ok v').
  { intros w Hw. apply fmap_Ok in Hw as (vs & Hvs & _).
    exact (mapM_Ok_each _ _ _ _ Hvs Hs). }
  assert (Hpairs : forall w,
            VArray <$> collate_pairs dt vbo (fun s => dict_get s key) batch = Ok w ->
                             exists v', dict_get s key = Ok v').
  { intros w Hw. apply fmap_Ok in Hw as (a & Ha & _).
    exact (collate_pairs_Ok _ _ _ _ _ _ Ha Hs). }
  assert (Hplain : forall expand w,
            (parts ← mapM (with_batch_id expand key) (enumerate batch);
             VArray <$> concatenate0 parts) = Ok w ->
            exists v', dict_get s key = Ok v').
  { intros expand w Hw. apply bind_Ok in Hw as (parts & Hparts & _).
    exact (with_batch_id_Ok _ _ _ _ _ Hparts Hs). }
  destruct (String.eqb key "particles_label").
  - apply fmap_Ok in H as (a & Ha & _).
    apply bind_Ok in Ha as (coords & Hcoords & _).
    destruct (mapM_Ok_each _ _ _ _ Hcoords Hs) as [c Hc].
    apply bind_Ok in Hc as (v' & Hv' & _). eauto.
  - apply bind_Ok in H as (b0 & _ & H). apply bind_Ok in H as (v0 & _ & H).
    destruct v0 as [a|vs|vs|].
    + destruct (ndim a =? 1)%nat; [exact (Hplain _ _ H)|].
      destruct (ndim a =? 2)%nat; [exact (Hplain _ _ H) | exact (Hother _ H)].
    + destruct vs as [|[a| | |] vs]; try discriminate; try exact (Hother _ H).
      destruct (ndim a =? 2)%nat; [exact (Hpairs _ H) | exact (Hother _ H)].
    + destruct vs as [|[|t| |] vs]; try exact (Hother _ H).
      apply fmap_Ok in H as (arrs & Harrs & _).
      assert (H0 : 0%nat ∈ seq 0 (length (VTuple t :: vs))) by (apply elem_of_seq; simpl; lia).
      destruct (mapM_Ok_each _ _ _ _ Harrs H0) as [w Hw].
      apply fmap_Ok in Hw as (a & Ha & _).
      destruct (collate_pairs_Ok _ _ _ _ _ _ Ha Hs) as [p Hp].
      apply bind_Ok in Hp as (v' & Hv' & _). eauto.
    + exact (Hother _ H).
Qed.

(** X14: the result of [CollateSparse] has the keys of the first sample,
    in their order, and it is returned only if every sample of the batch
    has every one of these keys. *)
Theorem collate_keys_of_first_sample (sp : particles_split) (dt : int_dtype) (batch : list sample)
    (kwargs : option config_store) (res : list (string * value)) :
  (CollateSparse sp dt batch kwargs).2 = Ok res ->
  exists b0, batch !! 0%nat = Some b0
    /\ res.*1 = b0.*1
    /\ forall s key, s ∈ batch -> key ∈ b0.*1 -> exists v, dict_get s key = Ok v.
Proof.
  rewrite CollateSparse_result. intros H.
  apply bind_Ok in H as (vbo & _ & H). apply bind_Ok in H as (b0 & Hb0 & H).
  apply getitem_Ok in Hb0. exists b0. split; [exact Hb0|]. split.
  - apply mapM_Ok_Forall2 in H. clear Hb0.
    induction H as [|key kv keys res' Hkv _ IH]; [reflexivity|].
    apply bind_Ok in Hkv as (v & _ & [= <-]). rewrite fmap_cons. simpl. f_equal. exact IH.
  - intros s key Hs Hkey. destruct (mapM_Ok_each _ _ _ _ H Hkey) as [kv Hkv].
    apply bind_Ok in Hkv as (v & Hv & _). exact (collate_key_Ok _ _ _ _ _ _ _ Hv Hs).
Qed.

Lemma collate_keys_of_first_sample_witness :
  exists b0, [[("x"%string, VArray array_1d)]] !! 0%nat = Some b0
    /\ [("x"%string, VArray (NDArray [2%nat; 2%nat] [0; 7; 0; 8]))].*1 = b0.*1
    /\ forall s key, s ∈ [[("x"%string, VArray array_1d)]] -> key ∈ b0.*1 ->
         exists v, dict_get s key = Ok v.
Proof.
  apply (collate_keys_of_first_sample not_reached int32 [[("x"%string, VArray array_1d)]] None).
  vm_compute. reflexivity.
Defined.

(** ** Arrays as lists of rows *)

Lemma block_0 (m : nat) (l : list Z) : block m 0 l = take m l.
Proof. unfold block. rewrite Nat.mul_0_l, drop_0. reflexivity. Qed.

Lemma block_S (m r : nat) (l : list Z) : block m (S r) l = block m r (drop m l).
Proof. unfold block. rewrite drop_drop. reflexivity. Qed.

Lemma block_join (m : nat) (rws : list (list Z)) (r : nat) (row : list Z) :
  Forall (fun x => length x = m) rws -> rws !! r = Some row ->
  block m r (mjoin rws) = row.
Proof.
  intros Hwf. revert r. induction Hwf as [|x rws Hx _ IH]; intros r Hr; [discriminate|].
  destruct r as [|r]; simpl in Hr.
  - injection Hr as <-. rewrite block_0. simpl. subst m. apply take_app_length.
  - rewrite block_S. simpl. rewrite drop_app_length' by congruence. apply IH. exact Hr.
Qed.

Lemma blocks_of_join (m : nat) (rws : list (list Z)) :
  Forall (fun x => length x = m) rws ->
  (fun r => block m r (mjoin rws)) <$> seq 0 (length rws) = rws.
Proof.
  intros Hwf. apply list_eq. intros r. rewrite list_lookup_fmap.
  destruct (rws !! r) as [row|] eqn:Hr.
  - rewrite lookup_seq_lt by (eapply lookup_lt_Some; exact Hr). simpl.
    f_equal. apply block_join; assumption.
  - apply lookup_ge_None in Hr. rewrite lookup_seq_ge by lia. reflexivity.
Qed.

Lemma join_blocks (m n : nat) (l : list Z) :
  length l = (n * m)%nat -> mjoin ((fun r => block m r l) <$> seq 0 n) = l.
Proof.
  revert l. induction n as [|n IH]; intros l Hl.
  - destruct l; [reflexivity | discriminate].
  - cbn [seq]. rewrite <- fmap_S_seq, fmap_cons, <- list_fmap_compose. cbn [mjoin list_join].
    rewrite block_0.
    rewrite (list_fmap_ext _ (fun r => block m r (drop m l)) (seq 0 n))
      by (intros; apply block_S).
    rewrite IH by (rewrite length_drop; lia). apply take_drop.
Qed.

Lemma length_block (m r : nat) (l : list Z) :
  ((S r) * m <= length l)%nat -> length (block m r l) = m.
Proof. intros H. unfold block. rewrite length_take, length_drop. lia. Qed.

(** A well-formed 2-D array is the array of its rows. *)
Lemma rows_2d_spec (a : ndarray) (n m : nat) :
  shape a = [n; m] -> ndarray_wf a ->
  a = of_rows (Array m (rows_2d a))
  /\ array_wf (Array m (rows_2d a)) /\ length (rows_2d a) = n.
Proof.
  intros Hs Hwf. unfold ndarray_wf in Hwf. rewrite Hs in Hwf. simpl in Hwf.
  unfold rows_2d, rows_of. rewrite Hs. simpl. split; [|split].
  - unfold of_rows. simpl. rewrite length_fmap, length_seq.
    rewrite join_blocks by lia. destruct a; simpl in *; congruence.
  - unfold array_wf. simpl. apply Forall_fmap, Forall_forall. intros r Hr. simpl.
    apply elem_of_seq in Hr. apply length_block. nia.
  - rewrite length_fmap, length_seq. reflexivity.
Qed.

Lemma rows_of_of_rows (a : array Z) : array_wf a -> rows_of (of_rows a) = Ok a.
Proof.
  intros Hwf. unfold rows_of, of_rows. simpl.
  rewrite (blocks_of_join _ _ Hwf). destruct a; reflexivity.
Qed.

Lemma rows_1d_spec (a : ndarray) (n : nat) :
  shape a = [n] -> ndarray_wf a ->
  NDArray [n; 1%nat] (data a) = of_rows (Array 1 (rows_1d a))
  /\ array_wf (Array 1 (rows_1d a)) /\ length (rows_1d a) = n.
Proof.
  intros Hs Hwf. unfold ndarray_wf in Hwf. rewrite Hs in Hwf. simpl in Hwf.
  unfold rows_1d, of_rows, array_wf. simpl. rewrite length_fmap. split; [|split].
  - f_equal; [f_equal; lia|]. clear. induction (data a) as [|x l IH]; [reflexivity|].
    simpl. f_equal. exact IH.
  - apply Forall_fmap, Forall_forall. intros; reflexivity.
  - lia.
Qed.

Lemma full_column_of_rows (n : nat) (v : Z) :
  full_column n v = of_rows (Array 1 (replicate n [v])).
Proof.
  unfold full_column, of_rows. simpl. rewrite length_replicate. f_equal.
  induction n as [|n IH]; [reflexivity|]. simpl. f_equal. exact IH.
Qed.

Lemma fmap_join {A B : Type} (f : A -> B) (ls : list (list A)) :
  f <$> mjoin ls = mjoin (fmap (M:=list) f <$> ls).
Proof.
  induction ls as [|l ls IH]; [reflexivity|].
  cbn [mjoin list_join fmap list_fmap]. rewrite fmap_app. f_equal. exact IH.
Qed.

(** The conversion to float works on the rows. *)
Lemma to_float_of_rows (a : array Z) :
  to_float (of_rows a) = of_rows (Array (ncols a) (float_entries <$> rows a)).
Proof.
  unfold to_float, of_rows. cbn [shape data rows ncols].
  rewrite length_fmap, fmap_join. reflexivity.
Qed.

Lemma array_wf_float (a : array Z) :
  array_wf a -> array_wf (Array (ncols a) (float_entries <$> rows a)).
Proof.
  unfold array_wf. cbn [rows ncols]. intros H. apply Forall_fmap.
  eapply Forall_impl; [exact H|]. intros r Hr. simpl. unfold float_entries.
  rewrite length_fmap. exact Hr.
Qed.

Lemma bind_seq_rows (f : nat -> list Z) (rws : list (list Z)) (k : nat) :
  (forall r row, rws !! r = Some row -> f (k + r)%nat = row) ->
  seq k (length rws) ≫= f = mjoin rws.
Proof.
  revert k. induction rws as [|row rws IH]; intros k Hf; [reflexivity|].
  cbn [length seq]. rewrite bind_cons. change (mjoin (row :: rws)) with (row ++ mjoin rws).
  f_equal.
  - rewrite <- (Hf 0%nat row eq_refl). f_equal. lia.
  - apply IH. intros r row' Hr. rewrite <- (Hf (S r) row' Hr). f_equal. lia.
Qed.

(** [np.concatenate([a, b], axis=1)] puts the rows of [a] and [b] side by
    side. *)
Lemma concatenate1_of_rows (a b : array Z) :
  array_wf a -> array_wf b -> length (rows a) = length (rows b) ->
  concatenate1 [of_rows a; of_rows b]
  = Ok (of_rows (Array (ncols a + ncols b) (zip_with app (rows a) (rows b)))).
Proof.
  intros Ha Hb Hlen. unfold concatenate1, of_rows. cbn [shape data forallb hd tail ndim length].
  rewrite Hlen, !bool_decide_eq_true_2 by reflexivity. cbn [andb]. f_equal.
  cbn [fmap list_fmap sum_list sum_list_with hd tail shape rows ncols prod_list foldr].
  rewrite length_zip_with, Hlen, Nat.min_id, Nat.add_0_r. f_equal.
  rewrite <- (Nat.min_id (length (rows b))) at 1. rewrite <- Hlen at 1.
  rewrite <- (length_zip_with app).
  apply bind_seq_rows. intros r row Hr.
  apply lookup_zip_with_Some in Hr as (ra & rb & -> & Hra & Hrb).
  rewrite !bind_cons. change (@nil ndarray ≫= _) with (@nil Z). rewrite app_nil_r.
  cbn [data shape tail prod_list foldr Nat.add]. rewrite !Nat.mul_1_r.
  rewrite (block_join _ _ _ _ Ha Hra), (block_join _ _ _ _ Hb Hrb). reflexivity.
Qed.

Lemma data_of_rows_stacked (arrs : list (array Z)) :
  (of_rows <$> arrs) ≫= (fun b => data b) = mjoin (mjoin (rows <$> arrs)).
Proof.
  induction arrs as [|a arrs IH]; [reflexivity|].
  rewrite !fmap_cons, bind_cons, IH.
  change (mjoin (rows a :: (rows <$> arrs))) with (rows a ++ mjoin (rows <$> arrs)).
  rewrite join_app. reflexivity.
Qed.

Lemma length_of_rows_stacked (arrs : list (array Z)) :
  sum_list ((fun b => hd 0%nat (shape b)) <$> (of_rows <$> arrs))
  = length (mjoin (rows <$> arrs)).
Proof.
  rewrite length_join, <- !list_fmap_compose. reflexivity.
Qed.

(** [np.concatenate(arrs, axis=0)] stacks the rows of its arguments. *)
Lemma concatenate0_of_rows (m : nat) (arrs : list (array Z)) :
  arrs <> [] -> Forall (fun a => ncols a = m) arrs ->
  concatenate0 (of_rows <$> arrs) = Ok (of_rows (Array m (mjoin (rows <$> arrs)))).
Proof.
  intros Hne Hm. destruct arrs as [|a0 arrs]; [congruence|].
  pose proof (data_of_rows_stacked (a0 :: arrs)) as Hdata.
  pose proof (length_of_rows_stacked (a0 :: arrs)) as Hlen.
  assert (Hall : forallb (fun b => bool_decide (tail (shape b) = [m])
                                   && bool_decide (ndim b = ndim (of_rows a0)))
                   (of_rows <$> a0 :: arrs) = true).
  { apply forallb_forall. intros b Hb.
    apply list_elem_of_In, list_elem_of_fmap in Hb as (a & -> & Ha).
    rewrite Forall_forall in Hm. pose proof (Hm a Ha) as H1.
    unfold of_rows, ndim. simpl. rewrite H1, !bool_decide_eq_true_2 by reflexivity.
    reflexivity. }
  pose proof (Forall_inv Hm) as H0. simpl in H0.
  unfold concatenate0. rewrite fmap_cons. cbn [of_rows shape]. rewrite <- fmap_cons.
  fold (of_rows a0). rewrite H0, Hall, Hdata, Hlen. reflexivity.
Qed.

Lemma fancy_index_cons {A : Type} (l : list A) (i : nat) (perm : list nat) (x : A) :
  l !! i = Some x -> fancy_index l (i :: perm) = x :: fancy_index l perm.
Proof. intros H. unfold fancy_index. cbn [omap list_omap]. rewrite H. reflexivity. Qed.

(** [a[perm]] selects rows. *)
Lemma np_take_of_rows (a : array Z) (perm : list nat) :
  array_wf a -> Forall (fun i => i < length (rows a))%nat perm ->
  np_take (of_rows a) perm
  = Ok (of_rows (Array (ncols a) (fancy_index (rows a) perm))).
Proof.
  intros Ha Hperm. unfold np_take, of_rows. cbn [shape data].
  assert (Hall : forallb (fun i => i <? length (rows a))%nat perm = true).
  { apply forallb_forall. intros i Hi. apply Nat.ltb_lt.
    rewrite Forall_forall in Hperm. apply Hperm, list_elem_of_In, Hi. }
  rewrite Hall. f_equal. cbn [rows ncols].
  assert (Hrows : length (fancy_index (rows a) perm) = length perm
                  /\ perm ≫= (fun i => block (prod_list [ncols a]) i (mjoin (rows a)))
                     = mjoin (fancy_index (rows a) perm)).
  { clear Hall. induction Hperm as [|i perm Hi _ [IH1 IH2]]; [split; reflexivity|].
    destruct (lookup_lt_is_Some_2 _ _ Hi) as [row Hrow].
    rewrite (fancy_index_cons _ _ _ _ Hrow), bind_cons, IH2. cbn [length]. rewrite IH1.
    split; [reflexivity|].
    change (mjoin (row :: fancy_index (rows a) perm))
      with (row ++ mjoin (fancy_index (rows a) perm)).
    f_equal. cbn [prod_list foldr]. rewrite Nat.mul_1_r. apply block_join; assumption. }
  destruct Hrows as [-> ->]. reflexivity.
Qed.

(** ** [CollateSparse] on plain arrays *)

Lemma Forall2_imap {A B C D : Type} (P : C -> D -> Prop) (f : nat -> A -> C)
    (g : nat -> B -> D) (l : list A) (k : list B) :
  Forall2 (fun a b => forall i, P (f i a) (g i b)) l k -> Forall2 P (imap f l) (imap g k).
Proof.
  revert f g k. induction l as [|a l IH]; intros f g k H;
    inversion H as [|? b ? k' Hab Hrest]; subst; simpl; constructor.
  - apply Hab.
  - apply IH. eapply Forall2_impl; [exact Hrest|]. intros x y Hxy i. apply Hxy.
Qed.

Lemma Forall2_impl_elem {A B : Type} (P Q : A -> B -> Prop) (l : list A) (k : list B) :
  Forall2 P l k -> (forall a b, b ∈ k -> P a b -> Q a b) -> Forall2 Q l k.
Proof.
  induction 1 as [|a b l k Hab _ IH]; intros HPQ; constructor.
  - apply HPQ; [left | exact Hab].
  - apply IH. intros a' b' Hb'. apply HPQ. right. exact Hb'.
Qed.

Lemma mapM_enumerate {A B C : Type} (f : nat * A -> result C) (g : nat -> B -> C)
    (l : list A) (k : list B) :
  Forall2 (fun a b => forall i, f (i, a) = Ok (g i b)) l k ->
  mapM f (enumerate l) = Ok (imap g k).
Proof.
  intros H. apply mapM_Ok_Forall2. unfold enumerate.
  apply (Forall2_imap (fun x c => f x = Ok c)). exact H.
Qed.

Lemma mapM_enumerate_lt {A B C : Type} (f : nat * A -> result C) (g : nat -> B -> C)
    (l : list A) (k : list B) :
  Forall2 (fun a b => forall i, (i < length l)%nat -> f (i, a) = Ok (g i b)) l k ->
  mapM f (enumerate l) = Ok (imap g k).
Proof.
  intros H. apply mapM_Ok_Forall2. unfold enumerate.
  apply Forall2_same_length_lookup. split.
  - rewrite !length_imap. eapply Forall2_length. exact H.
  - intros i x c Hx Hc. rewrite list_lookup_imap in Hx. rewrite list_lookup_imap in Hc.
    destruct (l !! i) as [a|] eqn:Ha; [|discriminate].
    destruct (k !! i) as [b|] eqn:Hb; [|discriminate].
    simpl in *. injection Hx as <-. injection Hc as <-.
    apply (Forall2_lookup_lr _ _ _ _ _ _ H Ha Hb). eapply lookup_lt_Some. exact Ha.
Qed.

Lemma np_full_int32_Ok (n i : nat) :
  Z.of_nat i < 2 ^ 31 -> np_full_int32 n i = Ok (full_column n (Z.of_nat i)).
Proof.
  intros Hi. unfold np_full_int32. rewrite operand_Ok; [reflexivity|].
  apply (proj2 (int_fits_in_range int32 _)). unfold in_range.
  change (2 ^ (bits int32 - 1)) with (2 ^ 31). lia.
Qed.

(** Lines 298-300, 314-318 and 324-328: a column holding [v] in front of
    the rows of an array. *)
Lemma concatenate1_full_column (n : nat) (v : Z) (a : array Z) :
  array_wf a -> length (rows a) = n ->
  concatenate1 [full_column n v; of_rows a]
  = Ok (of_rows (Array (S (ncols a)) (cons v <$> rows a))).
Proof.
  intros Ha Hn. rewrite full_column_of_rows, concatenate1_of_rows.
  - cbn [rows ncols]. rewrite zip_with_replicate_l by lia. reflexivity.
  - unfold array_wf. cbn [rows ncols]. apply Forall_replicate. reflexivity.
  - exact Ha.
  - cbn [rows]. rewrite length_replicate. congruence.
Qed.

Lemma with_batch_id_2d (key : string) (i : nat) (s : sample) (a : ndarray) (n m : nat) :
  dict_get s key = Ok (VArray a) -> shape a = [n; m] -> ndarray_wf a ->
  with_batch_id false key (i, s)
  = Ok (of_rows (Array (S m) (float_row i <$> rows_2d a))).
Proof.
  intros Hget Hs Hwf. destruct (rows_2d_spec a n m Hs Hwf) as (Ha & Hawf & Hlen).
  unfold with_batch_id. cbn [snd fst]. rewrite Hget. cbn [mbind result_bind py_len as_array].
  rewrite Hs. cbn [mbind result_bind]. rewrite Ha at 1. rewrite to_float_of_rows.
  unfold np_full_float32.
  rewrite (concatenate1_full_column n _ _ (array_wf_float _ Hawf)).
  - cbn [rows ncols]. rewrite <- list_fmap_compose. reflexivity.
  - cbn [rows]. rewrite length_fmap. exact Hlen.
Qed.

Lemma with_batch_id_1d (key : string) (i : nat) (s : sample) (a : ndarray) (n : nat) :
  dict_get s key = Ok (VArray a) -> shape a = [n] -> ndarray_wf a ->
  with_batch_id true key (i, s)
  = Ok (of_rows (Array 2 (float_row i <$> rows_1d a))).
Proof.
  intros Hget Hs Hwf. destruct (rows_1d_spec a n Hs Hwf) as (Ha & Hawf & Hlen).
  unfold with_batch_id. cbn [snd fst]. rewrite Hget.
  cbn [mbind result_bind py_len as_array expand_dims].
  rewrite Hs. cbn [mbind result_bind]. unfold expand_dims. rewrite Hs.
  cbn [mbind result_bind]. rewrite Ha, to_float_of_rows.
  unfold np_full_float32.
  rewrite (concatenate1_full_column n _ _ (array_wf_float _ Hawf)).
  - cbn [rows ncols]. rewrite <- list_fmap_compose. reflexivity.
  - cbn [rows]. rewrite length_fmap. exact Hlen.
Qed.

Lemma stacked_rows_by {A : Type} (m : nat) (rws : nat -> A -> list (list Z)) (arrs : list A) :
  arrs <> [] ->
  concatenate0 (imap (fun i a => of_rows (Array m (rws i a))) arrs)
  = Ok (of_rows (Array m (mjoin (imap rws arrs)))).
Proof.
  intros Hne.
  assert (E : imap (fun i a => of_rows (Array m (rws i a))) arrs
              = of_rows <$> imap (fun i a => Array m (rws i a)) arrs)
    by (rewrite fmap_imap; reflexivity).
  rewrite E, (concatenate0_of_rows m).
  - rewrite fmap_imap. reflexivity.
  - destruct arrs; [congruence | discriminate].
  - apply Forall_forall. intros a Ha. apply list_elem_of_lookup_1 in Ha as [i Hi].
    rewrite list_lookup_imap in Hi. destruct (arrs !! i); [|discriminate].
    injection Hi as <-. reflexivity.
Qed.

Lemma stacked_tagged_rows {A : Type} (m : nat) (rws : A -> list (list Z)) (arrs : list A) :
  arrs <> [] ->
  concatenate0 (imap (fun i a => of_rows (Array m (cons (Z.of_nat i) <$> rws a))) arrs)
  = Ok (of_rows (Array m (tagged_rows (rws <$> arrs)))).
Proof.
  intros Hne. rewrite (stacked_rows_by m (fun i a => cons (Z.of_nat i) <$> rws a)) by exact Hne.
  unfold tagged_rows. rewrite imap_fmap. reflexivity.
Qed.

Lemma stacked_float_rows {A : Type} (m : nat) (rws : A -> list (list Z)) (arrs : list A) :
  arrs <> [] ->
  concatenate0 (imap (fun i a => of_rows (Array m (float_row i <$> rws a))) arrs)
  = Ok (of_rows (Array m (float_tagged_rows (rws <$> arrs)))).
Proof.
  intros Hne. rewrite (stacked_rows_by m (fun i a => float_row i <$> rws a)) by exact Hne.
  unfold float_tagged_rows. rewrite imap_fmap. reflexivity.
Qed.

(** X15: for a key that holds a plain 1-D or 2-D integer array in every
    sample of a batch of at most 2^53 samples, [CollateSparse] stacks the
    arrays in the order of the batch as rows of floats: each row has the
    position of its sample, rounded to binary32, in front, and its entries
    are converted to binary64; boundaries play no part. *)
Theorem collate_plain_arrays (sp : particles_split) (dt : int_dtype)
    (vbo : option VolumeBoundaries) (batch : list sample) (key : string)
    (arrs : list ndarray) :
  key <> "particles_label"%string -> batch <> [] ->
  Z.of_nat (length batch) <= 2 ^ 53 ->
  Forall2 (fun s a => dict_get s key = Ok (VArray a) /\ ndarray_wf a) batch arrs ->
  (forall m, Forall (fun a => exists n, shape a = [n; m]) arrs ->
     collate_key sp dt vbo batch key
     = Ok (VArray (of_rows (Array (S m) (float_tagged_rows (rows_2d <$> arrs))))))
  /\ (Forall (fun a => ndim a = 1%nat) arrs ->
      collate_key sp dt vbo batch key
      = Ok (VArray (of_rows (Array 2 (float_tagged_rows (rows_1d <$> arrs)))))).
Proof.
  intros Hkey Hne _ Hall.
  assert (Harrs : arrs <> []).
  { destruct Hall; [congruence | discriminate]. }
  assert (Hhead : exists b0 a0, getitem batch 0 = Ok b0 /\ dict_get b0 key = Ok (VArray a0)
                                /\ arrs !! 0%nat = Some a0).
  { destruct Hall as [|b0 a0 ? ? [H0 _] _]; [congruence|]. exists b0, a0. auto. }
  destruct Hhead as (b0 & a0 & Hb0 & Ha0 & Hin).
  unfold collate_key. rewrite (proj2 (String.eqb_neq _ _) Hkey), Hb0.
  cbn [mbind result_bind]. rewrite Ha0. cbn [mbind result_bind].
  split.
  - intros m Hshape.
    destruct (proj1 (Forall_lookup _ _) Hshape 0%nat a0 Hin) as [n0 Hs0].
    unfold ndim at 1 2. rewrite Hs0. cbn [length Nat.eqb].
    rewrite (mapM_enumerate _ (fun i a => of_rows (Array (S m) (float_row i <$> rows_2d a)))
               batch arrs).
    + cbn [mbind result_bind]. rewrite stacked_float_rows by exact Harrs. reflexivity.
    + rewrite Forall_forall in Hshape.
      eapply Forall2_impl_elem; [exact Hall|]. intros s a Ha [Hget Hwf] i.
      destruct (Hshape a Ha) as [n Hs].
      exact (with_batch_id_2d key i s a n m Hget Hs Hwf).
  - intros Hrank.
    pose proof (proj1 (Forall_lookup _ _) Hrank 0%nat a0 Hin) as Hr0. simpl in Hr0.
    rewrite Hr0. cbn [Nat.eqb].
    rewrite (mapM_enumerate _ (fun i a => of_rows (Array 2 (float_row i <$> rows_1d a)))
               batch arrs).
    + cbn [mbind result_bind]. rewrite stacked_float_rows by exact Harrs. reflexivity.
    + rewrite Forall_forall in Hrank.
      eapply Forall2_impl_elem; [exact Hall|]. intros s a Ha [Hget Hwf] i.
      destruct (ndim_1 a (Hrank a Ha)) as [n Hs].
      exact (with_batch_id_1d key i s a n Hget Hs Hwf).
Qed.

Lemma collate_plain_arrays_witness :
  collate_key not_reached int32 None
    [[("x"%string, VArray array_2d)]; [("x"%string, VArray array_2d)]] "x"%string
  = Ok (VArray (NDArray [2%nat; 3%nat] [0; 1; 2; 1; 1; 2])).
Proof.
  apply (collate_plain_arrays not_reached int32 None
           [[("x"%string, VArray array_2d)]; [("x"%string, VArray array_2d)]] "x"%string
           [array_2d; array_2d]).
  - discriminate.
  - discriminate.
  - vm_compute. discriminate.
  - repeat constructor.
  - repeat constructor; exists 1%nat; reflexivity.
Defined.

(** ** A sample without the key *)

Lemma dict_get_missing (s : sample) (key : string) :
  key ∉ s.*1 -> dict_get s key = Raise "KeyError"%string.
Proof.
  induction s as [|[k v] s IH]; intros Hk; [reflexivity|].
  rewrite fmap_cons in Hk. apply not_elem_of_cons in Hk as [Hne Hk]. simpl in *.
  rewrite (proj2 (String.eqb_neq k key)) by congruence. apply IH. exact Hk.
Qed.

(** X16: when the samples up to some position hold plain 1-D arrays, or
    plain 2-D arrays, under a key and the next sample does not have the key,
    [CollateSparse] raises [KeyError] at that key. *)
Theorem collate_missing_key_raises_KeyError (sp : particles_split) (dt : int_dtype)
    (vbo : option VolumeBoundaries) (pre post : list sample) (s : sample) (key : string)
    (arrs : list ndarray) :
  key <> "particles_label"%string -> pre <> [] ->
  Forall2 (fun s a => dict_get s key = Ok (VArray a) /\ ndarray_wf a) pre arrs ->
  Forall (fun a => ndim a = 1%nat) arrs \/ Forall (fun a => ndim a = 2%nat) arrs ->
  key ∉ s.*1 ->
  collate_key sp dt vbo (pre ++ s :: post) key = Raise "KeyError"%string.
Proof.
  intros Hkey Hne Hall Hrank Hs.
  assert (Hhead : exists b0 a0, getitem (pre ++ s :: post) 0 = Ok b0
                                /\ dict_get b0 key = Ok (VArray a0) /\ a0 ∈ arrs).
  { destruct Hall as [|b0 a0 ? ? [H0 _] _]; [congruence|]. exists b0, a0.
    split; [reflexivity|]. split; [exact H0 | left]. }
  destruct Hhead as (b0 & a0 & Hb0 & Ha0 & Hin).
  assert (Hraise : forall expand,
            (forall s' a, a ∈ arrs -> dict_get s' key = Ok (VArray a) -> ndarray_wf a ->
                          forall i, exists p, with_batch_id expand key (i, s') = Ok p) ->
            mapM (with_batch_id expand key) (enumerate (pre ++ s :: post))
            = Raise "KeyError"%string).
  { intros expand Hpre. unfold enumerate. rewrite imap_app. cbn [imap].
    apply mapM_app_Raise.
    - apply Forall_forall. intros [i s'] His.
      apply list_elem_of_lookup_1 in His as [j Hj]. rewrite list_lookup_imap in Hj.
      destruct (pre !! j) as [s''|] eqn:Hpj; [|discriminate]. injection Hj as <- <-.
      destruct (Forall2_lookup_l _ _ _ _ _ Hall Hpj) as (a & Ha & Hget & Hwf).
      exact (Hpre s'' a (list_elem_of_lookup_2 _ _ _ Ha) Hget Hwf j).
    - unfold with_batch_id. cbn [snd]. rewrite (dict_get_missing s key Hs). reflexivity. }
  unfold collate_key. rewrite (proj2 (String.eqb_neq _ _) Hkey), Hb0.
  cbn [mbind result_bind]. rewrite Ha0. cbn [mbind result_bind].
  destruct Hrank as [Hrank|Hrank]; rewrite Forall_forall in Hrank;
    rewrite (Hrank a0 Hin); cbn [Nat.eqb]; rewrite Hraise; try reflexivity.
  - intros s' a Ha Hget Hwf i. destruct (ndim_1 a (Hrank a Ha)) as [n Hn].
    rewrite (with_batch_id_1d key i s' a n Hget Hn Hwf). eauto.
  - intros s' a Ha Hget Hwf i. destruct (ndim_2 a (Hrank a Ha)) as (n & m & Hn).
    rewrite (with_batch_id_2d key i s' a n m Hget Hn Hwf). eauto.
Qed.

Lemma collate_missing_key_raises_KeyError_witness :
  collate_key not_reached int32 None
    ([[("x"%string, VArray array_1d)]] ++ [("y"%string, VArray array_1d)] :: [])
    "x"%string
  = Raise "KeyError"%string.
Proof.
  apply (collate_missing_key_raises_KeyError not_reached int32 None
           [[("x"%string, VArray array_1d)]] []
           [("y"%string, VArray array_1d)] "x"%string [array_1d]).
  - discriminate.
  - discriminate.
  - repeat constructor.
  - left. repeat constructor.
  - simpl. intros H. apply list_elem_of_singleton in H. discriminate.
Defined.

(** ** [CollateSparse] on pairs of a coordinate and a feature array *)

Lemma mapM_fmap_Ok {A B : Type} (f : A -> result B) (g : A -> B) (l : list A) :
  Forall (fun a => f a = Ok (g a)) l -> mapM f l = Ok (g <$> l).
Proof.
  intros H. apply mapM_Ok_Forall2, Forall2_fmap_r, Forall_Forall2_diag. exact H.
Qed.

Lemma mapM_Forall2_Ok {A B C : Type} (f : A -> result C) (g : B -> C) (l : list A)
    (k : list B) :
  Forall2 (fun a b => f a = Ok (g b)) l k -> mapM f l = Ok (g <$> k).
Proof. intros H. apply mapM_Ok_Forall2, Forall2_fmap_r. exact H. Qed.

Lemma array_wf_tagged_rows (m : nat) (parts : list (list (list Z))) :
  Forall (Forall (fun r => length r = m)) parts ->
  array_wf (Array (S m) (tagged_rows parts)).
Proof.
  intros H. unfold array_wf, tagged_rows. cbn [rows ncols].
  apply Forall_forall. intros r Hr. apply list_elem_of_join in Hr as (rs & Hr & Hrs).
  apply list_elem_of_lookup_1 in Hrs as [i Hi]. rewrite list_lookup_imap in Hi.
  destruct (parts !! i) as [p|] eqn:Hp; [|discriminate]. injection Hi as <-.
  apply list_elem_of_fmap in Hr as (r' & -> & Hr'). simpl. f_equal.
  rewrite Forall_forall in H. specialize (H p (list_elem_of_lookup_2 _ _ _ Hp)).
  rewrite Forall_forall in H. apply H. exact Hr'.
Qed.

Lemma length_tagged_rows (parts : list (list (list Z))) :
  length (tagged_rows parts) = length (mjoin parts).
Proof.
  unfold tagged_rows. rewrite !length_join. f_equal.
  rewrite fmap_imap. rewrite <- (imap_const length parts). apply imap_ext.
  intros i rs _. simpl. apply length_fmap.
Qed.

Lemma array_wf_join (m : nat) (parts : list (list (list Z))) :
  Forall (Forall (fun r => length r = m)) parts -> array_wf (Array m (mjoin parts)).
Proof.
  intros H. unfold array_wf. cbn [rows ncols]. apply Forall_forall. intros r Hr.
  apply list_elem_of_join in Hr as (rs & Hr & Hrs).
  rewrite Forall_forall in H. specialize (H rs Hrs).
  rewrite Forall_forall in H. apply H. exact Hr.
Qed.

Lemma array_wf_fancy_index (a : array Z) (perm : list nat) :
  array_wf a -> array_wf (Array (ncols a) (fancy_index (rows a) perm)).
Proof.
  unfold array_wf, fancy_index. cbn [rows ncols]. intros Ha.
  apply Forall_forall. intros r Hr. apply list_elem_of_omap in Hr as (i & _ & Hi).
  rewrite Forall_forall in Ha. apply Ha. eapply list_elem_of_lookup_2. exact Hi.
Qed.

Lemma length_fancy_index {A : Type} (l : list A) (perm : list nat) :
  Forall (fun i => i < length l)%nat perm -> length (fancy_index l perm) = length perm.
Proof.
  induction 1 as [|i perm Hi _ IH]; [reflexivity|].
  destruct (lookup_lt_is_Some_2 _ _ Hi) as [x Hx].
  rewrite (fancy_index_cons _ _ _ _ Hx). simpl. rewrite IH. reflexivity.
Qed.

Lemma fancy_index_zip_with {A B C : Type} (f : A -> B -> C) (l : list A) (k : list B)
    (perm : list nat) :
  length l = length k -> Forall (fun i => i < length l)%nat perm ->
  zip_with f (fancy_index l perm) (fancy_index k perm) = fancy_index (zip_with f l k) perm.
Proof.
  intros Hlen. induction 1 as [|i perm Hi _ IH]; [reflexivity|].
  destruct (lookup_lt_is_Some_2 l i Hi) as [x Hx].
  destruct (lookup_lt_is_Some_2 k i ltac:(lia)) as [y Hy].
  rewrite (fancy_index_cons _ _ _ _ Hx), (fancy_index_cons _ _ _ _ Hy).
  rewrite (fancy_index_cons _ _ _ (f x y)).
  - simpl. rewrite IH. reflexivity.
  - rewrite lookup_zip_with, Hx, Hy. reflexivity.
Qed.

Section Pairs.
Context (batch : list sample) (key : string) (cfs : list (ndarray * ndarray)) (d k : nat).
Hypothesis batch_nonempty : batch <> [].
Hypothesis pairs : Forall2 (holds_pair key d k) batch cfs.
Hypothesis batch_small : Z.of_nat (length batch) <= 2 ^ 31.

Lemma pairs_nonempty : cfs <> [].
Proof using batch_nonempty pairs.
  clear batch_small. destruct pairs; [congruence | discriminate].
Qed.

Lemma batched_voxels_rows :
  batched_voxels (fun s : sample => dict_get s key) batch
  = Ok (of_rows (Array (S d) (voxel_rows cfs))).
Proof using batch_nonempty pairs batch_small.
  unfold batched_voxels.
  rewrite (mapM_enumerate_lt _
             (fun i cf => of_rows (Array (S d) (cons (Z.of_nat i) <$> rows_2d cf.1))) batch cfs).
  - cbn [mbind result_bind].
    rewrite (stacked_tagged_rows (S d) (fun cf => rows_2d cf.1) cfs pairs_nonempty).
    unfold voxel_rows. rewrite <- list_fmap_compose. reflexivity.
  - eapply Forall2_impl; [exact pairs|].
    intros s [c f] ([rest Hget] & Hc & _ & n & Hsc & _) i Hi. cbn [fst snd] in *.
    rewrite Hget. cbn [mbind result_bind value_getitem getitem lookup list_lookup].
    cbn [py_len as_array]. rewrite Hsc. cbn [mbind result_bind].
    rewrite np_full_int32_Ok by lia. cbn [mbind result_bind].
    destruct (rows_2d_spec c n d Hsc Hc) as (Heq & Hwf & Hlen).
    rewrite Heq at 1. apply (concatenate1_full_column n _ _ Hwf Hlen).
Qed.

Lemma batched_data_rows :
  batched_data (fun s : sample => dict_get s key) batch
  = Ok (of_rows (Array k (feature_rows cfs))).
Proof using batch_nonempty pairs.
  unfold batched_data.
  rewrite (mapM_Forall2_Ok _ (fun cf : ndarray * ndarray => VArray cf.2) batch cfs).
  2:{ eapply Forall2_impl; [exact pairs|].
      intros s [c f] ([rest Hget] & _). rewrite Hget. reflexivity. }
  cbn [mbind result_bind].
  rewrite (mapM_Forall2_Ok as_array (fun cf : ndarray * ndarray => cf.2) _ cfs).
  2:{ apply Forall2_fmap_l, Forall_Forall2_diag, Forall_forall. reflexivity. }
  cbn [mbind result_bind].
  assert (E : (fun cf : ndarray * ndarray => cf.2) <$> cfs
              = of_rows <$> ((fun cf : ndarray * ndarray => Array k (rows_2d cf.2)) <$> cfs)).
  { rewrite <- list_fmap_compose. apply list_fmap_ext. intros i [c f] Hi. simpl.
    destruct (Forall2_lookup_r _ _ _ _ _ pairs Hi) as (s & _ & _ & _ & Hf & n & _ & Hsf).
    cbn [fst snd] in *. exact (proj1 (rows_2d_spec f n k Hsf Hf)). }
  rewrite E, (concatenate0_of_rows k).
  - unfold feature_rows. rewrite <- !list_fmap_compose. reflexivity.
  - pose proof pairs_nonempty. destruct cfs; [congruence | discriminate].
  - apply Forall_fmap, Forall_forall. reflexivity.
Qed.

Lemma voxel_rows_wf : array_wf (Array (S d) (voxel_rows cfs)).
Proof using pairs.
  apply array_wf_tagged_rows, Forall_fmap, Forall_fmap, Forall_forall.
  intros [c f] Hcf. simpl. apply list_elem_of_lookup_1 in Hcf as [i Hi].
  destruct (Forall2_lookup_r _ _ _ _ _ pairs Hi) as (s & _ & _ & Hc & _ & n & Hsc & _).
  exact (proj1 (proj2 (rows_2d_spec c n d Hsc Hc))).
Qed.

Lemma feature_rows_wf : array_wf (Array k (feature_rows cfs)).
Proof using pairs.
  apply array_wf_join, Forall_fmap, Forall_fmap, Forall_forall.
  intros [c f] Hcf. simpl. apply list_elem_of_lookup_1 in Hcf as [i Hi].
  destruct (Forall2_lookup_r _ _ _ _ _ pairs Hi) as (s & _ & _ & _ & Hf & n & _ & Hsf).
  exact (proj1 (proj2 (rows_2d_spec f n k Hsf Hf))).
Qed.

Lemma length_voxel_feature_rows : length (voxel_rows cfs) = length (feature_rows cfs).
Proof using pairs.
  unfold voxel_rows, feature_rows. rewrite length_tagged_rows, !length_join. f_equal.
  rewrite <- !list_fmap_compose. apply list_fmap_ext. intros i [c f] Hi. simpl.
  destruct (Forall2_lookup_r _ _ _ _ _ pairs Hi) as (s & _ & _ & Hc & Hf & n & Hsc & Hsf).
  cbn [fst snd] in *.
  rewrite (proj2 (proj2 (rows_2d_spec c n d Hsc Hc))).
  rewrite (proj2 (proj2 (rows_2d_spec f n k Hsf Hf))). reflexivity.
Qed.

Lemma collate_key_pairs (sp : particles_split) (dt : int_dtype) (vbo : option VolumeBoundaries) :
  key <> "particles_label"%string ->
  collate_key sp dt vbo batch key
  = VArray <$> collate_pairs dt vbo (fun s : sample => dict_get s key) batch.
Proof using batch_nonempty pairs.
  clear batch_small.
  intros Hkey. unfold collate_key. rewrite (proj2 (String.eqb_neq _ _) Hkey).
  destruct pairs as [|s [c f] batch' cfs' ([rest Hget] & _ & _ & n & Hsc & _) _]; [congruence|].
  cbn [getitem lookup list_lookup mbind result_bind fst snd] in *.
  rewrite Hget. cbn [mbind result_bind]. unfold ndim. rewrite Hsc. reflexivity.
Qed.

Lemma collate_pairs_None (dt : int_dtype) :
  collate_pairs dt None (fun s : sample => dict_get s key) batch
  = Ok (of_rows (Array (S d + k) (zip_with app (voxel_rows cfs) (feature_rows cfs)))).
Proof using batch_nonempty pairs batch_small.
  unfold collate_pairs. rewrite batched_voxels_rows, batched_data_rows.
  cbn [mbind result_bind fst snd].
  apply (concatenate1_of_rows (Array (S d) (voxel_rows cfs)) (Array k (feature_rows cfs))
           voxel_rows_wf feature_rows_wf length_voxel_feature_rows).
Qed.

Lemma collate_pairs_Some (dt : int_dtype) (vb : VolumeBoundaries) :
  vb_wf vb -> dim vb = d -> operands_fit dt vb ->
  collate_pairs dt (Some vb) (fun s : sample => dict_get s key) batch
  = Ok (of_rows (Array (S d + k)
                   (fancy_index
                      (zip_with app (split_row dt vb <$> voxel_rows cfs) (feature_rows cfs))
                      (lexsort (sort_keys d (split_row dt vb <$> voxel_rows cfs))
                         (length (voxel_rows cfs)))))).
Proof using batch_nonempty pairs batch_small.
  intros Hwf Hd Hops. unfold collate_pairs. rewrite batched_voxels_rows, batched_data_rows.
  cbn [mbind result_bind]. unfold split_array.
  rewrite (rows_of_of_rows _ voxel_rows_wf). cbn [mbind result_bind].
  rewrite (split_rows dt vb (Array (S d) (voxel_rows cfs)) Hwf Hops) by (simpl; congruence).
  cbn [mbind result_bind fst snd rows]. rewrite Hd.
  set (perm := lexsort (sort_keys d (split_row dt vb <$> voxel_rows cfs))
                 (length (voxel_rows cfs))).
  assert (Hperm : Forall (fun i => i < length (voxel_rows cfs))%nat perm).
  { apply Forall_forall. intros i Hi. unfold perm in Hi.
    rewrite (lexsort_perm _ (length (voxel_rows cfs))) in Hi. apply elem_of_seq in Hi. lia. }
  assert (Hnew : array_wf (Array (S d) (split_row dt vb <$> voxel_rows cfs))).
  { unfold array_wf. cbn [rows ncols]. apply Forall_fmap.
    eapply Forall_impl; [exact voxel_rows_wf|]. intros r Hr. simpl in *.
    apply split_row_nonempty. exact Hr. }
  rewrite (np_take_of_rows (Array (S d) (split_row dt vb <$> voxel_rows cfs)) perm Hnew)
    by (cbn [rows]; rewrite length_fmap; exact Hperm).
  cbn [mbind result_bind rows ncols].
  rewrite (np_take_of_rows (Array k (feature_rows cfs)) perm feature_rows_wf)
    by (cbn [rows]; rewrite <- length_voxel_feature_rows; exact Hperm).
  cbn [mbind result_bind fst snd rows ncols].
  rewrite (concatenate1_of_rows
             (Array (S d) (fancy_index (split_row dt vb <$> voxel_rows cfs) perm))
             (Array k (fancy_index (feature_rows cfs) perm))).
  - cbn [rows ncols]. rewrite fancy_index_zip_with; [reflexivity | |].
    + rewrite length_fmap. apply length_voxel_feature_rows.
    + rewrite length_fmap. exact Hperm.
  - exact (array_wf_fancy_index _ perm Hnew).
  - exact (array_wf_fancy_index _ perm feature_rows_wf).
  - cbn [rows]. rewrite !length_fancy_index; [reflexivity | |].
    + rewrite <- length_voxel_feature_rows. exact Hperm.
    + rewrite length_fmap. exact Hperm.
Qed.
End Pairs.

(** X17: for a key that holds a pair (coordinates, features) of integer
    arrays in every sample of a batch of at most 2^31 samples,
    [CollateSparse] returns the coordinate rows, each with the position of
    its sample in front and its feature row behind; with boundaries whose
    shifts and number of volumes fit the dtype of the voxel array, the
    coordinate part is the one [split] returns and the rows are taken in the
    order of its permutation, every feature row still behind its own voxel. *)
Theorem collate_pairs_keeps_features_with_voxels (sp : particles_split) (dt : int_dtype)
    (batch : list sample) (key : string) (cfs : list (ndarray * ndarray)) (d k : nat) :
  key <> "particles_label"%string -> batch <> [] ->
  Z.of_nat (length batch) <= 2 ^ 31 ->
  Forall2 (holds_pair key d k) batch cfs ->
  collate_key sp dt None batch key
  = Ok (VArray (of_rows (Array (S d + k) (zip_with app (voxel_rows cfs) (feature_rows cfs)))))
  /\ forall s s' vb, VolumeBoundaries_init s = (s', Ok vb) -> dim vb = d ->
       operands_fit dt vb ->
       exists new_voxels perm,
         split dt vb (Array (S d) (voxel_rows cfs)) = Ok (new_voxels, perm)
         /\ collate_key sp dt (Some vb) batch key
            = Ok (VArray (of_rows (Array (S d + k)
                                     (fancy_index
                                        (zip_with app (rows new_voxels) (feature_rows cfs))
                                        perm)))).
Proof.
  intros Hkey Hne Hsmall Hpairs. split.
  - rewrite (collate_key_pairs batch key cfs d k Hne Hpairs sp dt None Hkey).
    rewrite (collate_pairs_None batch key cfs d k Hne Hpairs Hsmall dt). reflexivity.
  - intros s s' vb Hinit Hd Hops. apply init_Ok in Hinit as (Hwf & _).
    rewrite (collate_key_pairs batch key cfs d k Hne Hpairs sp dt (Some vb) Hkey).
    rewrite (collate_pairs_Some batch key cfs d k Hne Hpairs Hsmall dt vb Hwf Hd Hops).
    rewrite (split_rows dt vb (Array (S d) (voxel_rows cfs)) Hwf Hops) by (simpl; congruence).
    rewrite Hd. do 2 eexists. split; reflexivity.
Qed.

Lemma collate_pairs_keeps_features_with_voxels_witness :
  collate_key not_reached int64 None
    [[("x"%string,
       VTuple [VArray (NDArray [1%nat; 2%nat] [5; 7]); VArray (NDArray [1%nat; 1%nat] [9])])];
     [("x"%string,
       VTuple [VArray (NDArray [1%nat; 2%nat] [12; 7]); VArray (NDArray [1%nat; 1%nat] [8])])]]
    "x"%string
  = Ok (VArray (NDArray [2%nat; 4%nat] [0; 5; 7; 9; 1; 12; 7; 8]))
  /\ collate_key not_reached int64 (Some vb_10)
       [[("x"%string,
          VTuple [VArray (NDArray [1%nat; 2%nat] [5; 7]); VArray (NDArray [1%nat; 1%nat] [9])])];
        [("x"%string,
          VTuple [VArray (NDArray [1%nat; 2%nat] [12; 7]); VArray (NDArray [1%nat; 1%nat] [8])])]]
       "x"%string
     = Ok (VArray (NDArray [2%nat; 4%nat] [0; 5; 7; 9; 3; 2; 7; 8])).
Proof.
  pose proof (collate_pairs_keeps_features_with_voxels not_reached int64
                [[("x"%string,
                   VTuple [VArray (NDArray [1%nat; 2%nat] [5; 7]);
                           VArray (NDArray [1%nat; 1%nat] [9])])];
                 [("x"%string,
                   VTuple [VArray (NDArray [1%nat; 2%nat] [12; 7]);
                           VArray (NDArray [1%nat; 1%nat] [8])])]]
                "x"%string
                [(NDArray [1%nat; 2%nat] [5; 7], NDArray [1%nat; 1%nat] [9]);
                 (NDArray [1%nat; 2%nat] [12; 7], NDArray [1%nat; 1%nat] [8])] 2 1
                ltac:(discriminate) ltac:(discriminate) ltac:(vm_compute; discriminate)
                ltac:(repeat constructor; simpl; eauto)) as [Hnone Hsome].
  split; [exact Hnone|].
  destruct (Hsome store_10 store_10 vb_10 init_store_10 eq_refl ltac:(repeat constructor))
    as (new_voxels & perm & Hsplit & Hres).
  rewrite Hres. vm_compute in Hsplit. injection Hsplit as <- <-. reflexivity.
Defined.

(** ** [CollateSparse] on the key ['particles_label'] *)

Lemma concatenate1_of_rows3 (a b c : array Z) :
  array_wf a -> array_wf b -> array_wf c ->
  length (rows a) = length (rows b) -> length (rows b) = length (rows c) ->
  concatenate1 [of_rows a; of_rows b; of_rows c]
  = Ok (of_rows (Array (ncols a + (ncols b + ncols c))
                   (zip_with app (rows a) (zip_with app (rows b) (rows c))))).
Proof.
  intros Ha Hb Hc Hab Hbc. unfold concatenate1, of_rows.
  cbn [shape data forallb hd tail ndim length].
  rewrite Hab, Hbc, !bool_decide_eq_true_2 by reflexivity. cbn [andb]. f_equal.
  cbn [fmap list_fmap sum_list sum_list_with hd tail shape rows ncols prod_list foldr].
  rewrite !length_zip_with, Hab, Hbc, !Nat.min_id, Nat.add_0_r. f_equal.
  assert (Hlen : length (zip_with app (rows a) (zip_with app (rows b) (rows c)))
                 = length (rows c))
    by (rewrite !length_zip_with; lia).
  rewrite <- Hlen. apply bind_seq_rows. intros r row Hr.
  apply lookup_zip_with_Some in Hr as (ra & rbc & -> & Hra & Hrbc).
  apply lookup_zip_with_Some in Hrbc as (rb & rc & -> & Hrb & Hrc).
  rewrite !bind_cons. change (@nil ndarray ≫= _) with (@nil Z). rewrite app_nil_r.
  cbn [data shape tail prod_list foldr Nat.add]. rewrite !Nat.mul_1_r.
  rewrite (block_join _ _ _ _ Ha Hra), (block_join _ _ _ _ Hb Hrb), (block_join _ _ _ _ Hc Hrc).
  reflexivity.
Qed.

Lemma float_entries_app (l k : list Z) :
  float_entries (l ++ k) = float_entries l ++ float_entries k.
Proof. unfold float_entries. apply fmap_app. Qed.

Lemma zip_with_app_float (l k : list (list Z)) :
  zip_with app (float_entries <$> l) (float_entries <$> k)
  = float_entries <$> zip_with app l k.
Proof.
  revert k. induction l as [|a l IH]; intros [|b k]; try reflexivity.
  rewrite !fmap_cons. cbn [zip_with]. rewrite fmap_cons, float_entries_app.
  f_equal. apply IH.
Qed.

(** Lines 255-259: the float32 column, the coordinates and the features of
    one sample, joined. *)
Lemma particles_label_part (i n d k : nat) (c f : ndarray) :
  shape c = [n; d] -> shape f = [n; k] -> ndarray_wf c -> ndarray_wf f ->
  concatenate1 [np_full_float32 n i; to_float c; to_float f]
  = Ok (of_rows (Array (S (d + k)) (float_row i <$> pair_rows (c, f)))).
Proof.
  intros Hsc Hsf Hc Hf. unfold pair_rows. cbn [fst snd].
  destruct (rows_2d_spec c n d Hsc Hc) as (Heqc & Hwfc & Hlenc).
  destruct (rows_2d_spec f n k Hsf Hf) as (Heqf & Hwff & Hlenf).
  unfold np_full_float32. rewrite full_column_of_rows. rewrite Heqc at 1. rewrite Heqf at 1.
  rewrite !to_float_of_rows.
  rewrite concatenate1_of_rows3.
  - cbn [rows ncols].
    rewrite zip_with_replicate_l by (rewrite length_zip_with, !length_fmap; lia).
    rewrite zip_with_app_float, <- list_fmap_compose. reflexivity.
  - unfold array_wf. cbn [rows ncols]. apply Forall_replicate. reflexivity.
  - exact (array_wf_float _ Hwfc).
  - exact (array_wf_float _ Hwff).
  - cbn [rows]. rewrite length_replicate, length_fmap. congruence.
  - cbn [rows]. rewrite !length_fmap. congruence.
Qed.

(** Lines 244-265 and 270: without boundaries the samples are stacked as
    rows of floats. *)
Lemma collate_particles_label_None (sp : particles_split) (batch : list sample)
    (key : string) (cfs : list (ndarray * ndarray)) (d k : nat) :
  batch <> [] -> Forall2 (holds_pair key d k) batch cfs ->
  collate_particles_label sp None key batch
  = Ok (of_rows (Array (S d + k) (float_tagged_rows (pair_rows <$> cfs)))).
Proof.
  intros Hbatch pairs. unfold collate_particles_label.
  rewrite (mapM_Forall2_Ok (fun s => v ← dict_get s key; value_getitem v 0)
             (fun cf : ndarray * ndarray => VArray cf.1) batch cfs).
  2:{ eapply Forall2_impl; [exact pairs|].
      intros s [c f] ([rest Hget] & _). rewrite Hget. reflexivity. }
  cbn [mbind result_bind].
  rewrite (mapM_Forall2_Ok (fun s => v ← dict_get s key; value_getitem v 1)
             (fun cf : ndarray * ndarray => VArray cf.2) batch cfs).
  2:{ eapply Forall2_impl; [exact pairs|].
      intros s [c f] ([rest Hget] & _). rewrite Hget. reflexivity. }
  cbn [mbind result_bind].
  assert (Hne : cfs <> []) by (destruct pairs; [congruence | discriminate]).
  assert (Hhead : exists c0 n0, getitem ((fun cf : ndarray * ndarray => VArray cf.1) <$> cfs) 0
                                = Ok (VArray c0) /\ shape c0 = [n0; d]).
  { destruct pairs as [|s0 [c0 f0] ? ? (_ & _ & _ & n & Hs & _) _]; [congruence|].
    exists c0, n. split; [reflexivity | exact Hs]. }
  destruct Hhead as (c0 & n0 & -> & Hs0).
  cbn [mbind result_bind shape_of]. rewrite Hs0.
  cbn [getitem lookup list_lookup mbind result_bind].
  rewrite (zip_with_fmap_diag pair).
  rewrite (mapM_enumerate _
             (fun i (cf : ndarray * ndarray) =>
                of_rows (Array (S (d + k)) (float_row i <$> pair_rows cf)))
             _ cfs).
  - cbn [mbind result_bind].
    rewrite (stacked_float_rows (S (d + k)) pair_rows cfs Hne). reflexivity.
  - apply Forall2_fmap_l, Forall_Forall2_diag, Forall_forall.
    intros [c f] Hcf i. apply list_elem_of_lookup_1 in Hcf as [j Hj].
    destruct (Forall2_lookup_r _ _ _ _ _ pairs Hj) as (s & _ & _ & Hc & Hf & n & Hsc & Hsf).
    cbn [fst snd shape_of mbind result_bind as_array] in *. rewrite Hsc.
    cbn [getitem lookup list_lookup mbind result_bind].
    exact (particles_label_part i n d k c f Hsc Hsf Hc Hf).
Qed.

(** X18: without boundaries, the key ['particles_label'] holding pairs
    (coordinates, features) of integer arrays, in a batch of at most 2^53
    samples, is collated to rows of floats in batch order: the position of
    the sample, rounded to binary32, then the coordinates and the features,
    converted to binary64. *)
Theorem collate_particles_label_rows (sp : particles_split) (dt : int_dtype)
    (batch : list sample) (cfs : list (ndarray * ndarray)) (d k : nat) :
  batch <> [] -> Z.of_nat (length batch) <= 2 ^ 53 ->
  Forall2 (holds_pair "particles_label"%string d k) batch cfs ->
  collate_key sp dt None batch "particles_label"%string
  = Ok (VArray (of_rows (Array (S d + k) (float_tagged_rows (pair_rows <$> cfs))))).
Proof.
  intros Hbatch _ Hpairs. unfold collate_key. cbn [String.eqb Ascii.eqb Bool.eqb].
  rewrite (collate_particles_label_None sp batch _ cfs d k Hbatch Hpairs). reflexivity.
Qed.

Lemma collate_particles_label_rows_witness :
  collate_key not_reached int64 None
    [[("particles_label"%string,
       VTuple [VArray (NDArray [1%nat; 1%nat] [5]); VArray (NDArray [1%nat; 1%nat] [9])])];
     [("particles_label"%string,
       VTuple [VArray (NDArray [1%nat; 1%nat] [9007199254740993]);
               VArray (NDArray [1%nat; 1%nat] [8])])]]
    "particles_label"%string
  = Ok (VArray (NDArray [2%nat; 3%nat] [0; 5; 9; 1; 9007199254740992; 8])).
Proof.
  apply (collate_particles_label_rows not_reached int64 _
           [(NDArray [1%nat; 1%nat] [5], NDArray [1%nat; 1%nat] [9]);
            (NDArray [1%nat; 1%nat] [9007199254740993], NDArray [1%nat; 1%nat] [8])] 1 1).
  - discriminate.
  - vm_compute. discriminate.
  - repeat constructor; simpl; eauto.
Defined.

(** ** CollateDense *)

Lemma stack_arrays (arrs : list ndarray) (a0 : ndarray) :
  arrs !! 0%nat = Some a0 -> Forall (fun a => shape a = shape a0) arrs ->
  stack (VArray <$> arrs)
  = Some (NDArray (length arrs :: shape a0) (mjoin (data <$> arrs))).
Proof.
  intros H0 Hall. destruct arrs as [|a arrs]; [discriminate|]. injection H0 as ->.
  unfold stack. rewrite fmap_cons. rewrite <- fmap_cons.
  assert (Hcheck : forallb (fun v => match v with
                                     | VArray b => bool_decide (shape b = shape a0)
                                     | _ => false
                                     end) (VArray <$> a0 :: arrs) = true).
  { apply forallb_forall. intros v Hv.
    apply list_elem_of_In, list_elem_of_fmap in Hv as (a & -> & Ha).
    rewrite Forall_forall in Hall. apply bool_decide_eq_true_2, Hall, Ha. }
  rewrite Hcheck, length_fmap. do 2 f_equal.
  clear. induction (a0 :: arrs) as [|a l IH]; [reflexivity|].
  rewrite !fmap_cons, bind_cons, IH. reflexivity.
Qed.

Lemma mapM_dict_get (batch : list sample) (key : string) :
  (exists vs, mapM (fun s => dict_get s key) batch = Ok vs
              /\ Forall2 (fun s v => dict_get s key = Ok v) batch vs)
  \/ (mapM (fun s => dict_get s key) batch = Raise "KeyError"%string
      /\ exists s, s ∈ batch /\ key ∉ s.*1).
Proof.
  induction batch as [|s batch IH].
  - left. exists []. split; [reflexivity | constructor].
  - cbn [mapM]. destruct (decide (key ∈ s.*1)) as [Hin|Hnin].
    + apply list_elem_of_fmap in Hin as ([k v] & -> & Hkv).
      apply list_elem_of_split in Hkv as (pre & post & ->).
      assert (Hget : exists v', dict_get (pre ++ (k, v) :: post) k = Ok v').
      { clear. induction pre as [|[k' v'] pre IHp]; simpl.
        - rewrite String.eqb_refl. eauto.
        - destruct (String.eqb k' k); eauto. }
      destruct Hget as [v' Hv']. simpl in *. rewrite Hv'. cbn [mbind result_bind].
      destruct IH as [(vs & -> & Hvs)|(-> & s' & Hs' & Hk)].
      * left. exists (v' :: vs). split; [reflexivity | constructor; assumption].
      * right. split; [reflexivity|]. exists s'. split; [right; exact Hs' | exact Hk].
    + right. rewrite (dict_get_missing s key Hnin). split; [reflexivity|].
      exists s. split; [left | exact Hnin].
Qed.

Lemma CollateDense_key (np_array_other : list value -> result value) (keys : list string)
    (batch : list sample) (res : list (string * value)) (key : string) (v : value) :
  mapM (fun key => vs ← mapM (fun s => dict_get s key) batch;
                   v ← np_array np_array_other vs; Ok (key, v)) keys = Ok res ->
  dict_get res key = Ok v ->
  exists vs, mapM (fun s => dict_get s key) batch = Ok vs
             /\ np_array np_array_other vs = Ok v.
Proof.
  intros H. apply mapM_Ok_Forall2 in H.
  induction H as [|k kv keys res Hkv _ IH]; [discriminate|].
  apply bind_Ok in Hkv as (vs & Hvs & Hkv). apply bind_Ok in Hkv as (v' & Hv' & [= <-]).
  simpl. destruct (String.eqb k key) eqn:E.
  - apply String.eqb_eq in E. subst k. intros [= <-]. eauto.
  - exact IH.
Qed.

(** X19: when every sample holds an array of one and the same shape under
    a key, [CollateDense] returns for that key the array whose item [i] is
    the array of sample [i]. *)
Theorem collate_dense_stacks_the_samples (np_array_other : list value -> result value)
    (batch : list sample) (res : list (string * value))
    (key : string) (v : value) (arrs : list ndarray) (sh : list nat) :
  CollateDense np_array_other batch = Ok res ->
  dict_get res key = Ok v ->
  Forall2 (fun s a => dict_get s key = Ok (VArray a)) batch arrs ->
  Forall (fun a => shape a = sh /\ ndarray_wf a) arrs ->
  v = VArray (NDArray (length batch :: sh) (mjoin (data <$> arrs)))
  /\ forall i a, arrs !! i = Some a -> value_getitem v i = Ok (VArray a).
Proof.
  intros Hres Hget Hall Hshape. unfold CollateDense in Hres.
  apply bind_Ok in Hres as (b0 & Hb0 & Hres). apply getitem_Ok in Hb0.
  destruct (CollateDense_key _ _ _ _ _ _ Hres Hget) as (vs & Hvs & Hv).
  assert (vs = VArray <$> arrs) as ->.
  { pose proof (mapM_Forall2_Ok (fun s => dict_get s key) VArray batch arrs Hall) as H.
    congruence. }
  destruct (Forall2_lookup_l _ _ _ _ _ Hall Hb0) as (a0 & Ha0 & _).
  assert (Hsh0 : shape a0 = sh).
  { rewrite Forall_forall in Hshape. apply Hshape. eapply list_elem_of_lookup_2. exact Ha0. }
  unfold np_array in Hv. rewrite (stack_arrays arrs a0 Ha0) in Hv.
  2:{ eapply Forall_impl; [exact Hshape|]. intros a [Ha _]. congruence. }
  injection Hv as <-. rewrite Hsh0, <- (Forall2_length _ _ _ Hall).
  split; [reflexivity|]. intros i a Ha.
  cbn [value_getitem shape data].
  rewrite (proj2 (Nat.ltb_lt _ _))
    by (rewrite (Forall2_length _ _ _ Hall); eapply lookup_lt_Some; exact Ha).
  do 2 f_equal.
  rewrite Forall_forall in Hshape.
  destruct (Hshape a (list_elem_of_lookup_2 _ _ _ Ha)) as [Hsa Hwfa].
  rewrite (block_join (prod_list sh) (data <$> arrs) i (data a)).
  - destruct a as [sha da]. simpl in *. congruence.
  - apply Forall_fmap, Forall_forall. intros b Hb. simpl.
    destruct (Hshape b Hb) as [Hsb Hwfb]. unfold ndarray_wf in Hwfb. congruence.
  - rewrite list_lookup_fmap, Ha. reflexivity.
Qed.

Lemma collate_dense_stacks_the_samples_witness :
  VArray (NDArray [2%nat; 1%nat; 2%nat] [1; 2; 1; 2])
  = VArray (NDArray (length [[("x"%string, VArray array_2d)]; [("x"%string, VArray array_2d)]]
                       :: [1%nat; 2%nat])
              (mjoin (data <$> [array_2d; array_2d])))
  /\ forall i a, [array_2d; array_2d] !! i = Some a ->
       value_getitem (VArray (NDArray [2%nat; 1%nat; 2%nat] [1; 2; 1; 2])) i = Ok (VArray a).
Proof.
  apply (collate_dense_stacks_the_samples (fun _ => Raise "ValueError"%string)
           [[("x"%string, VArray array_2d)]; [("x"%string, VArray array_2d)]]
           [("x"%string, VArray (NDArray [2%nat; 1%nat; 2%nat] [1; 2; 1; 2]))] "x"%string).
  - reflexivity.
  - reflexivity.
  - repeat constructor.
  - repeat constructor.
Defined.

(** X20: [CollateDense] raises [IndexError] on the empty batch and
    [KeyError] when a sample lacks the first key of the first sample; what it
    returns has the keys of the first sample, and every sample has them. *)
Theorem collate_dense_keys (np_array_other : list value -> result value)
    (batch : list sample) :
  (batch = [] -> CollateDense np_array_other batch = Raise "IndexError"%string)
  /\ (forall key v0 rest s,
        batch !! 0%nat = Some ((key, v0) :: rest) -> s ∈ batch -> key ∉ s.*1 ->
        CollateDense np_array_other batch = Raise "KeyError"%string)
  /\ (forall res,
        CollateDense np_array_other batch = Ok res ->
        exists b0, batch !! 0%nat = Some b0 /\ res.*1 = b0.*1
          /\ forall s key, s ∈ batch -> key ∈ b0.*1 -> exists v, dict_get s key = Ok v).
Proof.
  split; [|split].
  - intros ->. reflexivity.
  - intros key v0 rest s Hb0 Hs Hkey. unfold CollateDense.
    assert (Hg : getitem batch 0 = Ok ((key, v0) :: rest : sample))
      by (apply getitem_Ok; exact Hb0).
    rewrite Hg. cbn [mbind result_bind fmap list_fmap fst mapM].
    destruct (mapM_dict_get batch key) as [(vs & _ & Hvs)|[-> _]]; [|reflexivity].
    apply list_elem_of_lookup_1 in Hs as [i Hi].
    destruct (Forall2_lookup_l _ _ _ _ _ Hvs Hi) as (v & _ & Hv).
    rewrite (dict_get_missing s key Hkey) in Hv. discriminate.
  - intros res Hres. unfold CollateDense in Hres.
    apply bind_Ok in Hres as (b0 & Hb0 & Hres). apply getitem_Ok in Hb0.
    exists b0. split; [exact Hb0|]. split.
    + apply mapM_Ok_Forall2 in Hres. clear Hb0.
      induction Hres as [|key kv keys res' Hkv _ IH]; [reflexivity|].
      apply bind_Ok in Hkv as (vs & _ & Hkv). apply bind_Ok in Hkv as (v & _ & [= <-]).
      rewrite fmap_cons. simpl. f_equal. exact IH.
    + intros s key Hs Hkey. destruct (mapM_Ok_each _ _ _ _ Hres Hkey) as [kv Hkv].
      apply bind_Ok in Hkv as (vs & Hvs & _). exact (mapM_Ok_each _ _ _ _ Hvs Hs).
Qed.
